(** * Paintboard client: dispatch pipeline of [paintboard_client.py]

    A shallow embedding of the [PaintboardClient] class: the token pool,
    the 31-byte packet encoder, the inbound frame decoder, the result
    correlation map, the aggregation buffer and the packet-sender loop,
    followed by the properties of the specification that were checked
    against them.  The submission methods, the batch processor, the
    board geometry, the drawing loops of [main.py] and the check of
    [config.py] are embedded as well, with further properties of the
    code.

    Conventions of the embedding.
    - A Python [int] is a [Z]; a [bytes]/[bytearray] value is a list of
      [Z] whose elements the code keeps in [0, 256).
    - A method of the client is a function [client -> res A * client]:
      the fields written before an exception is raised stay written, as
      in Python.
    - [time.time()] is a parameter [now] (or the [clock] threaded by the
      loop runners), in milliseconds: [1.0] second is [1000].
    - The threads of the client are not modelled: a method, or a round
      of a loop, runs from start to end without another one in between.
    - What the client does to the outside (frames written to the
      transport, callbacks invoked, lines logged) is appended to the
      [trace] field, oldest first. *)

From Stdlib Require Import ZArith Lia Ascii String.
From stdpp Require Import gmap list strings.

Local Open Scope Z_scope.

(** ** Python values *)

Module Py.

(** The exceptions the modelled code can raise.  [Exception] carries
    which of the client's own messages it was built with;
    [CallerError] is any other exception, raised by code the caller
    supplied. *)
Inductive message :=
  | NoTokensAvailable          (* '没有可用的 token' *)
  | BatchTooLarge (n limit : Z) (* '批量像素数量超过限制' *)
  | AllPacketsFailed.          (* '所有像素数据包构建失败' *)

Inductive exn :=
  | Exception (m : message)
  | KeyError (k : Z)
  | IndexError
  | StructError
  | ValueError
  | CallerError (tag : nat).

Inductive res (A : Type) :=
  | Ok (a : A)
  | Raise (e : exn).
Arguments Ok {A} a.
Arguments Raise {A} e.

(** [l[i]] on a list: negative indices count from the end, anything
    out of range raises [IndexError] (here: [None]). *)
Definition getitem {A} (l : list A) (i : Z) : option A :=
  if 0 <=? i then l !! Z.to_nat i
  else if - Z.of_nat (length l) <=? i then l !! Z.to_nat (Z.of_nat (length l) + i)
  else None.

(** [l[a:b]] for the non-negative bounds the code uses: both ends are
    clamped to the length, an empty range gives the empty list. *)
Definition slice {A} (l : list A) (a b : Z) : list A :=
  take (Z.to_nat b - Z.to_nat a) (drop (Z.to_nat a) l).

(** [l[a:b] = v] on a bytearray, non-negative bounds: the (clamped)
    range is replaced by [v], whatever the length of [v]. *)
Definition slice_assign {A} (l : list A) (a b : Z) (v : list A) : list A :=
  take (Z.to_nat a) l ++ v ++ drop (Z.to_nat (Z.max a b)) l.

Definition len {A} (l : list A) : Z := Z.of_nat (length l).

End Py.
Export Py.

(** ** [struct] and [bytes.fromhex] *)

Module Wire.

(** [struct.pack('<H', v)]: two bytes, low byte first; [struct.error]
    outside [0, 65535]. *)
Definition struct_pack_H (v : Z) : option (list Z) :=
  if (0 <=? v) && (v <? 65536) then Some [v mod 256; v / 256] else None.

(** [struct.pack('<I', v)]: four bytes, low byte first. *)
Definition struct_pack_I (v : Z) : option (list Z) :=
  if (0 <=? v) && (v <? 4294967296)
  then Some [v mod 256; (v / 256) mod 256; (v / 65536) mod 256; v / 16777216]
  else None.

(** [struct.unpack('<H', bs)[0]]: exactly two bytes are required. *)
Definition struct_unpack_H (bs : list Z) : option Z :=
  match bs with
  | [b0; b1] => Some (b0 + 256 * b1)
  | _ => None
  end.

(** [struct.unpack('<I', bs)[0]]: exactly four bytes are required. *)
Definition struct_unpack_I (bs : list Z) : option Z :=
  match bs with
  | [b0; b1; b2; b3] => Some (b0 + 256 * b1 + 65536 * b2 + 16777216 * b3)
  | _ => None
  end.

(** [uint_to_bytes(value, num_bytes)]. *)
Fixpoint uint_to_bytes (value : Z) (num_bytes : nat) : list Z :=
  match num_bytes with
  | O => []
  | S n => Z.land value 255 :: uint_to_bytes (Z.shiftr value 8) n
  end.

Definition hex_digit (c : ascii) : option Z :=
  let n := Z.of_nat (nat_of_ascii c) in
  if (48 <=? n) && (n <=? 57) then Some (n - 48)
  else if (97 <=? n) && (n <=? 102) then Some (n - 87)
  else if (65 <=? n) && (n <=? 70) then Some (n - 55)
  else None.

(** ASCII white space, which [bytes.fromhex] skips between bytes. *)
Definition is_space (c : ascii) : bool :=
  let n := Z.of_nat (nat_of_ascii c) in
  (n =? 32) || ((9 <=? n) && (n <=? 13)).

(** [bytes.fromhex(s)]: pairs of hexadecimal digits, white space allowed
    between the pairs; [None] stands for the [ValueError]. *)
Fixpoint bytes_fromhex (s : string) : option (list Z) :=
  match s with
  | EmptyString => Some []
  | String c rest =>
      if is_space c then bytes_fromhex rest
      else match hex_digit c, rest with
           | Some hi, String d rest' =>
               match hex_digit d with
               | Some lo => cons (hi * 16 + lo) <$> bytes_fromhex rest'
               | None => None
               end
           | _, _ => None
           end
  end.

(** [s.replace('-', '')]. *)
Fixpoint remove_dashes (s : string) : string :=
  match s with
  | EmptyString => EmptyString
  | String c rest =>
      if Ascii.eqb c "-"%char then remove_dashes rest
      else String c (remove_dashes rest)
  end.

End Wire.
Export Wire.

(** ** The client object *)

Module Pixel.
(** One entry of a batch: the dict [{"x", "y", "r", "g", "b"}] with an
    optional ["callback"]. *)
Record callback := Callback {
  cb_id : nat;          (* which caller-supplied function *)
  cb_raises : bool      (* whether calling it raises *)
}.

Record t := Make {
  x : Z; y : Z; r : Z; g : Z; b : Z;
  callback_of : option callback   (* [pixel.get("callback")] *)
}.
End Pixel.
Abbreviation callback := Pixel.callback.
Abbreviation pixel := Pixel.t.

#[global] Instance callback_eq_dec : EqDecision callback.
Proof. solve_decision. Defined.

(** The function installed as [on_paint_update]: it returns, or raises
    the exception given.  Nothing in [handle_paint_message] catches
    it. *)
Record observer := Observer {
  ob_raises : option exn
}.

(** An entry of [self.tokens]: [{"uid": ..., "token": ...}]. *)
Record token_info := TokenInfo {
  uid : Z;
  token : string
}.

#[global] Instance token_info_eq_dec : EqDecision token_info.
Proof. solve_decision. Defined.

(** An entry of [self.batch_queue]; the callback of [paint_batch]
    resolves the future numbered [op_future]. *)
Record batch_operation := BatchOperation {
  op_pixels : list pixel;
  op_future : option nat
}.

(** The dict returned by [get_status_message]. *)
Inductive status_text :=
  | TxtSuccess | TxtCoolingDown | TxtInvalidToken | TxtBadRequest
  | TxtNotAuthorized | TxtServerError
  | TxtUnknown (code : Z).

Record status := Status {
  success : bool;
  message_of : status_text
}.

(** The [WebSocketApp]: [sock] is [None] or a socket whose [connected]
    flag is given; [send_raises] tells whether [send] raises at present. *)
Record ws_app := WsApp {
  sock : option bool;
  send_raises : bool
}.

Inductive log_line :=
  | LogTextMessage              (* '收到文本消息' *)
  | LogIncompletePaint          (* '绘画消息数据不完整' *)
  | LogIncompleteResult         (* '绘画结果数据不完整' *)
  | LogUnknownType (t : Z)      (* '未知的消息类型' *)
  | LogPongFailed               (* '发送心跳响应失败' *)
  | LogMessageError (e : exn)   (* '处理WebSocket消息时出错' *)
  | LogCallbackFailed           (* '回调函数执行失败' *)
  | LogTokenLength (n : Z)      (* 'Token长度错误' *)
  | LogTokenConversion          (* 'Token 转换失败' *)
  | LogLengthAnomaly (n : Z)    (* '数据长度异常' *)
  | LogFrameTooLarge            (* '包大小超过32KB限制' *)
  | LogRateLimited              (* '达到速率限制，等待下一秒' *)
  | LogSendFailed               (* '发送数据失败' *)
  | LogSenderError (e : exn)    (* '包发送器异常' *)
  | LogBatchError (e : exn)     (* '执行批量绘制操作时出错' *)
  | LogCloseCode (code : Z).    (* the line of [handle_close_code] *)

Inductive event :=
  | Sent (frame : list Z)                 (* [ws.send(frame, opcode=2)] went through *)
  | Called (cb : callback) (s : status)   (* a pixel callback was called *)
  | Resolved (future : nat) (ok : bool)   (* a batch callback was called *)
  | PaintUpdate (x y r g b : Z)           (* [on_paint_update] was called *)
  | WsClose                               (* [ws.close()] *)
  | Logged (l : log_line).

Record client := Client {
  tokens : list token_info;  (* [self.tokens], the pool *)
  current_token_index : Z;  (* round-robin cursor *)
  batch_size : Z;  (* [ADVANCED_CONFIG["BATCH_SIZE"]] *)
  cool_down_time : Z;  (* [ADVANCED_CONFIG["COOL_DOWN_TIME"]], ms *)
  actual_batch_size : Z;  (* [min(len(tokens), batch_size)], as last computed *)
  last_batch_time : Z;  (* ms *)
  batch_queue : list batch_operation;
  packet_count : Z;  (* frames counted in the current rate window *)
  last_reset_time : Z;  (* start of the rate window, ms *)
  chunks : list (list Z);  (* pending buffer, oldest first *)
  total_size : Z;  (* running size of [chunks] *)
  paint_id : Z;  (* next paint id *)
  paint_callbacks : gmap Z (option callback);  (* pending results *)
  is_drawing_image : bool;
  ws : option ws_app;  (* [None] before a connection is created *)
  ws_connected : bool;
  running : bool;
  on_paint_update : option observer;  (* [None] or the observer installed *)
  trace : list event  (* observable effects, oldest first *)
}.

(** Field updates ([self.f = v]). *)

Definition set_tokens (v : list token_info) (st : client) : client :=
  {| tokens := v; current_token_index := current_token_index st;
     batch_size := batch_size st; cool_down_time := cool_down_time st;
     actual_batch_size := actual_batch_size st;
     last_batch_time := last_batch_time st; batch_queue := batch_queue st;
     packet_count := packet_count st; last_reset_time := last_reset_time st;
     chunks := chunks st; total_size := total_size st;
     paint_id := paint_id st; paint_callbacks := paint_callbacks st;
     is_drawing_image := is_drawing_image st; ws := ws st;
     ws_connected := ws_connected st; running := running st;
     on_paint_update := on_paint_update st; trace := trace st |}.

Definition set_current_token_index (v : Z) (st : client) : client :=
  {| tokens := tokens st; current_token_index := v;
     batch_size := batch_size st; cool_down_time := cool_down_time st;
     actual_batch_size := actual_batch_size st;
     last_batch_time := last_batch_time st; batch_queue := batch_queue st;
     packet_count := packet_count st; last_reset_time := last_reset_time st;
     chunks := chunks st; total_size := total_size st;
     paint_id := paint_id st; paint_callbacks := paint_callbacks st;
     is_drawing_image := is_drawing_image st; ws := ws st;
     ws_connected := ws_connected st; running := running st;
     on_paint_update := on_paint_update st; trace := trace st |}.

Definition set_actual_batch_size (v : Z) (st : client) : client :=
  {| tokens := tokens st; current_token_index := current_token_index st;
     batch_size := batch_size st; cool_down_time := cool_down_time st;
     actual_batch_size := v; last_batch_time := last_batch_time st;
     batch_queue := batch_queue st; packet_count := packet_count st;
     last_reset_time := last_reset_time st; chunks := chunks st;
     total_size := total_size st; paint_id := paint_id st;
     paint_callbacks := paint_callbacks st;
     is_drawing_image := is_drawing_image st; ws := ws st;
     ws_connected := ws_connected st; running := running st;
     on_paint_update := on_paint_update st; trace := trace st |}.

Definition set_last_batch_time (v : Z) (st : client) : client :=
  {| tokens := tokens st; current_token_index := current_token_index st;
     batch_size := batch_size st; cool_down_time := cool_down_time st;
     actual_batch_size := actual_batch_size st; last_batch_time := v;
     batch_queue := batch_queue st; packet_count := packet_count st;
     last_reset_time := last_reset_time st; chunks := chunks st;
     total_size := total_size st; paint_id := paint_id st;
     paint_callbacks := paint_callbacks st;
     is_drawing_image := is_drawing_image st; ws := ws st;
     ws_connected := ws_connected st; running := running st;
     on_paint_update := on_paint_update st; trace := trace st |}.

Definition set_batch_queue (v : list batch_operation) (st : client) : client :=
  {| tokens := tokens st; current_token_index := current_token_index st;
     batch_size := batch_size st; cool_down_time := cool_down_time st;
     actual_batch_size := actual_batch_size st;
     last_batch_time := last_batch_time st; batch_queue := v;
     packet_count := packet_count st; last_reset_time := last_reset_time st;
     chunks := chunks st; total_size := total_size st;
     paint_id := paint_id st; paint_callbacks := paint_callbacks st;
     is_drawing_image := is_drawing_image st; ws := ws st;
     ws_connected := ws_connected st; running := running st;
     on_paint_update := on_paint_update st; trace := trace st |}.

Definition set_packet_count (v : Z) (st : client) : client :=
  {| tokens := tokens st; current_token_index := current_token_index st;
     batch_size := batch_size st; cool_down_time := cool_down_time st;
     actual_batch_size := actual_batch_size st;
     last_batch_time := last_batch_time st; batch_queue := batch_queue st;
     packet_count := v; last_reset_time := last_reset_time st;
     chunks := chunks st; total_size := total_size st;
     paint_id := paint_id st; paint_callbacks := paint_callbacks st;
     is_drawing_image := is_drawing_image st; ws := ws st;
     ws_connected := ws_connected st; running := running st;
     on_paint_update := on_paint_update st; trace := trace st |}.

Definition set_last_reset_time (v : Z) (st : client) : client :=
  {| tokens := tokens st; current_token_index := current_token_index st;
     batch_size := batch_size st; cool_down_time := cool_down_time st;
     actual_batch_size := actual_batch_size st;
     last_batch_time := last_batch_time st; batch_queue := batch_queue st;
     packet_count := packet_count st; last_reset_time := v;
     chunks := chunks st; total_size := total_size st;
     paint_id := paint_id st; paint_callbacks := paint_callbacks st;
     is_drawing_image := is_drawing_image st; ws := ws st;
     ws_connected := ws_connected st; running := running st;
     on_paint_update := on_paint_update st; trace := trace st |}.

Definition set_chunks (v : list (list Z)) (st : client) : client :=
  {| tokens := tokens st; current_token_index := current_token_index st;
     batch_size := batch_size st; cool_down_time := cool_down_time st;
     actual_batch_size := actual_batch_size st;
     last_batch_time := last_batch_time st; batch_queue := batch_queue st;
     packet_count := packet_count st; last_reset_time := last_reset_time st;
     chunks := v; total_size := total_size st; paint_id := paint_id st;
     paint_callbacks := paint_callbacks st;
     is_drawing_image := is_drawing_image st; ws := ws st;
     ws_connected := ws_connected st; running := running st;
     on_paint_update := on_paint_update st; trace := trace st |}.

Definition set_total_size (v : Z) (st : client) : client :=
  {| tokens := tokens st; current_token_index := current_token_index st;
     batch_size := batch_size st; cool_down_time := cool_down_time st;
     actual_batch_size := actual_batch_size st;
     last_batch_time := last_batch_time st; batch_queue := batch_queue st;
     packet_count := packet_count st; last_reset_time := last_reset_time st;
     chunks := chunks st; total_size := v; paint_id := paint_id st;
     paint_callbacks := paint_callbacks st;
     is_drawing_image := is_drawing_image st; ws := ws st;
     ws_connected := ws_connected st; running := running st;
     on_paint_update := on_paint_update st; trace := trace st |}.

Definition set_paint_id (v : Z) (st : client) : client :=
  {| tokens := tokens st; current_token_index := current_token_index st;
     batch_size := batch_size st; cool_down_time := cool_down_time st;
     actual_batch_size := actual_batch_size st;
     last_batch_time := last_batch_time st; batch_queue := batch_queue st;
     packet_count := packet_count st; last_reset_time := last_reset_time st;
     chunks := chunks st; total_size := total_size st; paint_id := v;
     paint_callbacks := paint_callbacks st;
     is_drawing_image := is_drawing_image st; ws := ws st;
     ws_connected := ws_connected st; running := running st;
     on_paint_update := on_paint_update st; trace := trace st |}.

Definition set_paint_callbacks (v : gmap Z (option callback)) (st : client) : client :=
  {| tokens := tokens st; current_token_index := current_token_index st;
     batch_size := batch_size st; cool_down_time := cool_down_time st;
     actual_batch_size := actual_batch_size st;
     last_batch_time := last_batch_time st; batch_queue := batch_queue st;
     packet_count := packet_count st; last_reset_time := last_reset_time st;
     chunks := chunks st; total_size := total_size st;
     paint_id := paint_id st; paint_callbacks := v;
     is_drawing_image := is_drawing_image st; ws := ws st;
     ws_connected := ws_connected st; running := running st;
     on_paint_update := on_paint_update st; trace := trace st |}.

Definition set_is_drawing_image (v : bool) (st : client) : client :=
  {| tokens := tokens st; current_token_index := current_token_index st;
     batch_size := batch_size st; cool_down_time := cool_down_time st;
     actual_batch_size := actual_batch_size st;
     last_batch_time := last_batch_time st; batch_queue := batch_queue st;
     packet_count := packet_count st; last_reset_time := last_reset_time st;
     chunks := chunks st; total_size := total_size st;
     paint_id := paint_id st; paint_callbacks := paint_callbacks st;
     is_drawing_image := v; ws := ws st; ws_connected := ws_connected st;
     running := running st; on_paint_update := on_paint_update st;
     trace := trace st |}.

Definition set_ws_connected (v : bool) (st : client) : client :=
  {| tokens := tokens st; current_token_index := current_token_index st;
     batch_size := batch_size st; cool_down_time := cool_down_time st;
     actual_batch_size := actual_batch_size st;
     last_batch_time := last_batch_time st; batch_queue := batch_queue st;
     packet_count := packet_count st; last_reset_time := last_reset_time st;
     chunks := chunks st; total_size := total_size st;
     paint_id := paint_id st; paint_callbacks := paint_callbacks st;
     is_drawing_image := is_drawing_image st; ws := ws st; ws_connected := v;
     running := running st; on_paint_update := on_paint_update st;
     trace := trace st |}.

Definition set_running (v : bool) (st : client) : client :=
  {| tokens := tokens st; current_token_index := current_token_index st;
     batch_size := batch_size st; cool_down_time := cool_down_time st;
     actual_batch_size := actual_batch_size st;
     last_batch_time := last_batch_time st; batch_queue := batch_queue st;
     packet_count := packet_count st; last_reset_time := last_reset_time st;
     chunks := chunks st; total_size := total_size st;
     paint_id := paint_id st; paint_callbacks := paint_callbacks st;
     is_drawing_image := is_drawing_image st; ws := ws st;
     ws_connected := ws_connected st; running := v;
     on_paint_update := on_paint_update st; trace := trace st |}.

Definition set_trace (v : list event) (st : client) : client :=
  {| tokens := tokens st; current_token_index := current_token_index st;
     batch_size := batch_size st; cool_down_time := cool_down_time st;
     actual_batch_size := actual_batch_size st;
     last_batch_time := last_batch_time st; batch_queue := batch_queue st;
     packet_count := packet_count st; last_reset_time := last_reset_time st;
     chunks := chunks st; total_size := total_size st;
     paint_id := paint_id st; paint_callbacks := paint_callbacks st;
     is_drawing_image := is_drawing_image st; ws := ws st;
     ws_connected := ws_connected st; running := running st;
     on_paint_update := on_paint_update st; trace := v |}.
Definition emit (e : event) (st : client) : client :=
  set_trace (trace st ++ [e]) st.

Definition log (l : log_line) (st : client) : client := emit (Logged l) st.

(** The state [__init__] builds, for a given configuration. *)
Definition init (cfg_batch_size cfg_cool_down_time now : Z) : client :=
  {| tokens := []; current_token_index := 0;
     batch_size := cfg_batch_size; cool_down_time := cfg_cool_down_time;
     actual_batch_size := 0; last_batch_time := 0; batch_queue := [];
     packet_count := 0; last_reset_time := now;
     chunks := []; total_size := 0; paint_id := 0; paint_callbacks := ∅;
     is_drawing_image := false; ws := None; ws_connected := false;
     running := false; on_paint_update := None; trace := [] |}.

(** ** Methods as state transformers *)

Definition M (A : Type) : Type := client -> res A * client.

Definition ret {A} (a : A) : M A := fun st => (Ok a, st).
Definition raise {A} (e : exn) : M A := fun st => (Raise e, st).
Definition bind {A B} (m : M A) (k : A -> M B) : M B :=
  fun st =>
    match m st with
    | (Ok a, st') => k a st'
    | (Raise e, st') => (Raise e, st')
    end.
Definition update (f : client -> client) : M unit := fun st => (Ok tt, f st).
Definition read {A} (f : client -> A) : M A := fun st => (Ok (f st), st).

(** A library call that raises [e] when it has no result. *)
Definition or_raise {A} (e : exn) (o : option A) : M A :=
  match o with
  | Some a => ret a
  | None => raise e
  end.

Notation "x <~ m ;; k" := (bind m (fun x => k))
  (at level 100, m at next level, right associativity).
Notation "m ;;; k" := (bind m (fun _ => k))
  (at level 100, right associativity).

(** ** Token pool *)

(** [get_next_token]. *)
Definition get_next_token : M token_info :=
  fun st =>
    match tokens st with
    | [] => (Raise (Exception NoTokensAvailable), st)
    | _ :: _ =>
        match getitem (tokens st) (current_token_index st) with
        | None => (Raise IndexError, st)
        | Some token =>
            (Ok token,
             set_current_token_index
               ((current_token_index st + 1) mod len (tokens st)) st)
        end
    end.

(** [n] consecutive calls of [get_next_token], the tokens returned in
    the order of the calls. *)
Fixpoint get_next_token_n (n : nat) : M (list token_info) :=
  match n with
  | O => ret []
  | S n' =>
      t <~ get_next_token ;;
      ts <~ get_next_token_n n' ;;
      ret (t :: ts)
  end.

(** The part of [fetch_tokens_from_access_keys] after the HTTP
    exchanges: [results] holds, for each access key, the token obtained
    or [None]. *)
Inductive fetch_outcome := Fetched | NoAccessKeys | NoValidToken.

Definition fetch_tokens_from_access_keys
    (results : list (option token_info)) (st : client) : fetch_outcome * client :=
  match results with
  | [] => (NoAccessKeys, st)
  | _ :: _ =>
      let st := set_tokens (omap id results) st in
      match tokens st with
      | [] => (NoValidToken, st)
      | _ :: _ => (Fetched, st)
      end
  end.

(** [refresh_tokens]; step 2 of [initialize] is the same computation. *)
Definition refresh_tokens
    (results : list (option token_info)) (st : client) : fetch_outcome * client :=
  match fetch_tokens_from_access_keys results st with
  | (Fetched, st) =>
      (Fetched,
       set_actual_batch_size (Z.min (len (tokens st)) (batch_size st)) st)
  | failed => failed
  end.

(** What [__init__], [initialize] and [refresh_tokens], the only writers
    of the pool and of the batch limit, keep true of them: the limit is
    at most the pool size, or the pool is empty (a refresh that found no
    token empties the pool and leaves the limit as it was). *)
Definition pool_limit_ok (st : client) : Prop :=
  actual_batch_size st <= len (tokens st) \/ tokens st = [].

(** ** Packet codec, outbound *)

(** [bytearray.extend([r, g, b])] accepts integers of [range(256)]. *)
Definition byte_values (l : list Z) : option (list Z) :=
  if forallb (fun v => (0 <=? v) && (v <? 256)) l then Some l else None.

(** [create_single_paint_data]: [Ok None] is the [return None] of a
    token that does not convert; a [struct.error] or [ValueError]
    propagates to the caller. *)
Definition create_single_paint_data
    (pixel : pixel) (token_info : token_info) : M (option (list Z)) :=
  paint_id <~ read paint_id ;;
  update (set_paint_id ((paint_id + 1) mod 4294967296)) ;;;
  let token_hex := remove_dashes (token token_info) in
  match bytes_fromhex token_hex with
  | None => update (log LogTokenConversion) ;;; ret None
  | Some token_bytes =>
      if negb (len token_bytes =? 16) then
        update (log (LogTokenLength (len token_bytes))) ;;; ret None
      else
        x_bytes <~ or_raise StructError (struct_pack_H (Pixel.x pixel)) ;;
        y_bytes <~ or_raise StructError (struct_pack_H (Pixel.y pixel)) ;;
        rgb <~ or_raise ValueError
                 (byte_values [Pixel.r pixel; Pixel.g pixel; Pixel.b pixel]) ;;
        uid_packed <~ or_raise StructError (struct_pack_I (uid token_info)) ;;
        let uid_bytes := slice uid_packed 0 3 in
        id_bytes <~ or_raise StructError (struct_pack_I paint_id) ;;
        let paint_data :=
          [254] ++ x_bytes ++ y_bytes ++ rgb ++ uid_bytes ++ token_bytes
                ++ id_bytes in
        if negb (len paint_data =? 31) then
          update (log (LogLengthAnomaly (len paint_data))) ;;; ret None
        else
          update (fun st =>
            set_paint_callbacks
              (<[paint_id := Pixel.callback_of pixel]> (paint_callbacks st)) st) ;;;
          ret (Some paint_data)
  end.

(** The loop of [create_batch_paint_data]: the bytes of the packets
    built so far and their number are accumulated. *)
Fixpoint create_batch_loop
    (pixels : list pixel) (batch_data : list Z) (successful_pixels : Z)
    : M (list Z * Z) :=
  match pixels with
  | [] => ret (batch_data, successful_pixels)
  | pixel :: rest =>
      token_info <~ get_next_token ;;
      paint_data <~ create_single_paint_data pixel token_info ;;
      match paint_data with
      | Some ((_ :: _) as d) =>
          create_batch_loop rest (batch_data ++ d) (successful_pixels + 1)
      | _ => create_batch_loop rest batch_data successful_pixels
      end
  end.

(** [create_batch_paint_data]. *)
Definition create_batch_paint_data (pixels : list pixel) : M (list Z) :=
  actual <~ read actual_batch_size ;;
  if len pixels >? actual then
    raise (Exception (BatchTooLarge (len pixels) actual))
  else
    out <~ create_batch_loop pixels [] 0 ;;
    if snd out =? 0 then raise (Exception AllPacketsFailed)
    else ret (fst out).

(** Modelled on the wire layout of the specification (the client has no
    decoder for its own packets): opcode, x and y as little-endian
    16-bit fields, r, g, b, three bytes of account id, sixteen token
    bytes, a little-endian 32-bit paint id. *)
Record decoded_packet := Decoded {
  d_x : Z; d_y : Z; d_r : Z; d_g : Z; d_b : Z;
  d_account_low24 : Z;
  d_token : list Z;
  d_paint_id : Z
}.

Definition layout_decode (packet : list Z) : option decoded_packet :=
  if negb (len packet =? 31) then None else
  match getitem packet 0 with
  | Some 254 =>
      x ← struct_unpack_H (slice packet 1 3);
      y ← struct_unpack_H (slice packet 3 5);
      r ← getitem packet 5;
      g ← getitem packet 6;
      b ← getitem packet 7;
      acc ← struct_unpack_I (slice packet 8 11 ++ [0]);
      id ← struct_unpack_I (slice packet 27 31);
      Some (Decoded x y r g b acc (slice packet 11 27) id)
  | _ => None
  end.

(** ** Result correlation *)

(** [get_status_message]. *)
Definition get_status_message (code : Z) : status :=
  if code =? 239 then Status true TxtSuccess
  else if code =? 238 then Status false TxtCoolingDown
  else if code =? 237 then Status false TxtInvalidToken
  else if code =? 236 then Status false TxtBadRequest
  else if code =? 235 then Status false TxtNotAuthorized
  else if code =? 234 then Status false TxtServerError
  else Status false (TxtUnknown code).

(** [callback(status)] inside its [try]/[except]: the call is recorded,
    an exception of the callback is logged and goes no further. *)
Definition call_guarded (cb : callback) (s : status) (st : client) : client :=
  let st := emit (Called cb s) st in
  if Pixel.cb_raises cb then log LogCallbackFailed st else st.

(** The calls a result for a pending entry is expected to give rise to:
    one call of its callback, if it has one. *)
Definition delivery (entry : option callback) (code : Z) : list (callback * status) :=
  match entry with
  | Some cb => [(cb, get_status_message code)]
  | None => []
  end.

(** [handle_paint_result]; [now] is [time.time() * 1000].  The [del]
    statement stands outside the membership test. *)
Definition handle_paint_result (now paint_id code : Z) : M unit :=
  update (fun st =>
    match paint_callbacks st !! paint_id with
    | Some callback =>
        let status := get_status_message code in
        match callback with
        | Some cb => call_guarded cb status st
        | None => st
        end
    | None => st
    end) ;;;
  registered <~ read (fun st => paint_callbacks st !! paint_id) ;;
  match registered with
  | None => raise (KeyError paint_id)
  | Some _ =>
      update (fun st =>
        set_paint_callbacks (delete paint_id (paint_callbacks st)) st) ;;;
      if code =? 239 then update (set_last_batch_time now) else ret tt
  end.

(** [handle_paint_message]: the observer, if there is one, is called
    outside any [try] of this method, so its exception goes on to the
    caller. *)
Definition handle_paint_message (x y color_r color_g color_b : Z) : M unit :=
  installed <~ read on_paint_update ;;
  match installed with
  | None => ret tt
  | Some ob =>
      update (emit (PaintUpdate x y color_r color_g color_b)) ;;;
      match ob_raises ob with
      | Some e => raise e
      | None => ret tt
      end
  end.

(** ** Cooldown *)

(** [is_batch_cooling_down], [now] being [time.time() * 1000]. *)
Definition is_batch_cooling_down (now : Z) (st : client) : bool :=
  now - last_batch_time st <? cool_down_time st.

(** [get_remaining_batch_cool_down]. *)
Definition get_remaining_batch_cool_down (now : Z) (st : client) : Z :=
  let elapsed := now - last_batch_time st in
  Z.max 0 (cool_down_time st - elapsed).

(** ** Aggregation buffer *)

(** [append_data]. *)
Definition append_data (paint_data : list Z) (st : client) : client :=
  let st := set_chunks (chunks st ++ [paint_data]) st in
  set_total_size (total_size st + len paint_data) st.

(** The copying loop of [get_merged_data]. *)
Fixpoint merge_chunks (cs : list (list Z)) (result : list Z) (offset : Z) : list Z :=
  match cs with
  | [] => result
  | chunk :: rest =>
      merge_chunks rest
        (slice_assign result offset (offset + len chunk) chunk)
        (offset + len chunk)
  end.

(** [get_merged_data]: [bytearray(n)] is [n] zero bytes and raises
    [ValueError] for a negative [n]. *)
Definition get_merged_data : M (option (list Z)) :=
  total <~ read total_size ;;
  if total =? 0 then ret None
  else if total <? 0 then raise ValueError
  else
    cs <~ read chunks ;;
    let result := merge_chunks cs (replicate (Z.to_nat total) 0) 0 in
    update (set_total_size 0) ;;;
    update (set_chunks []) ;;;
    ret (Some result).

(** The running size agrees with the chunks. *)
Definition buffer_consistent (st : client) : Prop :=
  total_size st = len (concat (chunks st)).

(** ** Transport *)

(** [self.ws and hasattr(self.ws, 'sock') and self.ws.sock and
    self.ws.sock.connected]. *)
Definition sock_connected (st : client) : bool :=
  match ws st with
  | Some w => match sock w with Some connected => connected | None => false end
  | None => false
  end.

(** [self.ws and hasattr(self.ws, 'sock') and self.ws.sock]. *)
Definition sock_present (st : client) : bool :=
  match ws st with
  | Some w => match sock w with Some _ => true | None => false end
  | None => false
  end.

(** [self.ws.send(data, opcode=2)]: [false] when the call raises (also
    when [self.ws] is [None]). *)
Definition ws_send (data : list Z) (st : client) : bool * client :=
  match ws st with
  | Some w => if send_raises w then (false, st) else (true, emit (Sent data) st)
  | None => (false, st)
  end.

(** ** Packet sender *)

Definition max_frame_size : Z := 32 * 1024.
Definition max_frames_per_second : Z := 256.

(** One round of the [while self.running] loop of [send_packets] in the
    definition of [start_packet_sender] that is in force (the second one
    of the class body, which replaces the first).  The result is the
    time slept before the next round, in ms: [send_interval] is
    [ADVANCED_CONFIG["SEND_INTERVAL"]], and a [continue] skips the sleep.
    [Raise] is an exception that leaves the thread function. *)
Definition send_packets_step (send_interval : Z) (st : client) : res Z * client :=
  if negb (bool_decide (chunks st = [])) && sock_connected st then
    match get_merged_data st with
    | (Raise e, st) => (Raise e, st)
    | (Ok (Some ((_ :: _) as merged_data)), st) =>
        if len merged_data >? max_frame_size then
          (Ok 0, log LogFrameTooLarge st)
        else
          match ws_send merged_data st with
          | (true, st) =>
              (Ok send_interval, set_packet_count (packet_count st + 1) st)
          | (false, st) => (Ok send_interval, log LogSendFailed st)
          end
    | (Ok _, st) => (Ok send_interval, st)
    end
  else (Ok send_interval, st).

(** The same round in the first definition of [start_packet_sender],
    which the second one shadows; [now] is [time.time()] in ms. *)
Definition send_packets_step_shadowed
    (send_interval now : Z) (st : client) : Z * client :=
  if negb (bool_decide (chunks st = [])) && ws_connected st && sock_present st then
    match get_merged_data st with
    | (Raise e, st) => (100, log (LogSenderError e) st)
    | (Ok (Some ((_ :: _) as merged_data)), st) =>
        if len merged_data >? max_frame_size then
          (0, log LogFrameTooLarge st)
        else
          let st :=
            if now - last_reset_time st >=? 1000
            then set_last_reset_time now (set_packet_count 0 st)
            else st in
          if packet_count st >=? max_frames_per_second then
            (100, log LogRateLimited st)
          else
            match ws_send merged_data st with
            | (true, st) =>
                (send_interval, set_packet_count (packet_count st + 1) st)
            | (false, st) =>
                (send_interval, append_data merged_data (log LogSendFailed st))
            end
    | (Ok _, st) => (send_interval, st)
    end
  else (send_interval, st).

(** One round of [monitor_rate]. *)
Definition monitor_rate_step (now : Z) (st : client) : client :=
  if now - last_reset_time st >=? 1000
  then set_last_reset_time now (set_packet_count 0 st)
  else st.

(** The sender thread under a synthetic clock: before each test of
    [while self.running] one batch of packet bytes reaches the buffer;
    the clock advances by the time the round sleeps.  The run ends with
    the batches, or when [running] is found false, or when the thread
    function is left by an exception. *)
Fixpoint sender_run
    (send_interval : Z) (batches : list (list Z)) (clock : Z) (st : client)
    : Z * client :=
  match batches with
  | [] => (clock, st)
  | batch :: rest =>
      let st := append_data batch st in
      if running st then
        match send_packets_step send_interval st with
        | (Ok pause, st) => sender_run send_interval rest (clock + pause) st
        | (Raise _, st) => (clock, st)
        end
      else (clock, st)
  end.

(** The frames that went to the transport, in order. *)
Definition frames_sent (st : client) : list (list Z) :=
  omap (fun e => match e with Sent f => Some f | _ => None end) (trace st).

(** The pixel callbacks that were called, in order. *)
Definition calls_made (st : client) : list (callback * status) :=
  omap (fun e => match e with Called cb s => Some (cb, s) | _ => None end)
       (trace st).

(** ** Batch dispatch *)

(** [execute_batch_paint_operation] (the definition in force); [now] is
    [time.time() * 1000]. *)
Definition resolve_future (future : option nat) (ok : bool) (st : client) : client :=
  match future with
  | Some f => emit (Resolved f ok) st
  | None => st
  end.

Definition execute_batch_paint_operation
    (now : Z) (operation : batch_operation) (st : client) : client :=
  match create_batch_paint_data (op_pixels operation) st with
  | (Ok batch_data, st) =>
      let st := append_data batch_data st in
      let st := set_last_batch_time now st in
      resolve_future (op_future operation) true st
  | (Raise error, st) =>
      resolve_future (op_future operation) false (log (LogBatchError error) st)
  end.

(** ** Teardown *)

(** [close]. *)
Definition close (st : client) : client :=
  let st := set_is_drawing_image false st in
  let st := set_batch_queue [] st in
  let st := set_running false st in
  match ws st with
  | Some _ => emit WsClose st
  | None => st
  end.

(** The [on_close] handler installed by [initialize_websocket_async],
    which the transport calls once the connection is gone. *)
Definition on_close (close_status_code : Z) (st : client) : client :=
  let st := set_ws_connected false st in
  log (LogCloseCode close_status_code) st.

(** ** Packet codec, inbound *)

Inductive ws_message :=
  | Text (s : string)
  | Binary (buffer : list Z).

(** The reply to a heartbeat: [self.ws.send(bytes([0xfb]), opcode=2)]
    inside its own [try]/[except]. *)
Definition send_pong (st : client) : client :=
  match ws_send [251] st with
  | (true, st) => st
  | (false, st) => log LogPongFailed st
  end.

(** How the [while offset < len(buffer)] loop was left. *)
Inductive loop_exit :=
  | Exhausted   (* the condition became false *)
  | Broke.      (* a [break] *)

(** What one round of the loop comes to: the next round starts at a new
    offset, or the loop is left by a [break], or an exception travels to
    the [except] of the method. *)
Inductive round :=
  | Next (offset : Z) (st : client)
  | Break (st : client)
  | Raised (e : exn) (st : client).

(** A round read one byte further to the right: how a round on a buffer
    reads once a byte stands in front of that buffer. *)
Definition shifted (r : round) : round :=
  match r with
  | Next offset st => Next (offset + 1) st
  | other => other
  end.

(** The body of the loop of [on_websocket_message] for the message that
    starts at [offset] (which is below [len(buffer)]); [now] is the time
    at which results are handled. *)
Definition decode_round (now : Z) (buffer : list Z) (offset : Z) (st : client)
    : round :=
  match getitem buffer offset with
  | None => Raised IndexError st
  | Some msg_type =>
      let offset := offset + 1 in
      if msg_type =? 250 then
        if offset + 6 <=? len buffer then
          let fields : M (Z * Z * Z * Z * Z) :=
            x <~ or_raise StructError
                   (struct_unpack_H (slice buffer offset (offset + 2))) ;;
            y <~ or_raise StructError
                   (struct_unpack_H (slice buffer (offset + 2) (offset + 4))) ;;
            color_r <~ or_raise IndexError (getitem buffer (offset + 4)) ;;
            color_g <~ or_raise IndexError (getitem buffer (offset + 5)) ;;
            color_b <~ or_raise IndexError (getitem buffer (offset + 6)) ;;
            ret (x, y, color_r, color_g, color_b) in
          match fields st with
          | (Raise e, st) => Raised e st
          | (Ok (x, y, color_r, color_g, color_b), st) =>
              match handle_paint_message x y color_r color_g color_b st with
              | (Raise e, st) => Raised e st
              | (Ok _, st) => Next (offset + 7) st
              end
          end
        else Break (log LogIncompletePaint st)
      else if msg_type =? 252 then Next offset (send_pong st)
      else if msg_type =? 255 then
        if offset + 4 <=? len buffer then
          let fields : M (Z * Z) :=
            paint_id <~ or_raise StructError
                   (struct_unpack_I (slice buffer offset (offset + 4))) ;;
            code <~ or_raise IndexError (getitem buffer (offset + 4)) ;;
            ret (paint_id, code) in
          match fields st with
          | (Raise e, st) => Raised e st
          | (Ok (paint_id, code), st) =>
              match handle_paint_result now paint_id code st with
              | (Raise e, st) => Raised e st
              | (Ok _, st) => Next (offset + 5) st
              end
          end
        else Break (log LogIncompleteResult st)
      else Next offset (log (LogUnknownType msg_type) st)
  end.

(** The loop of [on_websocket_message], from [offset] on.  [fuel] bounds
    the number of rounds ([None]: the bound was too small). *)
Fixpoint decode_loop (fuel : nat) (now : Z) (buffer : list Z) (offset : Z)
    (st : client) : option (res loop_exit * client) :=
  if negb (offset <? len buffer) then Some (Ok Exhausted, st) else
  match fuel with
  | O => None
  | S fuel' =>
      match decode_round now buffer offset st with
      | Next offset st => decode_loop fuel' now buffer offset st
      | Break st => Some (Ok Broke, st)
      | Raised e st => Some (Raise e, st)
      end
  end.

(** How a call of [on_websocket_message] ended. *)
Inductive decode_end :=
  | TextIgnored                 (* a [str] message: logged, nothing else *)
  | WholeFrame                  (* every byte was consumed *)
  | IncompleteTail              (* left by [break] on a short message *)
  | Failed (e : exn)            (* left through the [except] of the method *)
  | OutOfFuel.

(** [on_websocket_message]: every round consumes at least one byte, so
    the length of the buffer bounds the rounds. *)
Definition on_websocket_message (now : Z) (message : ws_message) (st : client)
    : decode_end * client :=
  match message with
  | Text _ => (TextIgnored, log LogTextMessage st)
  | Binary buffer =>
      match decode_loop (length buffer) now buffer 0 st with
      | None => (OutOfFuel, st)
      | Some (Ok Exhausted, st) => (WholeFrame, st)
      | Some (Ok Broke, st) => (IncompleteTail, st)
      | Some (Raise e, st) => (Failed e, log (LogMessageError e) st)
      end
  end.

(** ** Board geometry *)

Definition board_width : Z := 1000.
Definition board_height : Z := 600.

(** [is_coordinate_valid]. *)
Definition is_coordinate_valid (x y : Z) : bool :=
  (0 <=? x) && (x <? board_width) && ((0 <=? y) && (y <? board_height)).

(** [is_image_within_bounds]. *)
Definition is_image_within_bounds (start_x start_y width height : Z) : bool :=
  (start_x >=? 0) && (start_y >=? 0)
  && (start_x + width <=? board_width)
  && (start_y + height <=? board_height).

(** The dict returned by [get_image_valid_region]. *)
Record region := Region {
  reg_start_x : Z; reg_start_y : Z; reg_width : Z; reg_height : Z
}.

(** [get_image_valid_region]. *)
Definition get_image_valid_region (start_x start_y width height : Z) : region :=
  let valid_start_x := Z.max 0 start_x in
  let valid_start_y := Z.max 0 start_y in
  let valid_end_x := Z.min board_width (start_x + width) in
  let valid_end_y := Z.min board_height (start_y + height) in
  Region valid_start_x valid_start_y
         (valid_end_x - valid_start_x) (valid_end_y - valid_start_y).

(** ** Submission *)

(** The exceptions the submission methods raise before anything is
    tried. *)
Inductive api_error :=
  | ReadOnlyConnection                 (* '只读连接不能进行绘画操作' *)
  | NotInitialized                     (* '客户端未初始化' *)
  | WebSocketNotConnected              (* 'WebSocket未连接' *)
  | CoordinateOffBoard (x y : Z).      (* '坐标 (x, y) 超出画板范围' *)

(** The loop that checks the coordinates of a batch: the first pixel
    off the board raises. *)
Fixpoint check_coordinates (pixels : list pixel) : option api_error :=
  match pixels with
  | [] => None
  | pixel :: rest =>
      if is_coordinate_valid (Pixel.x pixel) (Pixel.y pixel)
      then check_coordinates rest
      else Some (CoordinateOffBoard (Pixel.x pixel) (Pixel.y pixel))
  end.

(** [paint_batch_simple]; [readonly] and [initialized] are the fields of
    that name, [now] is [time.time() * 1000].  [inl e]: the exception
    [e] is raised; [inr None]: the dict with ["success": True];
    [inr (Some e)]: the dict with ["success": False] and the text of
    [e] (the line printed on that path is not recorded). *)
Definition paint_batch_simple
    (readonly initialized : bool) (now : Z) (pixels : list pixel)
    (st : client) : (api_error + option exn) * client :=
  if readonly then (inl ReadOnlyConnection, st)
  else if negb initialized then (inl NotInitialized, st)
  else if negb (ws_connected st) then (inl WebSocketNotConnected, st)
  else
    match check_coordinates pixels with
    | Some e => (inl e, st)
    | None =>
        match create_batch_paint_data pixels st with
        | (Ok batch_data, st) =>
            let st := append_data batch_data st in
            (inr None, set_last_batch_time now st)
        | (Raise error, st) => (inr (Some error), st)
        end
    end.

(** [paint_batch] up to the [await]: the checks, and the operation put
    at the end of the queue; [future] names the future its callback
    resolves. *)
Definition paint_batch
    (readonly initialized : bool) (future : nat) (pixels : list pixel)
    (st : client) : option api_error * client :=
  if readonly then (Some ReadOnlyConnection, st)
  else if negb initialized then (Some NotInitialized, st)
  else
    match check_coordinates pixels with
    | Some e => (Some e, st)
    | None =>
        (None,
         set_batch_queue
           (batch_queue st ++ [BatchOperation pixels (Some future)]) st)
    end.

(** One round of [process_batches]: [now] is the time at which the
    cooldown is tested, [later] the time at which the batch is stamped. *)
Definition process_batches_step (now later : Z) (st : client) : client :=
  match batch_queue st with
  | operation :: rest =>
      if negb (is_batch_cooling_down now st) && sock_connected st
      then execute_batch_paint_operation later operation (set_batch_queue rest st)
      else st
  | [] => st
  end.

(** [cancel_image_draw]. *)
Definition cancel_image_draw (st : client) : client :=
  set_batch_queue [] (set_is_drawing_image false st).

(** The number a list of bytes stands for, low byte first. *)
Fixpoint le_value (bytes : list Z) : Z :=
  match bytes with
  | [] => 0
  | b :: rest => b + 256 * le_value rest
  end.

(** What the inbound decoder leaves alone: the pool and its cursor, the
    paint-id counter, the buffer and the queue are as before, pending
    entries can only have gone, and all that went to the transport are
    heartbeat replies. *)
Definition decoder_keeps (st st' : client) : Prop :=
  tokens st' = tokens st
  /\ current_token_index st' = current_token_index st
  /\ actual_batch_size st' = actual_batch_size st
  /\ paint_id st' = paint_id st
  /\ chunks st' = chunks st
  /\ total_size st' = total_size st
  /\ batch_queue st' = batch_queue st
  /\ packet_count st' = packet_count st
  /\ paint_callbacks st' ⊆ paint_callbacks st
  /\ exists replies,
       frames_sent st' = frames_sent st ++ replies
       /\ Forall (fun frame => frame = [251]) replies.

(** What building packets leaves alone.  [get_next_token],
    [create_single_paint_data] and [create_batch_paint_data] write the
    cursor, the paint-id counter and the pending map, and print; the
    rest of the client is as before, and nothing is sent or called. *)
Definition encoder_keeps (st st' : client) : Prop :=
  tokens st' = tokens st
  /\ batch_size st' = batch_size st
  /\ cool_down_time st' = cool_down_time st
  /\ actual_batch_size st' = actual_batch_size st
  /\ last_batch_time st' = last_batch_time st
  /\ batch_queue st' = batch_queue st
  /\ packet_count st' = packet_count st
  /\ last_reset_time st' = last_reset_time st
  /\ chunks st' = chunks st
  /\ total_size st' = total_size st
  /\ is_drawing_image st' = is_drawing_image st
  /\ ws st' = ws st
  /\ ws_connected st' = ws_connected st
  /\ running st' = running st
  /\ exists lines, trace st' = trace st ++ map Logged lines.

(** The futures that were resolved, in order, with the [success] each
    one was given. *)
Definition futures_resolved (st : client) : list (nat * bool) :=
  omap (fun e => match e with Resolved f ok => Some (f, ok) | _ => None end)
       (trace st).

(** What the callback of an operation contributes to the resolved
    futures: operations of [paint_batch] carry one, those queued without
    a callback carry none. *)
Definition resolution (future : option nat) (ok : bool) : list (nat * bool) :=
  match future with
  | Some f => [(f, ok)]
  | None => []
  end.

(** ** The drawing script ([main.py]) *)

(** The image once [draw_simple_batch] or [draw_optimized_batch] has
    loaded, converted and resized it: [image.size] and
    [list(image.getdata())], the pixels row by row. *)
Record image := Image {
  img_width : Z;
  img_height : Z;
  img_data : list (Z * Z * Z)
}.

(** [range(n)]: empty for [n <= 0]. *)
Definition range (n : Z) : list Z := seqZ 0 n.

(** [range(0, total, step)] for a positive [step]. *)
Definition range_step (total step : Z) : list Z :=
  (fun k => k * step) <$> seqZ 0 ((total + step - 1) / step).

(** [draw_width] and [draw_height]. *)
Definition draw_area (start_x start_y : Z) (img : image) : Z * Z :=
  if (start_x + img_width img >? 1000) || (start_y + img_height img >? 600)
  then (Z.min (img_width img) (1000 - start_x),
        Z.min (img_height img) (600 - start_y))
  else (img_width img, img_height img).

(** The body of the two loops that build [pixel_list], for one [y] and
    one [x]: the entries it appends, or [None] for the [IndexError] of
    [pixels[index]]. *)
Definition pixel_entry (start_x start_y : Z) (img : image) (y x : Z)
    : option (list pixel) :=
  let index := y * img_width img + x in
  if index <? len (img_data img) then
    match getitem (img_data img) index with
    | None => None
    | Some (r, g, b) =>
        let board_x := start_x + x in
        let board_y := start_y + y in
        if (0 <=? board_x) && (board_x <? 1000)
           && ((0 <=? board_y) && (board_y <? 600))
        then Some [Pixel.Make board_x board_y r g b None]
        else Some []
    end
  else Some [].

(** [pixel_list] as the two loops leave it. *)
Definition build_pixel_list (start_x start_y : Z) (img : image)
    : option (list pixel) :=
  let '(draw_width, draw_height) := draw_area start_x start_y img in
  rows ← mapM (fun y =>
            row ← mapM (pixel_entry start_x start_y img y) (range draw_width);
            Some (concat row))
          (range draw_height);
  Some (concat rows).

(** The loop [for i in range(0, total, batch_size)] of the two drawing
    functions, over the values of [i] still to come.  [clock] is the
    time in ms, which here advances by the sleeps only; [wait] is the
    sleep between two batches.  An exception of [paint_batch_simple] is
    caught and the loop goes on with the next batch. *)
Fixpoint send_batches
    (readonly initialized : bool) (wait : Z) (pixel_list : list pixel)
    (batch_size : Z) (starts : list Z) (clock completed : Z) (st : client)
    : Z * Z * client :=
  match starts with
  | [] => (clock, completed, st)
  | i :: rest =>
      let batch := slice pixel_list i (i + batch_size) in
      match paint_batch_simple readonly initialized clock batch st with
      | (inr _, st) =>
          let completed := completed + len batch in
          let clock :=
            if i + batch_size <? len pixel_list then clock + wait else clock in
          send_batches readonly initialized wait pixel_list batch_size rest
            clock completed st
      | (inl _, st) =>
          send_batches readonly initialized wait pixel_list batch_size rest
            clock completed st
      end
  end.

(** The part of a drawing function after [pixel_list] is built: the
    batch size, the estimate (whose division raises [ZeroDivisionError]
    when the batch size is 0: [None], the function then returns
    [False]), and the loop.  The result is the final clock, [completed]
    and the client. *)
Definition draw_pixel_list
    (readonly initialized : bool) (wait : Z) (pixel_list : list pixel)
    (clock : Z) (st : client) : option (Z * Z * client) :=
  let token_count := len (tokens st) in
  let total := len pixel_list in
  let batch_size := Z.min token_count total in
  if batch_size =? 0 then None
  else
    Some (send_batches readonly initialized wait pixel_list batch_size
            (range_step total batch_size) clock 0 st).

(** What the two loops put into [pixel_list]: a pixel on the board,
    without a callback, carrying the colour of the image pixel it was
    read from. *)
Definition from_image (start_x start_y : Z) (img : image) (p : pixel) : Prop :=
  is_coordinate_valid (Pixel.x p) (Pixel.y p) = true
  /\ Pixel.callback_of p = None
  /\ exists x y,
       Pixel.x p = start_x + x /\ Pixel.y p = start_y + y
       /\ getitem (img_data img) (y * img_width img + x)
          = Some (Pixel.r p, Pixel.g p, Pixel.b p).

(** ** The configuration check ([config.py]) *)

(** A value of the ["uid"] key: an [int] or something else. *)
Inductive uid_value := UidInt (n : Z) | UidOther.

(** One dict of [ACCESS_KEYS]: each key may be missing. *)
Record access_key := AccessKey {
  ak_uid : option uid_value;
  ak_access_key : option string
}.

Record config := Config {
  cfg_access_keys : list access_key;
  cfg_path : string;          (* IMAGE_CONFIG["PATH"] *)
  cfg_start_x : Z;            (* IMAGE_CONFIG["START_X"] *)
  cfg_start_y : Z;            (* IMAGE_CONFIG["START_Y"] *)
  cfg_readonly : bool;
  cfg_writeonly : bool
}.

Inductive config_error :=
  | ErrNoAccessKeys            (* '未配置 ACCESS_KEYS' *)
  | ErrIncompleteKey (i : Z)   (* '第 i 个 access key 配置不完整' *)
  | ErrUidNotNumber (i : Z)    (* '第 i 个 UID 必须是数字' *)
  | ErrNoPath                  (* '未配置图片路径' *)
  | ErrStartX                  (* 'START_X 必须在 0-999 范围内' *)
  | ErrStartY                  (* 'START_Y 必须在 0-599 范围内' *)
  | ErrBothModes.              (* 'READONLY 和 WRITEONLY 不能同时为 True' *)

(** The loop over [enumerate(ACCESS_KEYS)], from index [i] on: the
    errors it appends, or [None] for the [KeyError] of [key["uid"]] on
    a dict without that key. *)
Fixpoint check_access_keys (i : Z) (keys : list access_key)
    : option (list config_error) :=
  match keys with
  | [] => Some []
  | key :: rest =>
      let incomplete :=
        match ak_uid key, ak_access_key key with
        | Some _, Some _ => []
        | _, _ => [ErrIncompleteKey (i + 1)]
        end in
      match ak_uid key with
      | None => None
      | Some uid =>
          let not_number :=
            match uid with
            | UidInt _ => []
            | UidOther => [ErrUidNotNumber (i + 1)]
            end in
          later ← check_access_keys (i + 1) rest;
          Some (incomplete ++ not_number ++ later)
      end
  end.

(** [validate_config]: the list of errors, or [None] for the
    [KeyError]. *)
Definition validate_config (cfg : config) : option (list config_error) :=
  key_errors ←
    match cfg_access_keys cfg with
    | [] => Some [ErrNoAccessKeys]
    | keys => check_access_keys 0 keys
    end;
  Some (key_errors
        ++ (if bool_decide (cfg_path cfg = EmptyString) then [ErrNoPath] else [])
        ++ (if (cfg_start_x cfg <? 0) || (cfg_start_x cfg >=? 1000)
            then [ErrStartX] else [])
        ++ (if (cfg_start_y cfg <? 0) || (cfg_start_y cfg >=? 600)
            then [ErrStartY] else [])
        ++ (if cfg_readonly cfg && cfg_writeonly cfg then [ErrBothModes] else [])).

(** The transport changing under the client: [self.ws] becomes [v]
    (a connection is made, or its socket changes state). *)
Definition set_ws (v : option ws_app) (st : client) : client :=
  {| tokens := tokens st; current_token_index := current_token_index st;
     batch_size := batch_size st; cool_down_time := cool_down_time st;
     actual_batch_size := actual_batch_size st;
     last_batch_time := last_batch_time st; batch_queue := batch_queue st;
     packet_count := packet_count st; last_reset_time := last_reset_time st;
     chunks := chunks st; total_size := total_size st;
     paint_id := paint_id st; paint_callbacks := paint_callbacks st;
     is_drawing_image := is_drawing_image st; ws := v;
     ws_connected := ws_connected st; running := running st;
     on_paint_update := on_paint_update st; trace := trace st |}.

(** The batch-processor thread over a list of rounds, each given by the
    time of its cooldown test and the time at which a batch it
    dispatches is stamped: [while self.running] is tested before each
    round, and the thread ends when it is found false. *)
Fixpoint process_batches_run (rounds : list (Z * Z)) (st : client) : client :=
  match rounds with
  | [] => st
  | (now, later) :: rest =>
      if running st
      then process_batches_run rest (process_batches_step now later st)
      else st
  end.

(** ** Sample states *)

Module Sample.

Definition tok_a : token_info :=
  TokenInfo 1048914 "8f14e45f-ceea-467f-a0e6-1b2c3d4e5f60".
Definition tok_b : token_info :=
  TokenInfo 1683526 "00112233-4455-6677-8899-aabbccddeeff".

(** A connected client holding the two tokens, as [initialize] leaves
    it with the configuration of [config.py]. *)
Definition ready : client :=
  {| tokens := [tok_a; tok_b]; current_token_index := 0;
     batch_size := 10; cool_down_time := 1145;
     actual_batch_size := 2; last_batch_time := 0; batch_queue := [];
     packet_count := 0; last_reset_time := 0;
     chunks := []; total_size := 0; paint_id := 0; paint_callbacks := ∅;
     is_drawing_image := false; ws := Some (WsApp (Some true) false);
     ws_connected := true; running := true;
     on_paint_update := Some (Observer None);
     trace := [] |}.

Definition red_pixel : pixel := Pixel.Make 999 599 255 0 0 None.

Definition on_result : callback := Pixel.Callback 1 false.

(** [ready] after one pixel with a callback went through
    [create_single_paint_data]: paint id 0 is pending. *)
Definition pending : client :=
  snd (create_single_paint_data
         (Pixel.Make 10 20 1 2 3 (Some on_result)) tok_a ready).

(** An encoded packet, 31 bytes (the one [create_single_paint_data]
    builds for [red_pixel] and [tok_a] at paint id 0). *)
Definition packet : list Z :=
  [254; 231; 3; 87; 2; 255; 0; 0; 82; 1; 16;
   143; 20; 228; 95; 206; 234; 70; 127; 160; 230; 27; 44; 61; 78; 95; 96;
   0; 0; 0; 0].

(** [ready] with one packet buffered and 256 frames already counted in
    the current rate window. *)
Definition saturated : client :=
  set_packet_count 256 (append_data packet ready).

(** [ready] with more than 32 KiB buffered. *)
Definition overfull : client :=
  set_total_size 32769 (set_chunks [replicate (Z.to_nat 32769) 0] ready).

(** [ready] with an observer that raises. *)
Definition watched : client :=
  {| tokens := [tok_a; tok_b]; current_token_index := 0;
     batch_size := 10; cool_down_time := 1145;
     actual_batch_size := 2; last_batch_time := 0; batch_queue := [];
     packet_count := 0; last_reset_time := 0;
     chunks := []; total_size := 0; paint_id := 0; paint_callbacks := ∅;
     is_drawing_image := false; ws := Some (WsApp (Some true) false);
     ws_connected := true; running := true;
     on_paint_update := Some (Observer (Some (CallerError 0)));
     trace := [] |}.

End Sample.

(** * Properties *)

(** ** Bookkeeping lemmas *)

Lemma getitem_nat {A} (l : list A) (i : nat) : getitem l (Z.of_nat i) = l !! i.
Proof.
  unfold getitem.
  destruct (Z.leb_spec 0 (Z.of_nat i)); [ | lia ].
  by rewrite Nat2Z.id.
Qed.

Lemma getitem_nonneg {A} (l : list A) (i : Z) :
  0 <= i -> getitem l i = l !! Z.to_nat i.
Proof.
  intros Hi. unfold getitem. destruct (Z.leb_spec 0 i); [ done | lia ].
Qed.

Lemma set_current_token_index_same st :
  set_current_token_index (current_token_index st) st = st.
Proof. by destruct st. Qed.

Lemma set_current_token_index_twice a b st :
  set_current_token_index a (set_current_token_index b st)
  = set_current_token_index a st.
Proof. reflexivity. Qed.

(** ** Token pool *)

Section TokenPool.

Implicit Types (st : client) (c m k : nat).

Lemma get_next_token_empty st :
  tokens st = [] -> get_next_token st = (Raise (Exception NoTokensAvailable), st).
Proof. intros H. unfold get_next_token. by rewrite H. Qed.

(** One call at a cursor inside the pool. *)
Lemma get_next_token_at st c t :
  current_token_index st = Z.of_nat c ->
  tokens st !! c = Some t ->
  get_next_token st
  = (Ok t, set_current_token_index ((Z.of_nat c + 1) mod len (tokens st)) st).
Proof.
  intros Hc Ht. unfold get_next_token.
  rewrite Hc, getitem_nat, Ht.
  destruct (tokens st) eqn:E; [ by rewrite lookup_nil in Ht | done ].
Qed.

(** Calls that stay within one lap return the pool from the cursor on. *)
Lemma get_next_token_n_lap m : forall st c,
  current_token_index st = Z.of_nat c ->
  (c + S m <= length (tokens st))%nat ->
  get_next_token_n (S m) st
  = (Ok (take (S m) (drop c (tokens st))),
     set_current_token_index (Z.of_nat (c + S m) mod len (tokens st)) st).
Proof.
  induction m as [ | m IH ]; intros st c Hc Hlen.
  - destruct (lookup_lt_is_Some_2 (tokens st) c) as [t Ht]; [ lia | ].
    cbn [get_next_token_n]. unfold bind.
    rewrite (get_next_token_at st c t Hc Ht). cbn.
    rewrite (drop_S _ _ _ Ht). cbn. rewrite take_0.
    do 3 f_equal. lia.
  - destruct (lookup_lt_is_Some_2 (tokens st) c) as [t Ht]; [ lia | ].
    change (get_next_token_n (S (S m)) st)
      with (bind get_next_token
              (fun t => bind (get_next_token_n (S m)) (fun ts => ret (t :: ts))) st).
    unfold bind at 1. rewrite (get_next_token_at st c t Hc Ht).
    set (st1 := set_current_token_index _ st).
    assert (Hmod : (Z.of_nat c + 1) mod len (tokens st) = Z.of_nat (S c)).
    { unfold len. rewrite Z.mod_small; lia. }
    unfold bind at 1.
    rewrite (IH st1 (S c)); [ | subst st1; cbn; exact Hmod | subst st1; cbn; lia ].
    cbn [ret]. subst st1. cbn [tokens set_current_token_index].
    rewrite (drop_S _ _ _ Ht).
    rewrite set_current_token_index_twice.
    change (take (S (S m)) (t :: drop (S c) (tokens st)))
      with (t :: take (S m) (drop (S c) (tokens st))).
    do 4 f_equal. lia.
Qed.

(** A full lap from cursor 0 returns the pool and comes back to 0. *)
Lemma get_next_token_n_full_lap st :
  tokens st <> [] -> current_token_index st = 0 ->
  get_next_token_n (length (tokens st)) st = (Ok (tokens st), st).
Proof.
  intros Hne Hc.
  destruct (length (tokens st)) as [ | m ] eqn:E.
  { destruct (tokens st); [ done | discriminate ]. }
  rewrite (get_next_token_n_lap m st 0%nat); [ | by rewrite Hc | lia ].
  rewrite drop_0, <- E, firstn_all. unfold len.
  cbn [Nat.add]. rewrite Z.mod_same by lia.
  rewrite <- Hc at 1. by rewrite set_current_token_index_same.
Qed.

Lemma get_next_token_n_add a b st :
  get_next_token_n (a + b) st
  = match get_next_token_n a st with
    | (Ok l1, st1) =>
        match get_next_token_n b st1 with
        | (Ok l2, st2) => (Ok (l1 ++ l2), st2)
        | (Raise e, st2) => (Raise e, st2)
        end
    | (Raise e, st1) => (Raise e, st1)
    end.
Proof.
  revert st. induction a as [ | a IH ]; intros st.
  - cbn. by destruct (get_next_token_n b st) as [[? | ?] ?].
  - cbn [Nat.add get_next_token_n]. unfold bind at 1 3.
    destruct (get_next_token st) as [[t | e] st1]; [ | done ].
    unfold bind at 1 2. rewrite IH.
    destruct (get_next_token_n a st1) as [[l1 | e] st2]; [ | done ].
    cbn [ret].
    by destruct (get_next_token_n b st2) as [[l2 | e] st3].
Qed.

(** [k] laps return the pool [k] times over. *)
Lemma get_next_token_n_laps k st :
  tokens st <> [] -> current_token_index st = 0 ->
  get_next_token_n (k * length (tokens st)) st
  = (Ok (mjoin (replicate k (tokens st))), st).
Proof.
  intros Hne Hc. induction k as [ | k IH ]; [ done | ].
  cbn [Nat.mul]. rewrite get_next_token_n_add.
  rewrite get_next_token_n_full_lap by done.
  by rewrite IH.
Qed.

Lemma count_occ_laps k (pool : list token_info) t :
  count_occ token_info_eq_dec (mjoin (replicate k pool)) t
  = (k * count_occ token_info_eq_dec pool t)%nat.
Proof.
  induction k as [ | k IH ]; [ done | ].
  change (mjoin (replicate (S k) pool)) with (pool ++ mjoin (replicate k pool)).
  rewrite count_occ_app, IH. lia.
Qed.

End TokenPool.

(** C9. With a non-empty pool of [n] tokens and the cursor at 0,
    [k * n] consecutive calls of [get_next_token] succeed and return the
    pool [k] times over, in pool order, so that every token is returned
    exactly [k] times for each place it has in the pool, and the cursor
    is back at 0; each single call at a cursor [c] inside the pool
    returns the token at [c] and moves the cursor to [(c + 1) mod n].
    On an empty pool the call raises the no-token exception. *)
Theorem get_next_token_round_robin (st : client) (k : nat) :
  (tokens st = [] ->
   get_next_token st = (Raise (Exception NoTokensAvailable), st)) /\
  (tokens st <> [] ->
   (current_token_index st = 0 ->
    get_next_token_n (k * length (tokens st)) st
    = (Ok (mjoin (replicate k (tokens st))), st)) /\
   (forall t,
      count_occ token_info_eq_dec (mjoin (replicate k (tokens st))) t
      = (k * count_occ token_info_eq_dec (tokens st) t)%nat) /\
   (forall c t,
      current_token_index st = Z.of_nat c -> tokens st !! c = Some t ->
      get_next_token st
      = (Ok t, set_current_token_index
                 ((Z.of_nat c + 1) mod len (tokens st)) st))).
Proof.
  split; [ apply get_next_token_empty | ].
  intros Hne. repeat split.
  - intros Hc. by apply get_next_token_n_laps.
  - intros t. apply count_occ_laps.
  - intros c t. apply get_next_token_at.
Qed.

Lemma get_next_token_round_robin_witness :
  get_next_token_n 6 Sample.ready
  = (Ok [Sample.tok_a; Sample.tok_b; Sample.tok_a; Sample.tok_b;
         Sample.tok_a; Sample.tok_b], Sample.ready)
  /\ get_next_token (init 10 1145 0)
     = (Raise (Exception NoTokensAvailable), init 10 1145 0).
Proof.
  split.
  - assert (Hne : tokens Sample.ready <> []) by discriminate.
    exact (proj1 (proj2 (get_next_token_round_robin Sample.ready 3) Hne) eq_refl).
  - exact (proj1 (get_next_token_round_robin (init 10 1145 0) 0) eq_refl).
Defined.

(** ** Packet codec, outbound *)

Section Encode.

Lemma struct_pack_H_in_range v :
  0 <= v < 65536 -> struct_pack_H v = Some [v mod 256; v / 256].
Proof.
  intros H. unfold struct_pack_H.
  destruct (Z.leb_spec 0 v), (Z.ltb_spec v 65536); (done || lia).
Qed.

Lemma struct_pack_I_in_range v :
  0 <= v < 4294967296 ->
  struct_pack_I v
  = Some [v mod 256; (v / 256) mod 256; (v / 65536) mod 256; v / 16777216].
Proof.
  intros H. unfold struct_pack_I.
  destruct (Z.leb_spec 0 v), (Z.ltb_spec v 4294967296); (done || lia).
Qed.

Lemma struct_unpack_pack_H v bs :
  struct_pack_H v = Some bs -> struct_unpack_H bs = Some v.
Proof.
  unfold struct_pack_H. case_match; [ | done ].
  intros [= <-]. unfold struct_unpack_H. f_equal.
  Z.div_mod_to_equations. lia.
Qed.

Lemma struct_unpack_pack_I v bs :
  struct_pack_I v = Some bs -> struct_unpack_I bs = Some v.
Proof.
  unfold struct_pack_I. case_match; [ | done ].
  intros [= <-]. unfold struct_unpack_I. f_equal.
  Z.div_mod_to_equations. lia.
Qed.

Lemma byte_values_in_range r g b :
  0 <= r < 256 -> 0 <= g < 256 -> 0 <= b < 256 ->
  byte_values [r; g; b] = Some [r; g; b].
Proof.
  intros Hr Hg Hb. unfold byte_values. cbn [forallb].
  destruct (Z.leb_spec 0 r), (Z.ltb_spec r 256),
           (Z.leb_spec 0 g), (Z.ltb_spec g 256),
           (Z.leb_spec 0 b), (Z.ltb_spec b 256); (done || lia).
Qed.

(** A list of sixteen elements, spelled out. *)
Lemma length_16_inv {A} (l : list A) :
  length l = 16%nat ->
  exists a0 a1 a2 a3 a4 a5 a6 a7 a8 a9 a10 a11 a12 a13 a14 a15,
    l = [a0; a1; a2; a3; a4; a5; a6; a7; a8; a9; a10; a11; a12; a13; a14; a15].
Proof.
  intros H.
  do 16 (destruct l as [ | ? l ]; [ discriminate | ]).
  destruct l; [ | discriminate ].
  by repeat eexists.
Qed.

(** The fields of a 31-byte packet, read at their places. *)
Lemma layout_decode_fields
    x0 x1 y0 y1 r g b u0 u1 u2
    a0 a1 a2 a3 a4 a5 a6 a7 a8 a9 a10 a11 a12 a13 a14 a15 i0 i1 i2 i3 :
  layout_decode
    ([254; x0; x1; y0; y1; r; g; b; u0; u1; u2]
     ++ [a0; a1; a2; a3; a4; a5; a6; a7; a8; a9; a10; a11; a12; a13; a14; a15]
     ++ [i0; i1; i2; i3])
  = Some (Decoded (x0 + 256 * x1) (y0 + 256 * y1) r g b
            (u0 + 256 * u1 + 65536 * u2 + 16777216 * 0)
            [a0; a1; a2; a3; a4; a5; a6; a7; a8; a9; a10; a11; a12; a13; a14; a15]
            (i0 + 256 * i1 + 65536 * i2 + 16777216 * i3)).
Proof. reflexivity. Qed.

End Encode.

(** C1. For a pixel with [x] in [0,1000), [y] in [0,600), [r], [g], [b]
    in [0,256) and a token whose text converts to sixteen bytes (the
    account id being a 32-bit value and the paint-id counter in its
    range), [create_single_paint_data] returns a packet of 31 bytes:
    [0xFE], [x] and [y] as two little-endian bytes each, [r], [g], [b],
    the low three bytes of the account id, the sixteen token bytes and
    the paint id as four little-endian bytes; reading the fields back at
    their places in that layout gives the same [x], [y], [r], [g], [b]
    and the same sixteen token bytes. *)
Theorem create_single_paint_data_layout
    (st : client) (p : pixel) (tk : token_info) (token_bytes : list Z) :
  0 <= Pixel.x p < 1000 -> 0 <= Pixel.y p < 600 ->
  0 <= Pixel.r p < 256 -> 0 <= Pixel.g p < 256 -> 0 <= Pixel.b p < 256 ->
  bytes_fromhex (remove_dashes (token tk)) = Some token_bytes ->
  length token_bytes = 16%nat ->
  0 <= uid tk < 4294967296 ->
  0 <= paint_id st < 4294967296 ->
  let id := paint_id st in
  let packet :=
    [254; Pixel.x p mod 256; Pixel.x p / 256;
          Pixel.y p mod 256; Pixel.y p / 256;
          Pixel.r p; Pixel.g p; Pixel.b p;
          uid tk mod 256; (uid tk / 256) mod 256; (uid tk / 65536) mod 256]
    ++ token_bytes
    ++ [id mod 256; (id / 256) mod 256; (id / 65536) mod 256; id / 16777216] in
  create_single_paint_data p tk st
  = (Ok (Some packet),
     set_paint_callbacks (<[id := Pixel.callback_of p]> (paint_callbacks st))
       (set_paint_id ((id + 1) mod 4294967296) st))
  /\ length packet = 31%nat
  /\ layout_decode packet
     = Some (Decoded (Pixel.x p) (Pixel.y p) (Pixel.r p) (Pixel.g p) (Pixel.b p)
               (uid tk mod 16777216) token_bytes id)
  /\ length (slice packet 11 27) = 16%nat.
Proof.
  intros Hx Hy Hr Hg Hb Hhex Hlen Huid Hid id packet.
  assert (Hpl : length packet = 31%nat).
  { subst packet. rewrite !length_app, Hlen. reflexivity. }
  assert (Hrun : create_single_paint_data p tk st
    = (Ok (Some packet),
       set_paint_callbacks (<[id := Pixel.callback_of p]> (paint_callbacks st))
         (set_paint_id ((id + 1) mod 4294967296) st))).
  { unfold create_single_paint_data, bind, read, update, or_raise, ret.
    rewrite Hhex. unfold len at 1. rewrite Hlen. cbn [Z.of_nat Z.eqb negb Pos.of_succ_nat].
    change (Z.of_nat 16 =? 16) with true. cbn [negb].
    rewrite (struct_pack_H_in_range (Pixel.x p)) by lia.
    rewrite (struct_pack_H_in_range (Pixel.y p)) by lia.
    rewrite byte_values_in_range by done.
    rewrite (struct_pack_I_in_range (uid tk)) by done.
    rewrite (struct_pack_I_in_range (paint_id st)) by done.
    change (slice [uid tk mod 256; (uid tk / 256) mod 256;
                   (uid tk / 65536) mod 256; uid tk / 16777216] 0 3)
      with [uid tk mod 256; (uid tk / 256) mod 256; (uid tk / 65536) mod 256].
    fold id.
    match goal with
    | |- context [ len ?l =? 31 ] =>
        assert (Hl : (len l =? 31) = true);
        [ apply Z.eqb_eq; unfold len; rewrite !length_app, Hlen; reflexivity
        | rewrite Hl ]
    end.
    reflexivity. }
  split; [ exact Hrun | ]. split; [ exact Hpl | ].
  clear Hrun.
  destruct (length_16_inv token_bytes Hlen)
    as (a0 & a1 & a2 & a3 & a4 & a5 & a6 & a7 & a8 & a9 & a10 & a11 & a12
        & a13 & a14 & a15 & ->).
  subst packet.
  split; [ | reflexivity ].
  rewrite layout_decode_fields.
  do 2 f_equal; Z.div_mod_to_equations; lia.
Qed.

Lemma create_single_paint_data_layout_witness :
  let token_bytes :=
    [143; 20; 228; 95; 206; 234; 70; 127; 160; 230; 27; 44; 61; 78; 95; 96] in
  let packet :=
    [254; 231; 3; 87; 2; 255; 0; 0; 82; 1; 16] ++ token_bytes ++ [0; 0; 0; 0] in
  fst (create_single_paint_data Sample.red_pixel Sample.tok_a Sample.ready)
  = Ok (Some packet)
  /\ layout_decode packet
     = Some (Decoded 999 599 255 0 0 1048914 token_bytes 0).
Proof.
  intros token_bytes packet.
  assert (Hrange : forall lo v hi, (lo <=? v) && (v <? hi) = true -> lo <= v < hi)
    by (intros lo v hi H; apply andb_prop in H; lia).
  destruct (create_single_paint_data_layout
              Sample.ready Sample.red_pixel Sample.tok_a token_bytes
              (Hrange 0 999 1000 eq_refl) (Hrange 0 599 600 eq_refl)
              (Hrange 0 255 256 eq_refl) (Hrange 0 0 256 eq_refl)
              (Hrange 0 0 256 eq_refl) eq_refl eq_refl
              (Hrange 0 1048914 4294967296 eq_refl)
              (Hrange 0 0 4294967296 eq_refl))
    as (Hrun & _ & Hdecode & _).
  split.
  - rewrite Hrun. reflexivity.
  - exact Hdecode.
Defined.

(** ** Batch capacity *)

Section Capacity.

Implicit Types (st : client) (pixels : list pixel).

(** [initialize] and a successful [refresh_tokens] leave the batch
    limit at or below the size of the pool. *)
Lemma refresh_tokens_limit results st st' :
  refresh_tokens results st = (Fetched, st') ->
  actual_batch_size st' = Z.min (len (tokens st')) (batch_size st')
  /\ actual_batch_size st' <= len (tokens st').
Proof.
  unfold refresh_tokens, fetch_tokens_from_access_keys.
  destruct results as [ | r results ]; [ discriminate | ].
  generalize (omap id (r :: results)). intros pool.
  change (tokens (set_tokens pool st)) with pool.
  destruct pool as [ | t pool ]; [ discriminate | ].
  intros [= <-].
  change (actual_batch_size (set_actual_batch_size ?v _)) with v.
  cbv beta.
  change (tokens (set_actual_batch_size _ (set_tokens (t :: pool) st)))
    with (t :: pool).
  change (batch_size (set_actual_batch_size _ (set_tokens (t :: pool) st)))
    with (batch_size st).
  change (tokens (set_tokens (t :: pool) st)) with (t :: pool).
  change (batch_size (set_tokens (t :: pool) st)) with (batch_size st).
  split; [ reflexivity | lia ].
Qed.

(** Every outcome of [refresh_tokens] keeps [pool_limit_ok]. *)
Lemma refresh_tokens_pool_limit results st :
  pool_limit_ok st -> pool_limit_ok (snd (refresh_tokens results st)).
Proof.
  intros Hok.
  destruct (refresh_tokens results st) as [outcome st'] eqn:E.
  destruct outcome.
  - left. by apply (refresh_tokens_limit results st st').
  - unfold refresh_tokens, fetch_tokens_from_access_keys in E.
    destruct results as [ | r results ]; [ by injection E as <- | ].
    revert E. generalize (omap id (r :: results)). intros pool.
    change (tokens (set_tokens pool st)) with pool.
    destruct pool; discriminate.
  - unfold refresh_tokens, fetch_tokens_from_access_keys in E.
    destruct results as [ | r results ]; [ discriminate | ].
    revert E. generalize (omap id (r :: results)). intros pool.
    change (tokens (set_tokens pool st)) with pool.
    destruct pool; [ | discriminate ].
    intros [= <-]. by right.
Qed.

Lemma init_limit cfg_batch_size cfg_cool_down_time now :
  actual_batch_size (init cfg_batch_size cfg_cool_down_time now)
  <= len (tokens (init cfg_batch_size cfg_cool_down_time now)).
Proof. reflexivity. Qed.

(** The size test comes first: nothing has run when it raises. *)
Lemma create_batch_paint_data_over_limit pixels st :
  actual_batch_size st < len pixels ->
  create_batch_paint_data pixels st
  = (Raise (Exception (BatchTooLarge (len pixels) (actual_batch_size st))), st).
Proof.
  intros H. unfold create_batch_paint_data, bind, read, raise.
  destruct (Z.gtb_spec (len pixels) (actual_batch_size st)); [ done | lia ].
Qed.


End Capacity.




(** ** Result correlation *)

Section Correlation.

Implicit Types (st : client) (now paint_id code : Z).

Lemma calls_made_emit_called cb s st :
  calls_made (emit (Called cb s) st) = calls_made st ++ [(cb, s)].
Proof. unfold calls_made, emit. cbn. by rewrite omap_app. Qed.

Lemma calls_made_log l st : calls_made (log l st) = calls_made st.
Proof. unfold calls_made, log, emit. cbn. by rewrite omap_app, app_nil_r. Qed.

Lemma calls_made_call_guarded cb s st :
  calls_made (call_guarded cb s st) = calls_made st ++ [(cb, s)].
Proof.
  unfold call_guarded. destruct (Pixel.cb_raises cb).
  - by rewrite calls_made_log, calls_made_emit_called.
  - apply calls_made_emit_called.
Qed.

(** A result for a registered paint id: the entry is removed, its
    callback (if it has one) is called once with the mapped status, and
    [last_batch_time] becomes [now] exactly for the code [0xEF]. *)
Lemma handle_paint_result_registered now paint_id code st entry :
  paint_callbacks st !! paint_id = Some entry ->
  exists st',
    handle_paint_result now paint_id code st = (Ok tt, st')
    /\ paint_callbacks st' = delete paint_id (paint_callbacks st)
    /\ calls_made st' = calls_made st ++ delivery entry code
    /\ last_batch_time st'
       = (if code =? 239 then now else last_batch_time st).
Proof.
  intros Hreg.
  unfold handle_paint_result, bind, update, read, ret. rewrite Hreg.
  destruct entry as [ cb | ]; cbn [delivery].
  - assert (Hkeep : paint_callbacks (call_guarded cb (get_status_message code) st)
                    = paint_callbacks st)
      by (unfold call_guarded; by destruct (Pixel.cb_raises cb)).
    assert (Hlbt : last_batch_time (call_guarded cb (get_status_message code) st)
                   = last_batch_time st)
      by (unfold call_guarded; by destruct (Pixel.cb_raises cb)).
    rewrite Hkeep, Hreg.
    destruct (code =? 239); eexists; (split; [ reflexivity | ]);
      cbn [paint_callbacks set_paint_callbacks set_last_batch_time last_batch_time];
      rewrite Hkeep, ?Hlbt; (split; [ reflexivity | ]);
      (split; [ | reflexivity ]);
      unfold calls_made; cbn [trace set_paint_callbacks set_last_batch_time];
      apply calls_made_call_guarded.
  - rewrite Hreg.
    destruct (code =? 239); eexists; (split; [ reflexivity | ]);
      (split; [ reflexivity | ]); (split; [ | reflexivity ]);
      by rewrite app_nil_r.
Qed.

(** A result for a paint id that is not registered: the [del] raises
    [KeyError]; nothing was changed before it. *)
Lemma handle_paint_result_unregistered now paint_id code st :
  paint_callbacks st !! paint_id = None ->
  handle_paint_result now paint_id code st = (Raise (KeyError paint_id), st).
Proof.
  intros Hreg. unfold handle_paint_result, bind, update, read, raise.
  rewrite Hreg. cbv beta iota. by rewrite Hreg.
Qed.

(** Result handling never moves [last_batch_time] for a code other than
    [0xEF]. *)
Lemma handle_paint_result_other_code now paint_id code st :
  code <> 239 ->
  last_batch_time (snd (handle_paint_result now paint_id code st))
  = last_batch_time st.
Proof.
  intros Hcode.
  destruct (paint_callbacks st !! paint_id) as [ entry | ] eqn:Hreg.
  - destruct (handle_paint_result_registered now paint_id code st entry Hreg)
      as (st' & Hrun & _ & _ & Hlbt).
    rewrite Hrun. cbn [snd]. rewrite Hlbt.
    destruct (Z.eqb_spec code 239); [ done | reflexivity ].
  - by rewrite handle_paint_result_unregistered.
Qed.

End Correlation.

(** C2 (the code departs from the claim).  A paint result whose id is
    not registered is not discarded quietly: the [del] of
    [handle_paint_result] raises [KeyError 7] on the id 7 that nobody
    registered; the exception is caught by [on_websocket_message], which
    logs it and gives up the rest of the frame, here a heartbeat probe
    that stays unanswered.  The map is unchanged. *)
Theorem handle_paint_result_unregistered_key_error :
  handle_paint_result 5000 7 239 Sample.ready
  = (Raise (KeyError 7), Sample.ready)
  /\ on_websocket_message 5000 (Binary [255; 7; 0; 0; 0; 239; 252]) Sample.ready
     = (Failed (KeyError 7), log (LogMessageError (KeyError 7)) Sample.ready)
  /\ frames_sent
       (snd (on_websocket_message 5000 (Binary [255; 7; 0; 0; 0; 239; 252])
               Sample.ready)) = []
  /\ on_websocket_message 5000 (Binary [252]) Sample.ready
     = (WholeFrame, emit (Sent [251]) Sample.ready).
Proof.
  assert (H : handle_paint_result 5000 7 239 Sample.ready
              = (Raise (KeyError 7), Sample.ready))
    by (apply handle_paint_result_unregistered; reflexivity).
  split; [ exact H | ].
  assert (Hframe :
    on_websocket_message 5000 (Binary [255; 7; 0; 0; 0; 239; 252]) Sample.ready
    = (Failed (KeyError 7), log (LogMessageError (KeyError 7)) Sample.ready)).
  { unfold on_websocket_message.
    change (decode_loop _ 5000 [255; 7; 0; 0; 0; 239; 252] 0 Sample.ready)
      with (match
              match handle_paint_result 5000 7 239 Sample.ready with
              | (Raise e, st) => Raised e st
              | (Ok _, st) => Next 6 st
              end
            with
            | Next offset st =>
                decode_loop 6 5000 [255; 7; 0; 0; 0; 239; 252] offset st
            | Break st => Some (Ok Broke, st)
            | Raised e st => Some (Raise e, st)
            end).
    by rewrite H. }
  split; [ exact Hframe | ].
  split; [ by rewrite Hframe | reflexivity ].
Qed.

(** C10 (the code departs from the claim).  A success result (code
    [0xEF]) for an id that is not registered leaves [last_batch_time] as
    it was (0 here, the time of the result being 5000): the [KeyError]
    of the [del] is raised before the assignment is reached.  It is the
    same defect as in C2. *)
Theorem handle_paint_result_success_unregistered_time :
  last_batch_time (snd (handle_paint_result 5000 7 239 Sample.ready)) = 0
  /\ last_batch_time
       (snd (on_websocket_message 5000 (Binary [255; 7; 0; 0; 0; 239])
               Sample.ready)) = 0
  /\ last_batch_time (snd (handle_paint_result 5000 0 239 Sample.pending)) = 5000.
Proof.
  split; [ | split ].
  - by rewrite handle_paint_result_unregistered.
  - unfold on_websocket_message.
    change (decode_loop _ 5000 [255; 7; 0; 0; 0; 239] 0 Sample.ready)
      with (match
              match handle_paint_result 5000 7 239 Sample.ready with
              | (Raise e, st) => Raised e st
              | (Ok _, st) => Next 6 st
              end
            with
            | Next offset st =>
                decode_loop 5 5000 [255; 7; 0; 0; 0; 239] offset st
            | Break st => Some (Ok Broke, st)
            | Raised e st => Some (Raise e, st)
            end).
    by rewrite handle_paint_result_unregistered.
  - destruct (handle_paint_result_registered 5000 0 239 Sample.pending
                (Some Sample.on_result)) as (st' & Hrun & _ & _ & Hlbt);
      [ reflexivity | ].
    rewrite Hrun. exact Hlbt.
Qed.

(** ** Teardown *)

Section Teardown.

Implicit Types (st : client).

Lemma calls_made_emit_other e st :
  (forall cb s, e <> Called cb s) ->
  calls_made (emit e st) = calls_made st.
Proof.
  intros He. unfold calls_made, emit. cbn. rewrite omap_app. cbn.
  destruct e; rewrite ?app_nil_r; try reflexivity.
  by destruct (He cb s).
Qed.

Lemma close_trace st :
  trace (close st)
  = trace st ++ (if ws st is Some _ then [WsClose] else []).
Proof.
  unfold close. cbn [ws set_running set_batch_queue set_is_drawing_image].
  destruct (ws st); cbn; by rewrite ?app_nil_r.
Qed.

End Teardown.

(** C4, as the code has it.  [close] clears the submission queue, stops
    the loops and closes the transport when there is one; it calls no
    callback and leaves the pending-callback map exactly as it was, and
    so does the [on_close] handler that follows.  With [N] requests
    pending, [N] entries are still there afterwards. *)
Theorem close_keeps_pending_callbacks (st : client) (close_status_code : Z) :
  paint_callbacks (close st) = paint_callbacks st
  /\ size (paint_callbacks (close st)) = size (paint_callbacks st)
  /\ calls_made (close st) = calls_made st
  /\ batch_queue (close st) = []
  /\ running (close st) = false
  /\ is_drawing_image (close st) = false
  /\ trace (close st) = trace st ++ (if ws st is Some _ then [WsClose] else [])
  /\ paint_callbacks (on_close close_status_code (close st)) = paint_callbacks st
  /\ calls_made (on_close close_status_code (close st)) = calls_made st.
Proof.
  assert (Hmap : paint_callbacks (close st) = paint_callbacks st)
    by (unfold close; cbn; by destruct (ws st)).
  assert (Hcalls : calls_made (close st) = calls_made st).
  { unfold calls_made. rewrite close_trace, omap_app.
    destruct (ws st); cbn; by rewrite app_nil_r. }
  split; [ exact Hmap | ]. split; [ by rewrite Hmap | ].
  split; [ exact Hcalls | ].
  split; [ unfold close; cbn; by destruct (ws st) | ].
  split; [ unfold close; cbn; by destruct (ws st) | ].
  split; [ unfold close; cbn; by destruct (ws st) | ].
  split; [ apply close_trace | ].
  split; [ exact Hmap | ].
  unfold on_close. rewrite calls_made_log.
  exact Hcalls.
Qed.

(** C4, as stated, fails with one request pending: after [close] the
    entry for paint id 0 is still in the map and its callback was never
    called. *)
Lemma close_leaves_pending_entry :
  size (paint_callbacks Sample.pending) = 1%nat
  /\ paint_callbacks (close Sample.pending) <> ∅
  /\ paint_callbacks (close Sample.pending) !! 0 = Some (Some Sample.on_result)
  /\ calls_made (close Sample.pending) = [].
Proof.
  split; [ reflexivity | ].
  split; [ | split; reflexivity ].
  intros H.
  assert (Hl : paint_callbacks (close Sample.pending) !! 0
               = Some (Some Sample.on_result)) by reflexivity.
  rewrite H in Hl. by rewrite lookup_empty in Hl.
Qed.

(** ** Packet codec, inbound *)

Section Decode.

Implicit Types (st : client) (buffer rest : list Z) (offset now t : Z).

Lemma len_nonneg {A} (l : list A) : 0 <= len l.
Proof. unfold len. lia. Qed.

Lemma len_cons {A} (a : A) (l : list A) : len (a :: l) = len l + 1.
Proof. unfold len. cbn [length]. lia. Qed.

Lemma getitem_in_range {A} (l : list A) (i : Z) :
  0 <= i < len l -> is_Some (getitem l i).
Proof.
  intros H. rewrite getitem_nonneg by lia.
  apply lookup_lt_is_Some_2. unfold len in H. lia.
Qed.

Lemma getitem_past_end {A} (l : list A) (i : Z) :
  len l <= i -> getitem l i = None.
Proof.
  intros H. pose proof (len_nonneg l).
  rewrite getitem_nonneg by lia.
  apply lookup_ge_None_2. unfold len in H. lia.
Qed.

Lemma getitem_Some_lt {A} (l : list A) (i : Z) (a : A) :
  0 <= i -> getitem l i = Some a -> i < len l.
Proof.
  intros Hi H. rewrite getitem_nonneg in H by lia.
  apply lookup_lt_Some in H. unfold len. lia.
Qed.

Lemma getitem_cons_shift {A} (a : A) (l : list A) (i j : Z) :
  0 <= j -> i = j + 1 -> getitem (a :: l) i = getitem l j.
Proof.
  intros Hj ->. rewrite !getitem_nonneg by lia.
  replace (Z.to_nat (j + 1)) with (S (Z.to_nat j)) by lia.
  reflexivity.
Qed.

Lemma slice_cons_shift {A} (a : A) (l : list A) (i i' j j' : Z) :
  0 <= j <= j' -> i = j + 1 -> i' = j' + 1 ->
  slice (a :: l) i i' = slice l j j'.
Proof.
  intros Hj -> ->. unfold slice.
  replace (Z.to_nat (j + 1)) with (S (Z.to_nat j)) by lia.
  replace (Z.to_nat (j' + 1)) with (S (Z.to_nat j')) by lia.
  reflexivity.
Qed.

Lemma length_slice {A} (l : list A) (i j : Z) :
  0 <= i <= j -> j <= len l -> length (slice l i j) = Z.to_nat (j - i).
Proof.
  intros Hi Hj. unfold slice, len in *.
  rewrite length_take, length_drop. lia.
Qed.

(** Inside the buffer, the slices handed to [struct.unpack] have the
    length the format asks for. *)
Lemma struct_unpack_H_slice buffer i :
  0 <= i -> i + 2 <= len buffer ->
  is_Some (struct_unpack_H (slice buffer i (i + 2))).
Proof.
  intros Hi Hlen.
  pose proof (length_slice buffer i (i + 2) ltac:(lia) Hlen) as H.
  replace (Z.to_nat (i + 2 - i)) with 2%nat in H by lia.
  destruct (slice buffer i (i + 2)) as [ | b0 [ | b1 [ | ]]]; try discriminate.
  by eexists.
Qed.

Lemma struct_unpack_I_slice buffer i :
  0 <= i -> i + 4 <= len buffer ->
  is_Some (struct_unpack_I (slice buffer i (i + 4))).
Proof.
  intros Hi Hlen.
  pose proof (length_slice buffer i (i + 4) ltac:(lia) Hlen) as H.
  replace (Z.to_nat (i + 4 - i)) with 4%nat in H by lia.
  destruct (slice buffer i (i + 4)) as [ | b0 [ | b1 [ | b2 [ | b3 [ | ]]]]];
    try discriminate.
  by eexists.
Qed.

End Decode.

Section DecodeRounds.

Implicit Types (st : client) (buffer rest : list Z) (offset now t : Z).

(** A [0xFA] tag with fewer than six bytes after it: the round logs the
    incomplete message and breaks. *)
Lemma decode_round_paint_short now buffer offset st :
  getitem buffer offset = Some 250 -> len buffer < offset + 7 ->
  decode_round now buffer offset st = Break (log LogIncompletePaint st).
Proof.
  intros Htag Hlen. unfold decode_round. rewrite Htag. cbn [Z.eqb Pos.eqb].
  destruct (Z.leb_spec (offset + 1 + 6) (len buffer)); [ lia | done ].
Qed.

(** A [0xFA] tag with exactly six bytes after it passes the length
    test, and [buffer[offset+6]] is one past the end. *)
Lemma decode_round_paint_six now buffer offset st :
  0 <= offset -> getitem buffer offset = Some 250 ->
  len buffer = offset + 7 ->
  decode_round now buffer offset st = Raised IndexError st.
Proof.
  intros Hoff Htag Hlen. unfold decode_round. rewrite Htag. cbn [Z.eqb Pos.eqb].
  destruct (Z.leb_spec (offset + 1 + 6) (len buffer)); [ | lia ].
  destruct (struct_unpack_H_slice buffer (offset + 1)) as [x Hx]; [ lia | lia | ].
  destruct (struct_unpack_H_slice buffer (offset + 1 + 2)) as [y Hy];
    [ lia | lia | ].
  destruct (getitem_in_range buffer (offset + 1 + 4)) as [r Hr]; [ lia | ].
  destruct (getitem_in_range buffer (offset + 1 + 5)) as [g Hg]; [ lia | ].
  pose proof (getitem_past_end buffer (offset + 1 + 6) ltac:(lia)) as Hb.
  replace (offset + 1 + 2 + 2) with (offset + 1 + 4) in Hy by lia.
  unfold bind, or_raise, ret, raise.
  by rewrite Hx, Hy, Hr, Hg, Hb.
Qed.

(** A [0xFF] tag with fewer than four bytes after it. *)
Lemma decode_round_result_short now buffer offset st :
  getitem buffer offset = Some 255 -> len buffer < offset + 5 ->
  decode_round now buffer offset st = Break (log LogIncompleteResult st).
Proof.
  intros Htag Hlen. unfold decode_round. rewrite Htag. cbn [Z.eqb Pos.eqb].
  destruct (Z.leb_spec (offset + 1 + 4) (len buffer)); [ lia | done ].
Qed.

(** A [0xFF] tag with exactly four bytes after it: the status byte
    [buffer[offset+4]] is one past the end. *)
Lemma decode_round_result_four now buffer offset st :
  0 <= offset -> getitem buffer offset = Some 255 ->
  len buffer = offset + 5 ->
  decode_round now buffer offset st = Raised IndexError st.
Proof.
  intros Hoff Htag Hlen. unfold decode_round. rewrite Htag. cbn [Z.eqb Pos.eqb].
  destruct (Z.leb_spec (offset + 1 + 4) (len buffer)); [ | lia ].
  destruct (struct_unpack_I_slice buffer (offset + 1)) as [id Hid];
    [ lia | lia | ].
  pose proof (getitem_past_end buffer (offset + 1 + 4) ltac:(lia)) as Hc.
  unfold bind, or_raise, ret, raise.
  by rewrite Hid, Hc.
Qed.

(** A tag other than [0xFA], [0xFC], [0xFF]: one line is logged and the
    next round starts at the next byte. *)
Lemma decode_round_unknown now buffer offset st t :
  getitem buffer offset = Some t -> t <> 250 -> t <> 252 -> t <> 255 ->
  decode_round now buffer offset st
  = Next (offset + 1) (log (LogUnknownType t) st).
Proof.
  intros Htag H250 H252 H255. unfold decode_round. rewrite Htag.
  destruct (Z.eqb_spec t 250); [ done | ].
  destruct (Z.eqb_spec t 252); [ done | ].
  destruct (Z.eqb_spec t 255); [ done | reflexivity ].
Qed.

(** Every round that goes on consumes at least one byte. *)
Lemma decode_round_advances now buffer offset st offset' st' :
  decode_round now buffer offset st = Next offset' st' -> offset < offset'.
Proof.
  unfold decode_round.
  destruct (getitem buffer offset) as [ msg_type | ]; [ | discriminate ].
  repeat case_match; intros [= <- <-] || discriminate; lia.
Qed.

(** The length of the buffer is fuel enough. *)
Lemma decode_loop_total fuel now buffer : forall offset st,
  len buffer - offset <= Z.of_nat fuel ->
  is_Some (decode_loop fuel now buffer offset st).
Proof.
  induction fuel as [ | fuel IH ]; intros offset st Hfuel.
  - cbn [decode_loop].
    destruct (Z.ltb_spec offset (len buffer)); [ lia | by eexists ].
  - cbn [decode_loop].
    destruct (Z.ltb_spec offset (len buffer)); [ | by eexists ].
    cbn [negb].
    destruct (decode_round now buffer offset st) as [ o s | s | e s ] eqn:E;
      [ | by eexists | by eexists ].
    apply IH. apply decode_round_advances in E. lia.
Qed.

Lemma on_websocket_message_total now message st :
  fst (on_websocket_message now message st) <> OutOfFuel.
Proof.
  destruct message as [ s | buffer ]; [ discriminate | ].
  unfold on_websocket_message.
  destruct (decode_loop_total (length buffer) now buffer 0 st) as [r Hr].
  { unfold len. lia. }
  rewrite Hr. by destruct r as [[[ | ] | e] s].
Qed.

End DecodeRounds.

Section DecodeShift.

Implicit Types (st : client) (buffer rest : list Z) (offset now t : Z).

(** A round does not depend on the bytes before its offset. *)
Lemma decode_round_cons now t rest offset st :
  0 <= offset ->
  decode_round now (t :: rest) (offset + 1) st
  = shifted (decode_round now rest offset st).
Proof.
  intros Hoff. unfold decode_round.
  rewrite (getitem_cons_shift t rest (offset + 1) offset) by lia.
  destruct (getitem rest offset) as [ msg_type | ]; [ | reflexivity ].
  rewrite len_cons.
  rewrite (slice_cons_shift t rest (offset + 1 + 1) (offset + 1 + 1 + 2)
             (offset + 1) (offset + 1 + 2)) by lia.
  rewrite (slice_cons_shift t rest (offset + 1 + 1 + 2) (offset + 1 + 1 + 4)
             (offset + 1 + 2) (offset + 1 + 4)) by lia.
  rewrite (slice_cons_shift t rest (offset + 1 + 1) (offset + 1 + 1 + 4)
             (offset + 1) (offset + 1 + 4)) by lia.
  rewrite (getitem_cons_shift t rest (offset + 1 + 1 + 4) (offset + 1 + 4)) by lia.
  rewrite (getitem_cons_shift t rest (offset + 1 + 1 + 5) (offset + 1 + 5)) by lia.
  rewrite (getitem_cons_shift t rest (offset + 1 + 1 + 6) (offset + 1 + 6)) by lia.
  replace (offset + 1 + 1 + 6 <=? len rest + 1)
    with (offset + 1 + 6 <=? len rest)
    by (destruct (Z.leb_spec (offset + 1 + 6) (len rest)),
                 (Z.leb_spec (offset + 1 + 1 + 6) (len rest + 1)); (done || lia)).
  replace (offset + 1 + 1 + 4 <=? len rest + 1)
    with (offset + 1 + 4 <=? len rest)
    by (destruct (Z.leb_spec (offset + 1 + 4) (len rest)),
                 (Z.leb_spec (offset + 1 + 1 + 4) (len rest + 1)); (done || lia)).
  replace (offset + 1 + 1 + 7) with (offset + 1 + 7 + 1) by lia.
  replace (offset + 1 + 1 + 5) with (offset + 1 + 5 + 1) by lia.
  repeat case_match; simplify_eq; reflexivity.
Qed.

Lemma decode_loop_cons fuel now t rest : forall offset st,
  0 <= offset ->
  decode_loop fuel now (t :: rest) (offset + 1) st
  = decode_loop fuel now rest offset st.
Proof.
  induction fuel as [ | fuel IH ]; intros offset st Hoff;
    cbn [decode_loop]; rewrite len_cons;
    replace (offset + 1 <? len rest + 1) with (offset <? len rest)
      by (destruct (Z.ltb_spec offset (len rest)),
                   (Z.ltb_spec (offset + 1) (len rest + 1)); (done || lia));
    [ reflexivity | ].
  destruct (negb (offset <? len rest)); [ reflexivity | ].
  rewrite decode_round_cons by done.
  destruct (decode_round now rest offset st) as [ o s | s | e s ] eqn:E;
    cbn [shifted]; try reflexivity.
  apply IH. apply decode_round_advances in E. lia.
Qed.

End DecodeShift.

(** C5, as the code has it.  A byte that is none of the tags [0xFA],
    [0xFC], [0xFF] is logged as an unknown message type and skipped:
    decoding goes on at the next byte, and what follows is decoded as
    the messages it would be on its own.  No error is raised. *)
Theorem unknown_opcode_is_skipped
    (now t : Z) (rest : list Z) (st : client) :
  t <> 250 -> t <> 252 -> t <> 255 ->
  on_websocket_message now (Binary (t :: rest)) st
  = on_websocket_message now (Binary rest) (log (LogUnknownType t) st)
  /\ (forall e, fst (on_websocket_message now (Binary [t]) st) <> Failed e)
  /\ forall fuel buffer offset,
       getitem buffer offset = Some t -> 0 <= offset ->
       decode_loop (S fuel) now buffer offset st
       = decode_loop fuel now buffer (offset + 1) (log (LogUnknownType t) st).
Proof.
  intros H250 H252 H255.
  assert (Hloop : forall fuel buffer offset st,
    getitem buffer offset = Some t -> 0 <= offset ->
    decode_loop (S fuel) now buffer offset st
    = decode_loop fuel now buffer (offset + 1) (log (LogUnknownType t) st)).
  { intros fuel buffer offset s Htag Hoff. cbn [decode_loop].
    pose proof (getitem_Some_lt buffer offset t Hoff Htag).
    destruct (Z.ltb_spec offset (len buffer)); [ | lia ]. cbn [negb].
    by rewrite (decode_round_unknown now buffer offset s t). }
  assert (Hmsg : forall rest,
    on_websocket_message now (Binary (t :: rest)) st
    = on_websocket_message now (Binary rest) (log (LogUnknownType t) st)).
  { intros l. unfold on_websocket_message.
    change (length (t :: l)) with (S (length l)).
    rewrite (Hloop (length l) (t :: l) 0 st) by (reflexivity || lia).
    rewrite (decode_loop_cons (length l) now t l 0) by lia.
    destruct (decode_loop_total (length l) now l 0 (log (LogUnknownType t) st))
      as [r ->]; [ unfold len; lia | reflexivity ]. }
  split; [ apply Hmsg | ]. split; [ | intros; by apply Hloop ].
  intros e. by rewrite Hmsg.
Qed.

Lemma unknown_opcode_is_skipped_witness :
  on_websocket_message 5000 (Binary [0; 252]) Sample.ready
  = on_websocket_message 5000 (Binary [252]) (log (LogUnknownType 0) Sample.ready).
Proof.
  assert (Hne : forall a b, (a =? b) = false -> a <> b) by (intros; lia).
  exact (proj1 (unknown_opcode_is_skipped 5000 0 [252] Sample.ready
                  (Hne 0 250 eq_refl) (Hne 0 252 eq_refl) (Hne 0 255 eq_refl))).
Defined.

(** C5, as stated, fails on the frame [0x00 0xFC]: decoding does not
    stop at the unknown byte [0x00]; the byte after it is taken as a
    heartbeat probe and answered with [0xFB], and the call ends as for
    a well-formed frame, not through an error. *)
Lemma unknown_opcode_does_not_stop :
  on_websocket_message 5000 (Binary [0; 252]) Sample.ready
  = (WholeFrame, emit (Sent [251]) (log (LogUnknownType 0) Sample.ready))
  /\ frames_sent
       (snd (on_websocket_message 5000 (Binary [0; 252]) Sample.ready))
     = [[251]].
Proof. split; reflexivity. Qed.

(** C7 (the code departs from the claim).  A [0xFA] tag followed by
    exactly six bytes and a [0xFF] tag followed by exactly four bytes
    pass the length tests [offset + 6 <= len(buffer)] and
    [offset + 4 <= len(buffer)]; reading the last field then indexes one
    past the end of the buffer and raises [IndexError], which the
    [except] of the method logs.  With one byte less the tail is
    reported as incomplete. *)
Theorem short_message_index_error :
  on_websocket_message 5000 (Binary [250; 1; 2; 3; 4; 5; 6]) Sample.ready
  = (Failed IndexError, log (LogMessageError IndexError) Sample.ready)
  /\ on_websocket_message 5000 (Binary [255; 1; 0; 0; 0]) Sample.ready
     = (Failed IndexError, log (LogMessageError IndexError) Sample.ready)
  /\ on_websocket_message 5000 (Binary [250; 1; 2; 3; 4; 5]) Sample.ready
     = (IncompleteTail, log LogIncompletePaint Sample.ready)
  /\ on_websocket_message 5000 (Binary [255; 1; 0; 0]) Sample.ready
     = (IncompleteTail, log LogIncompleteResult Sample.ready).
Proof. repeat split; reflexivity. Qed.

(** ** Aggregation buffer and packet sender *)

Section Buffer.

Implicit Types (st : client) (cs : list (list Z)) (chunk merged : list Z).

Lemma slice_assign_app pre tail chunk :
  slice_assign (pre ++ tail) (len pre) (len pre + len chunk) chunk
  = (pre ++ chunk) ++ drop (length chunk) tail.
Proof.
  unfold slice_assign, len.
  rewrite Z.max_r by lia. rewrite Nat2Z.id.
  replace (Z.to_nat (Z.of_nat (length pre) + Z.of_nat (length chunk)))
    with (length pre + length chunk)%nat by lia.
  rewrite take_app_length, drop_app_add'; [ | done ].
  by rewrite <- app_assoc.
Qed.

(** The copying loop writes the chunks one after the other. *)
Lemma merge_chunks_concat cs : forall pre tail,
  merge_chunks cs (pre ++ tail) (len pre)
  = pre ++ concat cs ++ drop (length (concat cs)) tail.
Proof.
  induction cs as [ | chunk cs IH ]; intros pre tail.
  - cbn. by rewrite drop_0.
  - cbn [merge_chunks concat]. rewrite slice_assign_app.
    replace (len pre + len chunk) with (len (pre ++ chunk))
      by (unfold len; rewrite length_app; lia).
    rewrite IH, drop_drop, length_app, <- !app_assoc.
    reflexivity.
Qed.

Lemma get_merged_data_positive st :
  0 < total_size st ->
  get_merged_data st
  = (Ok (Some (merge_chunks (chunks st)
                 (replicate (Z.to_nat (total_size st)) 0) 0)),
     set_chunks [] (set_total_size 0 st)).
Proof.
  intros H. unfold get_merged_data, bind, read, update, ret.
  destruct (Z.eqb_spec (total_size st) 0); [ lia | ].
  destruct (Z.ltb_spec (total_size st) 0); [ lia | reflexivity ].
Qed.

(** With a consistent buffer the merged data are the chunks in order,
    and the buffer is empty afterwards. *)
Lemma get_merged_data_consistent st :
  buffer_consistent st -> 0 < total_size st ->
  get_merged_data st
  = (Ok (Some (concat (chunks st))), set_chunks [] (set_total_size 0 st)).
Proof.
  intros Hc Hpos. rewrite get_merged_data_positive by done.
  do 3 f_equal.
  pose proof (merge_chunks_concat (chunks st) []
                (replicate (Z.to_nat (total_size st)) 0)) as H.
  change (merge_chunks (chunks st) (replicate (Z.to_nat (total_size st)) 0) 0
          = concat (chunks st)
            ++ drop (length (concat (chunks st)))
                 (replicate (Z.to_nat (total_size st)) 0)) in H.
  rewrite H.
  rewrite drop_ge; [ by rewrite app_nil_r | ].
  rewrite length_replicate. unfold buffer_consistent, len in Hc. lia.
Qed.

Lemma get_merged_data_frames st :
  frames_sent (snd (get_merged_data st)) = frames_sent st.
Proof.
  unfold get_merged_data, bind, read, update, ret, raise.
  by repeat case_match.
Qed.

Lemma append_data_consistent chunk st :
  buffer_consistent st -> buffer_consistent (append_data chunk st).
Proof.
  unfold buffer_consistent, append_data. cbn. intros ->.
  unfold len. rewrite concat_app, !length_app. cbn. rewrite app_nil_r. lia.
Qed.

Lemma frames_sent_emit_sent frame st :
  frames_sent (emit (Sent frame) st) = frames_sent st ++ [frame].
Proof. unfold frames_sent, emit. cbn. by rewrite omap_app. Qed.

Lemma frames_sent_log l st : frames_sent (log l st) = frames_sent st.
Proof. unfold frames_sent, log, emit. cbn. by rewrite omap_app, app_nil_r. Qed.

End Buffer.

Section Sender.

Implicit Types (st : client) (merged : list Z) (send_interval clock : Z).

(** What one round of the sender writes to the transport: nothing, or
    the whole merged buffer, which is then within the frame limit. *)
Lemma send_packets_step_frames send_interval st :
  frames_sent (snd (send_packets_step send_interval st)) = frames_sent st
  \/ exists merged,
       fst (get_merged_data st) = Ok (Some merged)
       /\ len merged <= max_frame_size
       /\ frames_sent (snd (send_packets_step send_interval st))
          = frames_sent st ++ [merged].
Proof.
  unfold send_packets_step.
  destruct (negb (bool_decide (chunks st = [])) && sock_connected st);
    [ | by left ].
  pose proof (get_merged_data_frames st) as Hsame.
  destruct (get_merged_data st) as [[[[ | b merged] | ] | e] st1];
    cbn [snd fst] in *; try by left.
  destruct (Z.gtb_spec (len (b :: merged)) max_frame_size).
  - left. cbn [snd]. by rewrite frames_sent_log.
  - unfold ws_send. destruct (ws st1) as [ w | ].
    + destruct (send_raises w); cbn [snd].
      * left. by rewrite frames_sent_log.
      * right. exists (b :: merged). split; [ reflexivity | ].
        split; [ lia | ].
        change (frames_sent (set_packet_count _ ?s)) with (frames_sent s).
        by rewrite frames_sent_emit_sent, Hsame.
    + left. cbn [snd]. by rewrite frames_sent_log.
Qed.

(** A merged buffer over the limit is dropped whole: the round logs it,
    skips the sleep, and leaves the buffer empty with nothing sent. *)
Lemma send_packets_step_oversized send_interval st merged st1 :
  chunks st <> [] -> sock_connected st = true ->
  get_merged_data st = (Ok (Some merged), st1) ->
  max_frame_size < len merged ->
  send_packets_step send_interval st = (Ok 0, log LogFrameTooLarge st1).
Proof.
  intros Hchunks Hsock Hmerged Hbig. unfold send_packets_step.
  rewrite Hsock, bool_decide_eq_false_2 by done. cbn [negb andb].
  rewrite Hmerged.
  destruct merged as [ | b merged ]; [ unfold max_frame_size, len in Hbig; cbn in Hbig; lia | ].
  destruct (Z.gtb_spec (len (b :: merged)) max_frame_size); [ done | lia ].
Qed.

(** The frames of a whole run of the sender are within the limit. *)
Lemma sender_run_frames send_interval batches : forall clock st,
  exists new,
    frames_sent (snd (sender_run send_interval batches clock st))
    = frames_sent st ++ new
    /\ Forall (fun frame => len frame <= max_frame_size) new.
Proof.
  induction batches as [ | batch batches IH ]; intros clock st.
  - exists []. cbn. by rewrite app_nil_r.
  - cbn [sender_run]. cbv zeta.
    destruct (running (append_data batch st));
      [ | exists []; cbn [snd];
          change (frames_sent (append_data batch st)) with (frames_sent st);
          by rewrite app_nil_r ].
    pose proof (send_packets_step_frames send_interval (append_data batch st))
      as Hstep.
    change (frames_sent (append_data batch st)) with (frames_sent st) in Hstep.
    destruct (send_packets_step send_interval (append_data batch st))
      as [[pause | e] st1]; cbn [snd] in *.
    + destruct (IH (clock + pause) st1) as (new & Hnew & Hall).
      destruct Hstep as [ Hsame | (merged & _ & Hle & Hsent) ].
      * exists new. by rewrite Hnew, Hsame.
      * exists (merged :: new). rewrite Hnew, Hsent, <- app_assoc.
        split; [ reflexivity | by constructor ].
    + destruct Hstep as [ Hsame | (merged & _ & Hle & Hsent) ].
      * exists []. by rewrite app_nil_r.
      * exists [merged]. split; [ done | by repeat constructor ].
Qed.

End Sender.

(** C6. A round of the packet sender writes nothing or one frame, the
    whole merged buffer, and then the frame has at most 32768 bytes;
    when the merged buffer is larger, the round writes nothing at all.
    So no frame of any run of the sender exceeds the limit, and a
    buffer is never cut into several frames. *)
Theorem send_packets_frame_limit
    (send_interval clock : Z) (st : client) (batches : list (list Z)) :
  (frames_sent (snd (send_packets_step send_interval st)) = frames_sent st
   \/ exists merged,
        fst (get_merged_data st) = Ok (Some merged)
        /\ len merged <= 32768
        /\ frames_sent (snd (send_packets_step send_interval st))
           = frames_sent st ++ [merged])
  /\ (forall merged,
        fst (get_merged_data st) = Ok (Some merged) -> 32768 < len merged ->
        frames_sent (snd (send_packets_step send_interval st)) = frames_sent st)
  /\ exists new,
       frames_sent (snd (sender_run send_interval batches clock st))
       = frames_sent st ++ new
       /\ Forall (fun frame => len frame <= 32768) new.
Proof.
  pose proof (send_packets_step_frames send_interval st) as Hstep.
  split; [ exact Hstep | ]. split; [ | apply sender_run_frames ].
  intros merged Hmerged Hbig.
  destruct Hstep as [ Hsame | (merged' & Hmerged' & Hle & _) ]; [ done | ].
  rewrite Hmerged in Hmerged'. injection Hmerged' as <-.
  unfold max_frame_size in Hle. lia.
Qed.

Lemma send_packets_frame_limit_witness :
  frames_sent (snd (send_packets_step 20 Sample.overfull))
  = frames_sent Sample.overfull.
Proof.
  set (zeros := replicate (Z.to_nat 32769) 0).
  set (merged := merge_chunks [zeros] zeros 0).
  assert (Hmerged : fst (get_merged_data Sample.overfull) = Ok (Some merged))
    by reflexivity.
  assert (Hbig : 32768 < len merged).
  { subst merged. cbn [merge_chunks]. unfold slice_assign, len.
    rewrite !length_app. subst zeros. rewrite length_replicate. lia. }
  exact (proj1 (proj2 (send_packets_frame_limit 20 0 Sample.overfull []))
           merged Hmerged Hbig).
Defined.

Section RateLimit.

Implicit Types (st : client) (batch : list Z) (send_interval clock : Z).

(** With the transport up, a round of the sender in force flushes a
    buffered batch whatever [packet_count] is: the count is never read. *)
Lemma send_packets_step_sends send_interval batch st :
  ws st = Some (WsApp (Some true) false) ->
  chunks st = [] -> total_size st = 0 ->
  batch <> [] -> len batch <= max_frame_size ->
  send_packets_step send_interval (append_data batch st)
  = (Ok send_interval,
     set_packet_count (packet_count st + 1)
       (emit (Sent batch)
          (set_chunks [] (set_total_size 0 (append_data batch st))))).
Proof.
  intros Hws Hchunks Htotal Hne Hlen.
  assert (Hpos : 0 < len batch).
  { destruct batch; [ done | ]. rewrite len_cons. pose proof (len_nonneg batch). lia. }
  unfold send_packets_step.
  assert (Hc : chunks (append_data batch st) = [batch])
    by (unfold append_data; cbn; by rewrite Hchunks).
  assert (Hs : sock_connected (append_data batch st) = true)
    by (unfold sock_connected, append_data; cbn; by rewrite Hws).
  rewrite Hc, Hs. cbn [bool_decide decide_rel negb andb].
  rewrite bool_decide_eq_false_2 by discriminate. cbn [negb andb].
  rewrite get_merged_data_consistent; cycle 1.
  { unfold buffer_consistent. rewrite Hc. unfold append_data. cbn.
    rewrite Htotal, app_nil_r. lia. }
  { unfold append_data. cbn. lia. }
  rewrite Hc. cbn [concat]. rewrite app_nil_r.
  destruct batch as [ | b batch ]; [ done | ].
  destruct (Z.gtb_spec (len (b :: batch)) max_frame_size); [ lia | ].
  unfold ws_send. cbn [ws set_chunks set_total_size append_data].
  rewrite Hws. cbn [send_raises]. reflexivity.
Qed.

(** A run of the sender in force sends every batch it is given, one
    frame per round, however many there are. *)
Lemma sender_run_sends_all send_interval batches : forall clock st,
  running st = true ->
  ws st = Some (WsApp (Some true) false) ->
  chunks st = [] -> total_size st = 0 ->
  Forall (fun batch => batch <> [] /\ len batch <= max_frame_size) batches ->
  exists st',
    sender_run send_interval batches clock st
    = (clock + send_interval * len batches, st')
    /\ frames_sent st' = frames_sent st ++ batches
    /\ packet_count st' = packet_count st + len batches
    /\ chunks st' = [] /\ total_size st' = 0.
Proof.
  induction batches as [ | batch batches IH ];
    intros clock st Hrunning Hws Hc Ht Hall.
  - exists st. cbn [sender_run]. rewrite app_nil_r. unfold len. cbn.
    repeat split; (done || f_equal; lia).
  - apply Forall_cons in Hall as [[Hne Hlen] Hall].
    cbn [sender_run]. cbv zeta.
    change (running (append_data batch st)) with (running st).
    rewrite Hrunning.
    rewrite send_packets_step_sends by done.
    edestruct (IH (clock + send_interval)) as (st' & Hrun & Hsent & Hcount & Hc' & Ht');
      [ | | | | exact Hall | ].
    5: { exists st'. rewrite Hrun. rewrite len_cons.
         split; [ f_equal; lia | ].
         split; [ | split; [ | by split ] ].
         - rewrite Hsent.
           change (frames_sent (set_packet_count _ ?s)) with (frames_sent s).
           rewrite frames_sent_emit_sent.
           change (frames_sent (set_chunks [] (set_total_size 0 (append_data batch st))))
             with (frames_sent st).
           by rewrite <- app_assoc.
         - rewrite Hcount. cbn [packet_count set_packet_count]. lia. }
    all: cbn; done.
Qed.

(** The shadowed definition does test the count, but only after
    [get_merged_data] has emptied the buffer: the data of a round that
    meets the limit are neither sent nor put back. *)
Lemma send_packets_step_shadowed_drops send_interval now batch st :
  ws st = Some (WsApp (Some true) false) -> ws_connected st = true ->
  chunks st = [] -> total_size st = 0 ->
  batch <> [] -> len batch <= max_frame_size ->
  now - last_reset_time st < 1000 ->
  max_frames_per_second <= packet_count st ->
  send_packets_step_shadowed send_interval now (append_data batch st)
  = (100, log LogRateLimited
            (set_chunks [] (set_total_size 0 (append_data batch st)))).
Proof.
  intros Hws Hconn Hchunks Htotal Hne Hlen Hwin Hcount.
  assert (Hpos : 0 < len batch).
  { destruct batch; [ done | ]. rewrite len_cons. pose proof (len_nonneg batch). lia. }
  unfold send_packets_step_shadowed.
  assert (Hc : chunks (append_data batch st) = [batch])
    by (unfold append_data; cbn; by rewrite Hchunks).
  assert (Hs : sock_present (append_data batch st) = true)
    by (unfold sock_present, append_data; cbn; by rewrite Hws).
  assert (Hcn : ws_connected (append_data batch st) = true) by exact Hconn.
  rewrite Hc, Hs, Hcn.
  rewrite bool_decide_eq_false_2 by discriminate. cbn [negb andb].
  rewrite get_merged_data_consistent; cycle 1.
  { unfold buffer_consistent. rewrite Hc. unfold append_data. cbn.
    rewrite Htotal, app_nil_r. lia. }
  { unfold append_data. cbn. lia. }
  rewrite Hc. cbn [concat]. rewrite app_nil_r.
  destruct batch as [ | b batch ]; [ done | ].
  destruct (Z.gtb_spec (len (b :: batch)) max_frame_size); [ lia | ].
  cbn [last_reset_time set_chunks set_total_size append_data].
  destruct (Z.geb_spec (now - last_reset_time st) 1000); [ lia | ].
  change (packet_count
            (set_chunks [] (set_total_size 0 (append_data (b :: batch) st))))
    with (packet_count st).
  destruct (Z.geb_spec (packet_count st) max_frames_per_second); [ | lia ].
  reflexivity.
Qed.

End RateLimit.

(** C3 (the code departs from the claim).  The sender in force has no
    rate window: with a send interval of 1 ms and a batch buffered
    before every round, 300 rounds take 300 ms and send 300 frames, more
    than the 256 allowed in a second.  With 256 frames already counted
    it still sends; the shadowed definition, which does test the count,
    has by then emptied the buffer and neither sends the data nor puts
    them back. *)
Theorem sender_exceeds_rate_limit :
  (exists st',
     sender_run 1 (replicate 300 Sample.packet) 0 Sample.ready = (300, st')
     /\ frames_sent st' = replicate 300 Sample.packet
     /\ length (frames_sent st') = 300%nat
     /\ packet_count st' = 300)
  /\ packet_count Sample.saturated = 256
  /\ chunks Sample.saturated = [Sample.packet]
  /\ frames_sent (snd (send_packets_step 20 Sample.saturated)) = [Sample.packet]
  /\ packet_count (snd (send_packets_step 20 Sample.saturated)) = 257
  /\ (let st' := snd (send_packets_step_shadowed 20 500 Sample.saturated) in
      fst (send_packets_step_shadowed 20 500 Sample.saturated) = 100
      /\ frames_sent st' = [] /\ chunks st' = [] /\ total_size st' = 0).
Proof.
  split.
  - destruct (sender_run_sends_all 1 (replicate 300 Sample.packet) 0 Sample.ready)
      as (st' & Hrun & Hsent & Hcount & _); try reflexivity.
    { apply Forall_replicate. split; [ discriminate | ].
      unfold max_frame_size. vm_compute. discriminate. }
    exists st'.
    assert (Hl : len (replicate 300 Sample.packet) = 300)
      by (unfold len; by rewrite length_replicate).
    rewrite Hl in Hrun, Hcount.
    split; [ exact Hrun | ]. split; [ exact Hsent | ].
    split; [ | exact Hcount ].
    rewrite Hsent, length_app, length_replicate. reflexivity.
  - repeat split; vm_compute; reflexivity.
Qed.

(** ** The embedding on concrete inputs *)

Example bytes_fromhex_pairs :
  bytes_fromhex "12 34" = Some [18; 52]
  /\ bytes_fromhex "1 2" = None
  /\ bytes_fromhex "abc" = None
  /\ bytes_fromhex "zz" = None
  /\ bytes_fromhex (remove_dashes "AB-cd") = Some [171; 205].
Proof. repeat split; reflexivity. Qed.

Example uint_to_bytes_little_endian :
  uint_to_bytes 999 2 = [231; 3]
  /\ Some (uint_to_bytes 999 2) = struct_pack_H 999
  /\ Some (uint_to_bytes 1048914 4) = struct_pack_I 1048914
  /\ struct_pack_H 65536 = None /\ struct_pack_I (-1) = None.
Proof. repeat split; reflexivity. Qed.

Example create_single_paint_data_sample :
  fst (create_single_paint_data Sample.red_pixel Sample.tok_a Sample.ready)
  = Ok (Some Sample.packet).
Proof. reflexivity. Qed.

(** A token text that is not hexadecimal: no packet, but the paint id
    is used up. *)
Example create_single_paint_data_bad_token :
  let st := snd (create_single_paint_data Sample.red_pixel
                   (TokenInfo 1 "not-a-token") Sample.ready) in
  fst (create_single_paint_data Sample.red_pixel
         (TokenInfo 1 "not-a-token") Sample.ready) = Ok None
  /\ paint_id st = 1 /\ paint_callbacks st = ∅.
Proof. repeat split; reflexivity. Qed.

(** A batch of two pixels takes the two tokens in turn and yields two
    packets, 62 bytes, with paint ids 0 and 1. *)
Example create_batch_paint_data_sample :
  let run := create_batch_paint_data
               [Sample.red_pixel; Pixel.Make 0 0 1 2 3 (Some Sample.on_result)]
               Sample.ready in
  fst run
  = Ok (Sample.packet
        ++ [254; 0; 0; 0; 0; 1; 2; 3; 70; 176; 25;
            0; 17; 34; 51; 68; 85; 102; 119; 136; 153; 170; 187; 204; 221;
            238; 255; 1; 0; 0; 0])
  /\ paint_id (snd run) = 2
  /\ current_token_index (snd run) = 0
  /\ paint_callbacks (snd run) !! 0 = Some None
  /\ paint_callbacks (snd run) !! 1 = Some (Some Sample.on_result).
Proof. repeat split; reflexivity. Qed.

(** A well-formed frame: a board update, a heartbeat probe and the
    result of the pending paint id 0. *)
Example on_websocket_message_sample :
  let frame :=
    [250; 231; 3; 87; 2; 255; 0; 0] ++ [252] ++ [255; 0; 0; 0; 0; 239] in
  let run := on_websocket_message 5000 (Binary frame) Sample.pending in
  fst run = WholeFrame
  /\ trace (snd run)
     = [PaintUpdate 999 599 255 0 0; Sent [251];
        Called Sample.on_result (Status true TxtSuccess)]
  /\ paint_callbacks (snd run) = ∅
  /\ last_batch_time (snd run) = 5000
  /\ is_batch_cooling_down 5000 (snd run) = true.
Proof. repeat split; reflexivity. Qed.

(** One round of the sender on a buffered packet. *)
Example send_packets_step_sample :
  let run := send_packets_step 20 (append_data Sample.packet Sample.ready) in
  fst run = Ok 20
  /\ frames_sent (snd run) = [Sample.packet]
  /\ chunks (snd run) = [] /\ total_size (snd run) = 0
  /\ packet_count (snd run) = 1.
Proof. repeat split; reflexivity. Qed.

(** * Further properties of the client *)

(** ** Frames of several messages *)

Section DecodeFrames.

Implicit Types (st : client) (buffer pre rest : list Z) (offset now : Z).

(** Fuel beyond the bytes that are left changes nothing. *)
Lemma decode_loop_more_fuel now buffer fuel : forall fuel' offset st,
  len buffer - offset <= Z.of_nat fuel -> (fuel <= fuel')%nat ->
  decode_loop fuel' now buffer offset st = decode_loop fuel now buffer offset st.
Proof.
  induction fuel as [ | fuel IH ]; intros fuel' offset st Hfuel Hle.
  - destruct fuel'; cbn [decode_loop];
      destruct (Z.ltb_spec offset (len buffer)); (reflexivity || lia).
  - destruct fuel' as [ | fuel' ]; [ lia | ]. cbn [decode_loop].
    destruct (negb (offset <? len buffer)); [ reflexivity | ].
    destruct (decode_round now buffer offset st) as [ o s | s | e s ] eqn:E;
      try reflexivity.
    apply IH; [ | lia ]. apply decode_round_advances in E. lia.
Qed.

(** The loop does not depend on the bytes before its offset. *)
Lemma decode_loop_app fuel now pre rest : forall offset st,
  0 <= offset ->
  decode_loop fuel now (pre ++ rest) (offset + len pre) st
  = decode_loop fuel now rest offset st.
Proof.
  induction pre as [ | t pre IH ]; intros offset st Hoff.
  - cbn [app]. by replace (offset + len []) with offset by (unfold len; cbn; lia).
  - cbn [app]. rewrite len_cons.
    replace (offset + (len pre + 1)) with (offset + len pre + 1) by lia.
    rewrite decode_loop_cons by (pose proof (len_nonneg pre); lia).
    by apply IH.
Qed.

(** When the first round of a frame consumes exactly [pre], the rest of
    the frame is decoded as a frame of its own, in the state the round
    leaves. *)
Lemma on_websocket_message_first_round now pre rest st st' :
  decode_round now (pre ++ rest) 0 st = Next (len pre) st' ->
  on_websocket_message now (Binary (pre ++ rest)) st
  = on_websocket_message now (Binary rest) st'.
Proof.
  intros Hround.
  pose proof (decode_round_advances _ _ _ _ _ _ Hround) as Hpos.
  unfold on_websocket_message.
  destruct (length (pre ++ rest)) as [ | fuel ] eqn:Hfuel.
  { rewrite length_app in Hfuel. unfold len in Hpos. lia. }
  cbn [decode_loop].
  destruct (Z.ltb_spec 0 (len (pre ++ rest))) as [ _ | Hge ];
    [ | unfold len in Hge; lia ].
  cbn [negb]. rewrite Hround.
  change (len pre) with (0 + len pre).
  rewrite (decode_loop_app fuel now pre rest 0 st') by lia.
  assert (Hlen : fuel = (length rest + (length pre - 1))%nat).
  { rewrite length_app in Hfuel. unfold len in Hpos. lia. }
  rewrite (decode_loop_more_fuel now rest (length rest) fuel 0 st')
    by (unfold len; lia).
  destruct (decode_loop_total (length rest) now rest 0 st') as [r ->];
    [ unfold len; lia | reflexivity ].
Qed.

(** When the first round of a frame raises, the [except] of the method
    logs the exception and nothing more of the frame is decoded. *)
Lemma on_websocket_message_first_raise now buffer st e st' :
  buffer <> [] ->
  decode_round now buffer 0 st = Raised e st' ->
  on_websocket_message now (Binary buffer) st
  = (Failed e, log (LogMessageError e) st').
Proof.
  intros Hne Hround. unfold on_websocket_message.
  destruct buffer as [ | t buffer ]; [ done | ].
  cbn [length decode_loop].
  destruct (Z.ltb_spec 0 (len (t :: buffer))) as [ _ | Hge ];
    [ | rewrite len_cons in Hge; pose proof (len_nonneg buffer); lia ].
  cbn [negb]. by rewrite Hround.
Qed.

End DecodeFrames.

Section DecodeMessages.

Implicit Types (st : client) (rest : list Z) (now : Z).

Lemma leb_len_app {A} (pre l : list A) (k : Z) :
  k <= len pre -> (k <=? len (pre ++ l)) = true.
Proof. intros H. apply Z.leb_le. unfold len in *. rewrite length_app. lia. Qed.

(** The round of a board update with its seven bytes. *)
Lemma decode_round_paint now x0 x1 y0 y1 r g b rest st :
  decode_round now ([250; x0; x1; y0; y1; r; g; b] ++ rest) 0 st
  = match handle_paint_message (x0 + 256 * x1) (y0 + 256 * y1) r g b st with
    | (Ok _, st') => Next 8 st'
    | (Raise e, st') => Raised e st'
    end.
Proof.
  unfold decode_round.
  change (getitem ([250; x0; x1; y0; y1; r; g; b] ++ rest) 0) with (Some 250).
  cbv beta iota zeta. change (250 =? 250) with true. cbv iota.
  rewrite leb_len_app by (unfold len; cbn; lia).
  change (slice ([250; x0; x1; y0; y1; r; g; b] ++ rest) (0 + 1) (0 + 1 + 2))
    with [x0; x1].
  change (slice ([250; x0; x1; y0; y1; r; g; b] ++ rest) (0 + 1 + 2) (0 + 1 + 4))
    with [y0; y1].
  change (getitem ([250; x0; x1; y0; y1; r; g; b] ++ rest) (0 + 1 + 4))
    with (Some r).
  change (getitem ([250; x0; x1; y0; y1; r; g; b] ++ rest) (0 + 1 + 5))
    with (Some g).
  change (getitem ([250; x0; x1; y0; y1; r; g; b] ++ rest) (0 + 1 + 6))
    with (Some b).
  reflexivity.
Qed.

(** The round of a paint result with its five bytes. *)
Lemma decode_round_result now i0 i1 i2 i3 code rest st :
  decode_round now ([255; i0; i1; i2; i3; code] ++ rest) 0 st
  = match handle_paint_result now
            (i0 + 256 * i1 + 65536 * i2 + 16777216 * i3) code st with
    | (Ok _, st') => Next 6 st'
    | (Raise e, st') => Raised e st'
    end.
Proof.
  unfold decode_round.
  change (getitem ([255; i0; i1; i2; i3; code] ++ rest) 0) with (Some 255).
  cbv beta iota zeta. change (255 =? 250) with false.
  change (255 =? 252) with false. change (255 =? 255) with true. cbv iota.
  rewrite leb_len_app by (unfold len; cbn; lia).
  change (slice ([255; i0; i1; i2; i3; code] ++ rest) (0 + 1) (0 + 1 + 4))
    with [i0; i1; i2; i3].
  change (getitem ([255; i0; i1; i2; i3; code] ++ rest) (0 + 1 + 4))
    with (Some code).
  cbn [struct_unpack_I or_raise bind ret].
  unfold bind, ret.
  by destruct (handle_paint_result now _ code st) as [[[] | e] st'].
Qed.

End DecodeMessages.

(** X1.  A heartbeat probe at the head of a frame is answered and the rest of
    the frame is decoded as a frame of its own.  The answer is the one
    frame [0xFB] when the transport takes it; when there is no
    transport or [send] raises, nothing is written, the failure is
    logged and decoding goes on all the same. *)
Theorem heartbeat_probe_answered (now : Z) (rest : list Z) (st : client) :
  on_websocket_message now (Binary (252 :: rest)) st
  = on_websocket_message now (Binary rest) (send_pong st)
  /\ frames_sent (send_pong st)
     = frames_sent st
       ++ (match ws st with
           | Some w => if send_raises w then [] else [[251]]
           | None => []
           end)
  /\ paint_callbacks (send_pong st) = paint_callbacks st
  /\ last_batch_time (send_pong st) = last_batch_time st.
Proof.
  split.
  - apply (on_websocket_message_first_round now [252] rest st (send_pong st)).
    reflexivity.
  - unfold send_pong, ws_send.
    destruct (ws st) as [ w | ]; [ destruct (send_raises w) | ];
      rewrite ?frames_sent_log, ?frames_sent_emit_sent, ?app_nil_r; done.
Qed.

(** X2.  A board update written with [struct.pack('<H', ...)] for its
    coordinates is read back as the same coordinates and colour.
    Without an observer nothing is done and decoding goes on with the
    rest of the frame; an observer is called with them, and if it
    returns, decoding goes on with the rest of the frame.  The call is
    not guarded: when the observer raises, the [except] of
    [on_websocket_message] logs the exception and the rest of the frame
    is not decoded. *)
Theorem board_update_round_trip
    (now x y r g b : Z) (x_bytes y_bytes rest : list Z) (st : client) :
  struct_pack_H x = Some x_bytes -> struct_pack_H y = Some y_bytes ->
  on_websocket_message now
    (Binary ([250] ++ x_bytes ++ y_bytes ++ [r; g; b] ++ rest)) st
  = match on_paint_update st with
    | None => on_websocket_message now (Binary rest) st
    | Some ob =>
        let called := emit (PaintUpdate x y r g b) st in
        match ob_raises ob with
        | None => on_websocket_message now (Binary rest) called
        | Some e => (Failed e, log (LogMessageError e) called)
        end
    end.
Proof.
  unfold struct_pack_H.
  destruct ((0 <=? x) && (x <? 65536)); [ | discriminate ].
  destruct ((0 <=? y) && (y <? 65536)); [ | discriminate ].
  intros [= <-] [= <-].
  change ([250] ++ [x mod 256; x / 256] ++ [y mod 256; y / 256]
          ++ [r; g; b] ++ rest)
    with ([250; x mod 256; x / 256; y mod 256; y / 256; r; g; b] ++ rest).
  pose proof (decode_round_paint now (x mod 256) (x / 256) (y mod 256) (y / 256)
                r g b rest st) as Hround.
  replace (x mod 256 + 256 * (x / 256)) with x in Hround
    by (Z.div_mod_to_equations; lia).
  replace (y mod 256 + 256 * (y / 256)) with y in Hround
    by (Z.div_mod_to_equations; lia).
  unfold handle_paint_message, bind, read, update, ret, raise in Hround.
  destruct (on_paint_update st) as [ ob | ];
    [ destruct (ob_raises ob) as [ e | ] | ]; cbv zeta.
  - by apply on_websocket_message_first_raise.
  - by apply (on_websocket_message_first_round now
                [250; x mod 256; x / 256; y mod 256; y / 256; r; g; b]).
  - by apply (on_websocket_message_first_round now
                [250; x mod 256; x / 256; y mod 256; y / 256; r; g; b]).
Qed.

Lemma board_update_round_trip_witness :
  on_websocket_message 5000 (Binary [250; 231; 3; 87; 2; 255; 0; 0; 252])
    Sample.ready
  = on_websocket_message 5000 (Binary [252])
      (emit (PaintUpdate 999 599 255 0 0) Sample.ready)
  /\ on_websocket_message 5000 (Binary [250; 231; 3; 87; 2; 255; 0; 0; 252])
       Sample.watched
     = (Failed (CallerError 0),
        log (LogMessageError (CallerError 0))
          (emit (PaintUpdate 999 599 255 0 0) Sample.watched)).
Proof.
  split.
  - exact (board_update_round_trip 5000 999 599 255 0 0 [231; 3] [87; 2] [252]
             Sample.ready eq_refl eq_refl).
  - exact (board_update_round_trip 5000 999 599 255 0 0 [231; 3] [87; 2] [252]
             Sample.watched eq_refl eq_refl).
Defined.

(** X3.  A paint result for a registered paint id, written with
    [struct.pack('<I', ...)], is delivered: the entry is removed, its
    callback (if it has one) is called once with the mapped status, and
    the rest of the frame is decoded as a frame of its own. *)
Theorem paint_result_delivered_in_frame
    (now paint_id code : Z) (id_bytes rest : list Z) (st : client)
    (entry : option callback) :
  struct_pack_I paint_id = Some id_bytes ->
  paint_callbacks st !! paint_id = Some entry ->
  let st' := snd (handle_paint_result now paint_id code st) in
  on_websocket_message now (Binary ([255] ++ id_bytes ++ [code] ++ rest)) st
  = on_websocket_message now (Binary rest) st'
  /\ paint_callbacks st' = delete paint_id (paint_callbacks st)
  /\ calls_made st' = calls_made st ++ delivery entry code.
Proof.
  intros Hpack Hreg st'.
  destruct (handle_paint_result_registered now paint_id code st entry Hreg)
    as (st1 & Hrun & Hmap & Hcalls & _).
  assert (Hst' : st' = st1) by (subst st'; by rewrite Hrun).
  rewrite Hst'. split; [ | by split ].
  revert Hpack. unfold struct_pack_I.
  destruct ((0 <=? paint_id) && (paint_id <? 4294967296)); [ | discriminate ].
  intros [= <-].
  change ([255] ++ [paint_id mod 256; (paint_id / 256) mod 256;
                    (paint_id / 65536) mod 256; paint_id / 16777216]
          ++ [code] ++ rest)
    with ([255; paint_id mod 256; (paint_id / 256) mod 256;
           (paint_id / 65536) mod 256; paint_id / 16777216; code] ++ rest).
  apply on_websocket_message_first_round.
  rewrite decode_round_result.
  replace (paint_id mod 256 + 256 * ((paint_id / 256) mod 256)
           + 65536 * ((paint_id / 65536) mod 256)
           + 16777216 * (paint_id / 16777216)) with paint_id
    by (Z.div_mod_to_equations; lia).
  by rewrite Hrun.
Qed.

Lemma paint_result_delivered_in_frame_witness :
  on_websocket_message 5000 (Binary [255; 0; 0; 0; 0; 239; 252]) Sample.pending
  = on_websocket_message 5000 (Binary [252])
      (snd (handle_paint_result 5000 0 239 Sample.pending)).
Proof.
  exact (proj1 (paint_result_delivered_in_frame 5000 0 239 [0; 0; 0; 0] [252]
                  Sample.pending (Some Sample.on_result) eq_refl eq_refl)).
Defined.

(** ** What decoding can and cannot do *)

Section DecodeEffects.

Implicit Types (st : client) (buffer : list Z) (offset now : Z).

Lemma decoder_keeps_refl st : decoder_keeps st st.
Proof.
  repeat split; try reflexivity.
  exists []. by rewrite app_nil_r.
Qed.

Lemma decoder_keeps_trans st1 st2 st3 :
  decoder_keeps st1 st2 -> decoder_keeps st2 st3 -> decoder_keeps st1 st3.
Proof.
  intros (H1 & H2 & H3 & H4 & H5 & H6 & H7 & H8 & H9 & r1 & Hr1 & Hf1)
         (G1 & G2 & G3 & G4 & G5 & G6 & G7 & G8 & G9 & r2 & Hr2 & Hf2).
  repeat split; try congruence.
  - by transitivity (paint_callbacks st2).
  - exists (r1 ++ r2). rewrite Hr2, Hr1, <- app_assoc.
    split; [ reflexivity | by apply Forall_app ].
Qed.

Lemma frames_sent_emit_other e st :
  (forall frame, e <> Sent frame) ->
  frames_sent (emit e st) = frames_sent st.
Proof.
  intros He. unfold frames_sent, emit. cbn. rewrite omap_app. cbn.
  destruct e; rewrite ?app_nil_r; try reflexivity.
  by destruct (He frame).
Qed.

Lemma decoder_keeps_emit_other e st :
  (forall frame, e <> Sent frame) -> decoder_keeps st (emit e st).
Proof.
  intros He. repeat split; try reflexivity.
  exists []. by rewrite app_nil_r, frames_sent_emit_other.
Qed.

Lemma decoder_keeps_log l st : decoder_keeps st (log l st).
Proof. by apply decoder_keeps_emit_other. Qed.

Lemma decoder_keeps_send_pong st : decoder_keeps st (send_pong st).
Proof.
  unfold send_pong, ws_send.
  destruct (ws st) as [ w | ]; [ destruct (send_raises w) | ];
    try apply decoder_keeps_log.
  repeat split; try reflexivity.
  exists [[251]]. rewrite frames_sent_emit_sent.
  split; [ reflexivity | by repeat constructor ].
Qed.

Lemma decoder_keeps_call_guarded cb s st :
  decoder_keeps st (call_guarded cb s st).
Proof.
  unfold call_guarded.
  destruct (Pixel.cb_raises cb).
  - eapply decoder_keeps_trans; [ | apply decoder_keeps_log ].
    by apply decoder_keeps_emit_other.
  - by apply decoder_keeps_emit_other.
Qed.

(** Changing the pending map to a smaller one, or the time of the last
    batch, is within what the decoder may do. *)
Lemma decoder_keeps_delete k st :
  decoder_keeps st
    (set_paint_callbacks (delete k (paint_callbacks st)) st).
Proof.
  repeat split; try reflexivity.
  - cbn [paint_callbacks set_paint_callbacks]. apply delete_subseteq.
  - exists []. by rewrite app_nil_r.
Qed.

Lemma decoder_keeps_set_last_batch_time t st :
  decoder_keeps st (set_last_batch_time t st).
Proof.
  repeat split; try reflexivity.
  exists []. by rewrite app_nil_r.
Qed.

Lemma decoder_keeps_handle_paint_result now paint_id code st :
  decoder_keeps st (snd (handle_paint_result now paint_id code st)).
Proof.
  destruct (paint_callbacks st !! paint_id) as [ entry | ] eqn:Hreg.
  - unfold handle_paint_result, bind, update, read, ret. rewrite Hreg.
    set (st1 := match entry with
                | Some cb => call_guarded cb (get_status_message code) st
                | None => st
                end).
    assert (H1 : decoder_keeps st st1).
    { subst st1. destruct entry; [ apply decoder_keeps_call_guarded
                                 | apply decoder_keeps_refl ]. }
    assert (Hsame : paint_callbacks st1 = paint_callbacks st).
    { subst st1. destruct entry; [ | done ].
      unfold call_guarded. by destruct (Pixel.cb_raises c). }
    rewrite Hsame, Hreg.
    eapply decoder_keeps_trans; [ exact H1 | ].
    destruct (code =? 239); cbn [snd].
    + eapply decoder_keeps_trans;
        [ apply decoder_keeps_delete | apply decoder_keeps_set_last_batch_time ].
    + apply decoder_keeps_delete.
  - rewrite handle_paint_result_unregistered by done.
    apply decoder_keeps_refl.
Qed.

(** The only exception [handle_paint_result] raises is the [KeyError]
    of its [del]. *)
Lemma handle_paint_result_raises now paint_id code st e st' :
  handle_paint_result now paint_id code st = (Raise e, st') ->
  e = KeyError paint_id /\ paint_callbacks st !! paint_id = None.
Proof.
  destruct (paint_callbacks st !! paint_id) as [ entry | ] eqn:Hreg.
  - destruct (handle_paint_result_registered now paint_id code st entry Hreg)
      as (st1 & -> & _). discriminate.
  - rewrite handle_paint_result_unregistered by done. by intros [= <- <-].
Qed.

End DecodeEffects.

Section DecodeOutcomes.

Implicit Types (st : client) (buffer : list Z) (offset now : Z).

(** The observer and what its call leaves: the state is within what the
    decoder may do, the observer stays installed, and an exception is
    the one the observer raises. *)
Lemma decoder_keeps_handle_paint_message x y r g b st :
  decoder_keeps st (snd (handle_paint_message x y r g b st))
  /\ on_paint_update (snd (handle_paint_message x y r g b st))
     = on_paint_update st
  /\ forall e, fst (handle_paint_message x y r g b st) = Raise e ->
       exists ob, on_paint_update st = Some ob /\ ob_raises ob = Some e.
Proof.
  unfold handle_paint_message, bind, read, update, ret, raise.
  destruct (on_paint_update st) as [ ob | ] eqn:Hob;
    [ destruct (ob_raises ob) as [ e | ] eqn:He | ]; cbn [fst snd].
  - split; [ by apply decoder_keeps_emit_other | ].
    split; [ done | ]. intros e' [= <-]. by exists ob.
  - split; [ by apply decoder_keeps_emit_other | ]. by split.
  - split; [ apply decoder_keeps_refl | ]. by split.
Qed.

Lemma on_paint_update_send_pong st :
  on_paint_update (send_pong st) = on_paint_update st.
Proof.
  unfold send_pong, ws_send.
  by destruct (ws st) as [ w | ]; [ destruct (send_raises w) | ].
Qed.

Lemma on_paint_update_handle_paint_result now paint_id code st :
  on_paint_update (snd (handle_paint_result now paint_id code st))
  = on_paint_update st.
Proof.
  unfold handle_paint_result, bind, update, read, ret, raise, call_guarded.
  repeat case_match; simplify_eq; reflexivity.
Qed.

(** Whatever a round comes to, its state is within what the decoder may
    do, and the observer is the one that was installed. *)
Lemma decode_round_keeps now buffer offset st :
  match decode_round now buffer offset st with
  | Next _ st' | Break st' | Raised _ st' =>
      decoder_keeps st st' /\ on_paint_update st' = on_paint_update st
  end.
Proof.
  unfold decode_round.
  destruct (getitem buffer offset) as [ msg_type | ];
    [ | split; [ apply decoder_keeps_refl | done ] ].
  cbv zeta.
  destruct (msg_type =? 250).
  { destruct (offset + 1 + 6 <=? len buffer);
      [ | split; [ apply decoder_keeps_log | done ] ].
    unfold bind, or_raise, ret, raise.
    destruct (struct_unpack_H _); [ | split; [ apply decoder_keeps_refl | done ] ].
    destruct (struct_unpack_H _); [ | split; [ apply decoder_keeps_refl | done ] ].
    destruct (getitem buffer (offset + 1 + 4));
      [ | split; [ apply decoder_keeps_refl | done ] ].
    destruct (getitem buffer (offset + 1 + 5));
      [ | split; [ apply decoder_keeps_refl | done ] ].
    destruct (getitem buffer (offset + 1 + 6));
      [ | split; [ apply decoder_keeps_refl | done ] ].
    match goal with
    | |- context [handle_paint_message ?x ?y ?r ?g ?b st] =>
        destruct (decoder_keeps_handle_paint_message x y r g b st)
          as (Hk & Hob & _);
        destruct (handle_paint_message x y r g b st) as [[ u | e ] s]
    end; by split. }
  destruct (msg_type =? 252);
    [ split; [ apply decoder_keeps_send_pong | apply on_paint_update_send_pong ] | ].
  destruct (msg_type =? 255); [ | split; [ apply decoder_keeps_log | done ] ].
  destruct (offset + 1 + 4 <=? len buffer);
    [ | split; [ apply decoder_keeps_log | done ] ].
  unfold bind, or_raise, ret, raise.
  destruct (struct_unpack_I _) as [ paint_id | ];
    [ | split; [ apply decoder_keeps_refl | done ] ].
  destruct (getitem buffer (offset + 1 + 4)) as [ code | ];
    [ | split; [ apply decoder_keeps_refl | done ] ].
  pose proof (decoder_keeps_handle_paint_result now paint_id code st) as Hk.
  pose proof (on_paint_update_handle_paint_result now paint_id code st) as Hob.
  destruct (handle_paint_result now paint_id code st) as [[ u | e ] s];
    by split.
Qed.

(** The exceptions of a round: an index past the end of the buffer, the
    [KeyError] of a result with no entry, or whatever the observer
    raises.  The length tests make the slices given to [struct.unpack]
    of the right size. *)
Lemma decode_round_raises now buffer offset st e st' :
  0 <= offset ->
  decode_round now buffer offset st = Raised e st' ->
  e = IndexError
  \/ (exists paint_id, e = KeyError paint_id)
  \/ (exists ob, on_paint_update st = Some ob /\ ob_raises ob = Some e).
Proof.
  intros Hoff. unfold decode_round.
  destruct (getitem buffer offset) as [ msg_type | ];
    [ | intros [= <- <-]; by left ].
  cbv zeta.
  destruct (msg_type =? 250).
  { destruct (Z.leb_spec (offset + 1 + 6) (len buffer)); [ | discriminate ].
    destruct (struct_unpack_H_slice buffer (offset + 1)) as [x Hx];
      [ lia | lia | ].
    destruct (struct_unpack_H_slice buffer (offset + 1 + 2)) as [y Hy];
      [ lia | lia | ].
    replace (offset + 1 + 2 + 2) with (offset + 1 + 4) in Hy by lia.
    unfold bind, or_raise, ret, raise. rewrite Hx, Hy.
    destruct (getitem buffer (offset + 1 + 4)); [ | intros [= <- <-]; by left ].
    destruct (getitem buffer (offset + 1 + 5)); [ | intros [= <- <-]; by left ].
    destruct (getitem buffer (offset + 1 + 6)); [ | intros [= <- <-]; by left ].
    match goal with
    | |- context [handle_paint_message ?x ?y ?r ?g ?b st] =>
        destruct (decoder_keeps_handle_paint_message x y r g b st)
          as (_ & _ & Hraise);
        destruct (handle_paint_message x y r g b st) as [[ u' | e' ] s]
    end; [ discriminate | ].
    intros [= <- <-]. right; right. by apply Hraise. }
  destruct (msg_type =? 252); [ discriminate | ].
  destruct (msg_type =? 255); [ | discriminate ].
  destruct (Z.leb_spec (offset + 1 + 4) (len buffer)); [ | discriminate ].
  destruct (struct_unpack_I_slice buffer (offset + 1)) as [paint_id Hid];
    [ lia | lia | ].
  unfold bind, or_raise, ret, raise. rewrite Hid.
  destruct (getitem buffer (offset + 1 + 4)) as [ code | ];
    [ | intros [= <- <-]; by left ].
  destruct (handle_paint_result now paint_id code st) as [[ u | e' ] s] eqn:E;
    [ discriminate | ].
  intros [= <- <-]. right; left. exists paint_id.
  by destruct (handle_paint_result_raises _ _ _ _ _ _ E).
Qed.

Lemma decode_loop_keeps fuel now buffer : forall offset st r st',
  decode_loop fuel now buffer offset st = Some (r, st') ->
  decoder_keeps st st' /\ on_paint_update st' = on_paint_update st.
Proof.
  induction fuel as [ | fuel IH ]; intros offset st r st'; cbn [decode_loop];
    destruct (negb (offset <? len buffer));
    try (intros [= <- <-]; split; [ apply decoder_keeps_refl | done ]);
    try discriminate.
  pose proof (decode_round_keeps now buffer offset st) as Hk.
  destruct (decode_round now buffer offset st) as [ o s | s | e s ];
    destruct Hk as [Hk Hob].
  - intros Hloop. apply IH in Hloop as [Hk' Hob'].
    split; [ by eapply decoder_keeps_trans | congruence ].
  - by intros [= <- <-].
  - by intros [= <- <-].
Qed.

Lemma decode_loop_raises fuel now buffer : forall offset st e st',
  0 <= offset ->
  decode_loop fuel now buffer offset st = Some (Raise e, st') ->
  e = IndexError
  \/ (exists paint_id, e = KeyError paint_id)
  \/ (exists ob, on_paint_update st = Some ob /\ ob_raises ob = Some e).
Proof.
  induction fuel as [ | fuel IH ]; intros offset st e st' Hoff;
    cbn [decode_loop];
    destruct (negb (offset <? len buffer)); try discriminate.
  pose proof (decode_round_keeps now buffer offset st) as Hk.
  destruct (decode_round now buffer offset st) as [ o s | s | e' s ] eqn:E.
  - destruct Hk as [_ Hob]. intros Hloop.
    apply IH in Hloop; [ | apply decode_round_advances in E; lia ].
    by rewrite Hob in Hloop.
  - discriminate.
  - intros [= <- <-]. by eapply decode_round_raises.
Qed.

End DecodeOutcomes.

(** X4.  Whatever frame arrives, [on_websocket_message] leaves the
    outbound side of the client alone: the token pool and its cursor, the
    batch limit, the paint-id counter, the aggregation buffer, the batch
    queue and the frame counter are as before; pending callbacks can
    only have been removed, never added; and the only frames it puts on
    the transport are one-byte heartbeat replies [0xFB]. *)
Theorem on_websocket_message_keeps
    (now : Z) (message : ws_message) (st : client) :
  decoder_keeps st (snd (on_websocket_message now message st)).
Proof.
  destruct message as [ s | buffer ]; cbn [on_websocket_message snd].
  - apply decoder_keeps_log.
  - destruct (decode_loop (length buffer) now buffer 0 st)
      as [ [r st'] | ] eqn:E; [ | apply decoder_keeps_refl ].
    apply decode_loop_keeps in E as [E _].
    destruct r as [ [ | ] | e ]; cbn [snd]; try exact E.
    eapply decoder_keeps_trans; [ exact E | apply decoder_keeps_log ].
Qed.

(** X5.  The ways a call of [on_websocket_message] ends: a text message
    is ignored; a binary frame is consumed to its end, or left by the
    [break] of an incomplete message, or left through the [except] of
    the method.  In that last case the exception is an [IndexError], or
    the [KeyError] of a paint id, or the exception raised by the
    observer installed as [on_paint_update] (whose call is not
    guarded); without an observer, or with one that returns, only the
    first two are left.  [struct.unpack] never fails there (the length
    tests give it slices of the right size), and the loop always
    ends. *)
Theorem on_websocket_message_outcomes
    (now : Z) (message : ws_message) (st : client) :
  let outcome := fst (on_websocket_message now message st) in
  (outcome = TextIgnored /\ exists s, message = Text s)
  \/ ((outcome = WholeFrame \/ outcome = IncompleteTail
       \/ outcome = Failed IndexError
       \/ (exists paint_id, outcome = Failed (KeyError paint_id))
       \/ (exists ob e,
             on_paint_update st = Some ob /\ ob_raises ob = Some e
             /\ outcome = Failed e))
      /\ exists buffer, message = Binary buffer).
Proof.
  destruct message as [ s | buffer ]; cbn [on_websocket_message fst].
  - left. split; [ reflexivity | by eexists ].
  - right. split; [ | by eexists ].
    destruct (decode_loop_total (length buffer) now buffer 0 st) as [[r st'] E].
    { unfold len. lia. }
    rewrite E.
    destruct r as [ [ | ] | e ]; cbn [fst]; [ by left | by right; left | ].
    apply decode_loop_raises in E; [ | lia ].
    destruct E as [ -> | [ [paint_id ->] | (ob & Hob & He) ] ].
    + by right; right; left.
    + right; right; right; left. by exists paint_id.
    + right; right; right; right. by exists ob, e.
Qed.

(** ** What the encoder does in every case *)

Section EncodeOutcomes.

Implicit Types (st : client) (p : pixel) (tk : token_info).

Lemma struct_pack_H_length v bs :
  struct_pack_H v = Some bs -> length bs = 2%nat /\ 0 <= v < 65536.
Proof.
  unfold struct_pack_H.
  destruct (Z.leb_spec 0 v), (Z.ltb_spec v 65536); cbn [andb]; try discriminate.
  intros [= <-]. split; [ reflexivity | lia ].
Qed.

Lemma struct_pack_I_length v bs :
  struct_pack_I v = Some bs ->
  length bs = 4%nat /\ 0 <= v < 4294967296
  /\ length (slice bs 0 3) = 3%nat.
Proof.
  unfold struct_pack_I.
  destruct (Z.leb_spec 0 v), (Z.ltb_spec v 4294967296); cbn [andb];
    try discriminate.
  intros [= <-]. split; [ reflexivity | ]. split; [ lia | reflexivity ].
Qed.

Lemma struct_pack_H_out_of_range v :
  ~ 0 <= v < 65536 -> struct_pack_H v = None.
Proof.
  intros H. unfold struct_pack_H.
  destruct (Z.leb_spec 0 v), (Z.ltb_spec v 65536); cbn [andb]; (done || lia).
Qed.

Lemma struct_pack_I_out_of_range v :
  ~ 0 <= v < 4294967296 -> struct_pack_I v = None.
Proof.
  intros H. unfold struct_pack_I.
  destruct (Z.leb_spec 0 v), (Z.ltb_spec v 4294967296); cbn [andb];
    (done || lia).
Qed.

Lemma byte_values_Some r g b l :
  byte_values [r; g; b] = Some l ->
  l = [r; g; b] /\ 0 <= r < 256 /\ 0 <= g < 256 /\ 0 <= b < 256.
Proof.
  unfold byte_values. cbn [forallb].
  destruct (Z.leb_spec 0 r), (Z.ltb_spec r 256),
           (Z.leb_spec 0 g), (Z.ltb_spec g 256),
           (Z.leb_spec 0 b), (Z.ltb_spec b 256); cbn [andb]; try discriminate.
  intros [= <-]. repeat split; (done || lia).
Qed.

Lemma byte_values_out_of_range r g b :
  ~ (0 <= r < 256 /\ 0 <= g < 256 /\ 0 <= b < 256) ->
  byte_values [r; g; b] = None.
Proof.
  intros H. destruct (byte_values [r; g; b]) as [ l | ] eqn:E; [ | done ].
  apply byte_values_Some in E. tauto.
Qed.

(** Every way [create_single_paint_data] can go, with what it leaves in
    the state. *)
Lemma create_single_paint_data_cases
    (p : pixel) (tk : token_info) (st : client) :
  let id := paint_id st in
  let st' := snd (create_single_paint_data p tk st) in
  paint_id st' = (id + 1) mod 4294967296
  /\ 0 <= paint_id st' < 4294967296
  /\ tokens st' = tokens st
  /\ current_token_index st' = current_token_index st
  /\ chunks st' = chunks st /\ total_size st' = total_size st
  /\ actual_batch_size st' = actual_batch_size st
  /\ match fst (create_single_paint_data p tk st) with
     | Ok (Some packet) =>
         length packet = 31%nat
         /\ getitem packet 0 = Some 254
         /\ struct_unpack_I (slice packet 27 31) = Some id
         /\ paint_callbacks st'
            = <[id := Pixel.callback_of p]> (paint_callbacks st)
     | Ok None =>
         paint_callbacks st' = paint_callbacks st
         /\ (bytes_fromhex (remove_dashes (token tk)) = None
             \/ exists token_bytes,
                  bytes_fromhex (remove_dashes (token tk)) = Some token_bytes
                  /\ length token_bytes <> 16%nat)
     | Raise e =>
         paint_callbacks st' = paint_callbacks st
         /\ (e = StructError \/ e = ValueError)
     end.
Proof.
  intros id st'. subst st'.
  assert (Hmod : 0 <= (id + 1) mod 4294967296 < 4294967296)
    by (apply Z.mod_pos_bound; lia).
  unfold create_single_paint_data.
  cbv beta iota delta [bind read update ret raise or_raise].
  destruct (bytes_fromhex (remove_dashes (token tk))) as [ token_bytes | ]
    eqn:Hhex; cbv beta iota; cbn [fst snd];
    [ | repeat split; try done; try apply Hmod; by left ].
  destruct (Z.eqb_spec (len token_bytes) 16) as [ Hlen | Hlen ]; cbn [negb];
    cbv beta iota; cbn [fst snd].
  2:{ repeat split; try done; try apply Hmod.
      right. exists token_bytes. split; [ done | ]. unfold len in Hlen. lia. }
  destruct (struct_pack_H (Pixel.x p)) as [ x_bytes | ] eqn:Hx;
    cbv beta iota; cbn [fst snd];
    [ | repeat split; try done; try apply Hmod; by left ].
  destruct (struct_pack_H (Pixel.y p)) as [ y_bytes | ] eqn:Hy;
    cbv beta iota; cbn [fst snd];
    [ | repeat split; try done; try apply Hmod; by left ].
  destruct (byte_values [Pixel.r p; Pixel.g p; Pixel.b p]) as [ rgb | ] eqn:Hrgb;
    cbv beta iota; cbn [fst snd];
    [ | repeat split; try done; try apply Hmod; by right ].
  destruct (struct_pack_I (uid tk)) as [ uid_packed | ] eqn:Huid;
    cbv beta iota; cbn [fst snd];
    [ | repeat split; try done; try apply Hmod; by left ].
  destruct (struct_pack_I (paint_id st)) as [ id_bytes | ] eqn:Hid;
    cbv beta iota; cbn [fst snd];
    [ | repeat split; try done; try apply Hmod; by left ].
  apply struct_pack_H_length in Hx as [Hxl _].
  apply struct_pack_H_length in Hy as [Hyl _].
  apply byte_values_Some in Hrgb as [-> _].
  apply struct_pack_I_length in Huid as (_ & _ & Hul).
  pose proof (struct_unpack_pack_I _ _ Hid) as Hback.
  apply struct_pack_I_length in Hid as (Hil & _ & _).
  assert (Hpl : length ([254] ++ x_bytes ++ y_bytes
                        ++ [Pixel.r p; Pixel.g p; Pixel.b p]
                        ++ slice uid_packed 0 3 ++ token_bytes ++ id_bytes)
                = 31%nat).
  { rewrite !length_app, Hxl, Hyl, Hul, Hil. unfold len in Hlen.
    cbn [length]. lia. }
  assert (Hl : (len ([254] ++ x_bytes ++ y_bytes
                     ++ [Pixel.r p; Pixel.g p; Pixel.b p]
                     ++ slice uid_packed 0 3 ++ token_bytes ++ id_bytes)
                =? 31) = true).
  { apply Z.eqb_eq. unfold len. rewrite Hpl. reflexivity. }
  rewrite Hl. cbn [negb]. cbv beta iota. cbn [fst snd].
  repeat split; try done; try apply Hmod.
  assert (Htl : length token_bytes = 16%nat) by (unfold len in Hlen; lia).
  destruct x_bytes as [ | x0 [ | x1 [ | ] ] ]; try discriminate.
  destruct y_bytes as [ | y0 [ | y1 [ | ] ] ]; try discriminate.
  destruct (slice uid_packed 0 3) as [ | u0 [ | u1 [ | u2 [ | ] ] ] ];
    try discriminate.
  destruct (length_16_inv token_bytes Htl)
    as (a0 & a1 & a2 & a3 & a4 & a5 & a6 & a7 & a8 & a9 & a10 & a11 & a12
        & a13 & a14 & a15 & ->).
  destruct id_bytes as [ | i0 [ | i1 [ | i2 [ | i3 [ | ] ] ] ] ];
    try discriminate.
  exact Hback.
Qed.

End EncodeOutcomes.

(** X6.  [create_single_paint_data] in every case.  The paint-id counter
    moves on by one modulo 2^32 whatever happens, so an id is used up
    also by a packet that is not built; the pool, its cursor and the
    buffer are not touched.  A packet that is returned has 31 bytes,
    starts with [0xFE], ends with the id it was given, and its callback
    entry is stored under that id; [None] is returned only for a token
    that does not convert to sixteen bytes (the length check at the end
    never fires); an exception is a [struct.error] or a [ValueError] of
    a field out of range; and in both of these cases no entry is
    stored. *)
Theorem create_single_paint_data_outcome
    (p : pixel) (tk : token_info) (st : client) :
  let id := paint_id st in
  let st' := snd (create_single_paint_data p tk st) in
  paint_id st' = (id + 1) mod 4294967296
  /\ 0 <= paint_id st' < 4294967296
  /\ tokens st' = tokens st
  /\ current_token_index st' = current_token_index st
  /\ chunks st' = chunks st /\ total_size st' = total_size st
  /\ actual_batch_size st' = actual_batch_size st
  /\ match fst (create_single_paint_data p tk st) with
     | Ok (Some packet) =>
         length packet = 31%nat
         /\ getitem packet 0 = Some 254
         /\ struct_unpack_I (slice packet 27 31) = Some id
         /\ paint_callbacks st'
            = <[id := Pixel.callback_of p]> (paint_callbacks st)
     | Ok None =>
         paint_callbacks st' = paint_callbacks st
         /\ (bytes_fromhex (remove_dashes (token tk)) = None
             \/ exists token_bytes,
                  bytes_fromhex (remove_dashes (token tk)) = Some token_bytes
                  /\ length token_bytes <> 16%nat)
     | Raise e =>
         paint_callbacks st' = paint_callbacks st
         /\ (e = StructError \/ e = ValueError)
     end.
Proof. exact (create_single_paint_data_cases p tk st). Qed.

(** X7.  For a token that converts to sixteen bytes, the encoder builds
    a packet exactly when every field fits its place on the wire: [x]
    and [y] in sixteen bits, [r], [g], [b] in a byte each, the account id
    in thirty-two bits.  The size of the board plays no part in it: the
    encoder itself takes any coordinate below 65536. *)
Theorem create_single_paint_data_accepts
    (p : pixel) (tk : token_info) (st : client) (token_bytes : list Z) :
  bytes_fromhex (remove_dashes (token tk)) = Some token_bytes ->
  length token_bytes = 16%nat ->
  0 <= paint_id st < 4294967296 ->
  (exists packet, fst (create_single_paint_data p tk st) = Ok (Some packet))
  <-> (0 <= Pixel.x p < 65536 /\ 0 <= Pixel.y p < 65536
       /\ (0 <= Pixel.r p < 256 /\ 0 <= Pixel.g p < 256 /\ 0 <= Pixel.b p < 256)
       /\ 0 <= uid tk < 4294967296).
Proof.
  intros Hhex Htl Hid.
  unfold create_single_paint_data.
  cbv beta iota delta [bind read update ret raise or_raise].
  rewrite Hhex. unfold len at 1. rewrite Htl.
  change (Z.of_nat 16 =? 16) with true. cbn [negb]. cbv beta iota.
  rewrite (struct_pack_I_in_range (paint_id st)) by done.
  destruct (struct_pack_H (Pixel.x p)) as [ x_bytes | ] eqn:Hx; cbv beta iota.
  2:{ split; [ by intros [packet [=]] | ].
      intros (Hr & _). by rewrite struct_pack_H_in_range in Hx. }
  destruct (struct_pack_H (Pixel.y p)) as [ y_bytes | ] eqn:Hy; cbv beta iota.
  2:{ split; [ by intros [packet [=]] | ].
      intros (_ & Hr & _). by rewrite struct_pack_H_in_range in Hy. }
  destruct (byte_values [Pixel.r p; Pixel.g p; Pixel.b p]) as [ rgb | ] eqn:Hrgb;
    cbv beta iota.
  2:{ split; [ by intros [packet [=]] | ].
      intros (_ & _ & (Hr & Hg & Hb) & _).
      by rewrite byte_values_in_range in Hrgb. }
  destruct (struct_pack_I (uid tk)) as [ uid_packed | ] eqn:Huid; cbv beta iota.
  2:{ split; [ by intros [packet [=]] | ].
      intros (_ & _ & _ & Hr). by rewrite struct_pack_I_in_range in Huid. }
  apply struct_pack_H_length in Hx as [Hxl Hxr].
  apply struct_pack_H_length in Hy as [Hyl Hyr].
  apply byte_values_Some in Hrgb as [-> Hrgb].
  apply struct_pack_I_length in Huid as (_ & Hur & Hul).
  match goal with
  | |- context [ len ?l =? 31 ] =>
      assert (Hl : (len l =? 31) = true);
      [ apply Z.eqb_eq; unfold len;
        rewrite !length_app, Hxl, Hyl, Hul, Htl; reflexivity
      | rewrite Hl ]
  end.
  cbn [negb]. cbv beta iota. cbn [fst].
  split; [ done | by eexists ].
Qed.

Lemma create_single_paint_data_accepts_witness :
  exists packet,
    fst (create_single_paint_data
           (Pixel.Make 65535 65535 0 0 0 None) Sample.tok_a Sample.ready)
    = Ok (Some packet).
Proof.
  assert (Hrange : forall lo v hi, (lo <=? v) && (v <? hi) = true -> lo <= v < hi)
    by (intros lo v hi H; apply andb_prop in H; lia).
  apply (proj2 (create_single_paint_data_accepts
                  (Pixel.Make 65535 65535 0 0 0 None) Sample.tok_a
                  Sample.ready
                  [143; 20; 228; 95; 206; 234; 70; 127;
                   160; 230; 27; 44; 61; 78; 95; 96]
                  eq_refl eq_refl (Hrange 0 0 4294967296 eq_refl))).
  exact (conj (Hrange 0 65535 65536 eq_refl)
          (conj (Hrange 0 65535 65536 eq_refl)
            (conj (conj (Hrange 0 0 256 eq_refl)
                    (conj (Hrange 0 0 256 eq_refl) (Hrange 0 0 256 eq_refl)))
              (Hrange 0 1048914 4294967296 eq_refl)))).
Defined.

(** ** Batches *)

Section BatchOutcomes.

Implicit Types (st : client) (pixels : list pixel) (acc : list Z).

(** [get_next_token] writes nothing but the cursor. *)
Lemma get_next_token_frame st :
  let st' := snd (get_next_token st) in
  paint_id st' = paint_id st /\ tokens st' = tokens st
  /\ chunks st' = chunks st /\ total_size st' = total_size st
  /\ paint_callbacks st' = paint_callbacks st
  /\ actual_batch_size st' = actual_batch_size st.
Proof.
  unfold get_next_token.
  destruct (tokens st) eqn:Hpool; [ done | ].
  by destruct (getitem (t :: l) (current_token_index st)).
Qed.

(** The loop of a batch that comes to its end: every pixel has used up
    one paint id, and each packet that was built has added 31 bytes
    after the bytes that were there. *)
Lemma create_batch_loop_ok pixels : forall acc k st data k' st',
  0 <= paint_id st < 4294967296 ->
  create_batch_loop pixels acc k st = (Ok (data, k'), st') ->
  k <= k' <= k + len pixels
  /\ len data = len acc + 31 * (k' - k)
  /\ paint_id st' = (paint_id st + len pixels) mod 4294967296
  /\ tokens st' = tokens st
  /\ chunks st' = chunks st /\ total_size st' = total_size st
  /\ actual_batch_size st' = actual_batch_size st.
Proof.
  induction pixels as [ | pixel pixels IH ]; intros acc k st data k' st' Hid.
  - cbn [create_batch_loop]. unfold ret. intros [= <- <- <-].
    change (len (@nil pixel)) with 0.
    rewrite !Z.add_0_r, Z.mod_small by done.
    repeat split; lia.
  - cbn [create_batch_loop]. unfold bind at 1.
    pose proof (get_next_token_frame st) as Hg.
    destruct (get_next_token st) as [[ token_info | e ] s1]; [ | discriminate ].
    cbn [snd] in Hg. destruct Hg as (G1 & G2 & G3 & G4 & _ & G6).
    unfold bind at 1.
    pose proof (create_single_paint_data_cases pixel token_info s1) as Hc.
    destruct (create_single_paint_data pixel token_info s1)
      as [[ paint_data | e ] s2]; [ | discriminate ].
    cbn [fst snd] in Hc. destruct Hc as (C1 & C2 & C3 & _ & C5 & C6 & C8 & C7).
    assert (Hnext : (paint_id s2 + len pixels) mod 4294967296
                    = (paint_id st + len (pixel :: pixels)) mod 4294967296).
    { rewrite C1, G1, len_cons, Zplus_mod_idemp_l. f_equal. lia. }
    pose proof (len_nonneg pixels) as Hn.
    destruct paint_data as [ [ | b d ] | ].
    + destruct C7 as [C7 _]. discriminate.
    + destruct C7 as [C7 _]. intros Hloop.
      apply IH in Hloop as (L1 & L2 & L3 & L4 & L5 & L6 & L7); [ | done ].
      pose proof (len_cons pixel pixels) as Hlc.
      assert (Hd : len (acc ++ b :: d) = len acc + 31).
      { unfold len. rewrite length_app, C7. lia. }
      repeat split; try lia; congruence.
    + intros Hloop.
      apply IH in Hloop as (L1 & L2 & L3 & L4 & L5 & L6 & L7); [ | done ].
      pose proof (len_cons pixel pixels) as Hlc.
      repeat split; try lia; congruence.
Qed.

End BatchOutcomes.

(** X8.  A batch that [create_batch_paint_data] returns was within the
    batch limit and is never empty: it holds 31 bytes for each pixel
    whose packet was built, at least one and at most one per pixel.
    Every pixel of the batch, built or not, has used up one paint id.
    The method only returns the bytes: the aggregation buffer, the pool
    and the batch limit are as before. *)
Theorem create_batch_paint_data_result
    (pixels : list pixel) (st st' : client) (data : list Z) :
  0 <= paint_id st < 4294967296 ->
  create_batch_paint_data pixels st = (Ok data, st') ->
  len pixels <= actual_batch_size st
  /\ (exists built,
        1 <= built <= len pixels /\ len data = 31 * built)
  /\ paint_id st' = (paint_id st + len pixels) mod 4294967296
  /\ tokens st' = tokens st
  /\ chunks st' = chunks st /\ total_size st' = total_size st
  /\ actual_batch_size st' = actual_batch_size st.
Proof.
  intros Hid. unfold create_batch_paint_data, bind at 1, read.
  destruct (Z.gtb_spec (len pixels) (actual_batch_size st)) as [ Hgt | Hle ];
    [ discriminate | ].
  unfold bind, ret, raise.
  destruct (create_batch_loop pixels [] 0 st) as [[ [batch built] | e ] s] eqn:E;
    [ | discriminate ].
  cbn [fst snd].
  destruct (Z.eqb_spec built 0) as [ Hz | Hnz ]; [ discriminate | ].
  intros [= <- <-].
  apply create_batch_loop_ok in E as (L1 & L2 & L3 & L4 & L5 & L6 & L7);
    [ | done ].
  change (len (@nil Z)) with 0 in L2.
  split; [ done | ]. split; [ exists built; lia | done ].
Qed.

Lemma create_batch_paint_data_result_witness :
  let run := create_batch_paint_data [Sample.red_pixel] Sample.ready in
  fst run = Ok Sample.packet
  /\ paint_id (snd run) = 1
  /\ chunks (snd run) = [].
Proof.
  intros run.
  assert (Hrange : forall lo v hi, (lo <=? v) && (v <? hi) = true -> lo <= v < hi)
    by (intros lo v hi H; apply andb_prop in H; lia).
  assert (E : run = (Ok Sample.packet, snd run)) by reflexivity.
  destruct (create_batch_paint_data_result
              [Sample.red_pixel] Sample.ready (snd run) Sample.packet
              (Hrange 0 0 4294967296 eq_refl) E)
    as (_ & _ & Hid & _ & Hchunks & _).
  split; [ reflexivity | ]. split; [ exact Hid | exact Hchunks ].
Defined.

(** ** The aggregation buffer as a queue of bytes *)

Section BufferRoundTrip.

Implicit Types (st : client) (batches : list (list Z)).

Lemma append_data_all_chunks batches : forall st,
  chunks (foldl (fun s batch => append_data batch s) st batches)
  = chunks st ++ batches.
Proof.
  induction batches as [ | batch batches IH ]; intros st; cbn [foldl].
  - by rewrite app_nil_r.
  - rewrite IH. cbn [append_data chunks set_chunks set_total_size].
    by rewrite <- app_assoc.
Qed.

Lemma append_data_all_consistent batches : forall st,
  buffer_consistent st ->
  buffer_consistent (foldl (fun s batch => append_data batch s) st batches).
Proof.
  induction batches as [ | batch batches IH ]; intros st Hc; cbn [foldl];
    [ done | ].
  by apply IH, append_data_consistent.
Qed.

End BufferRoundTrip.

(** X9.  What goes into the aggregation buffer comes out once, whole
    and in order.  From a state whose running size agrees with its
    chunks, after any number of [append_data] the size still agrees;
    [get_merged_data] then returns the bytes that were there followed by
    the appended batches in the order of the calls, and leaves the
    buffer empty, so that the next call returns [None]. *)
Theorem get_merged_data_round_trip (batches : list (list Z)) (st : client) :
  buffer_consistent st ->
  let st1 := foldl (fun s batch => append_data batch s) st batches in
  let st2 := set_chunks [] (set_total_size 0 st1) in
  buffer_consistent st1
  /\ (concat (chunks st) ++ concat batches <> [] ->
      get_merged_data st1
      = (Ok (Some (concat (chunks st) ++ concat batches)), st2)
      /\ get_merged_data st2 = (Ok None, st2)).
Proof.
  intros Hc st1 st2.
  assert (Hc1 : buffer_consistent st1) by by apply append_data_all_consistent.
  split; [ exact Hc1 | ].
  intros Hne.
  assert (Hchunks : concat (chunks st1) = concat (chunks st) ++ concat batches).
  { subst st1. by rewrite append_data_all_chunks, concat_app. }
  split; [ | reflexivity ].
  rewrite get_merged_data_consistent; [ by rewrite Hchunks | done | ].
  unfold buffer_consistent in Hc1. rewrite Hc1, Hchunks. unfold len.
  destruct (concat (chunks st) ++ concat batches); [ done | cbn; lia ].
Qed.

Lemma get_merged_data_round_trip_witness :
  let st1 := append_data [4; 5] (append_data [1; 2; 3] Sample.ready) in
  fst (get_merged_data st1) = Ok (Some [1; 2; 3; 4; 5])
  /\ fst (get_merged_data (snd (get_merged_data st1))) = Ok None.
Proof.
  intros st1.
  assert (Hc : buffer_consistent Sample.ready) by reflexivity.
  assert (Hne : concat (chunks Sample.ready) ++ concat [[1; 2; 3]; [4; 5]] <> [])
    by discriminate.
  destruct (get_merged_data_round_trip [[1; 2; 3]; [4; 5]] Sample.ready Hc)
    as [_ Hrun].
  destruct (Hrun Hne) as [H1 H2].
  split.
  - change (fst (get_merged_data
                   (foldl (fun s batch => append_data batch s) Sample.ready
                      [[1; 2; 3]; [4; 5]]))
            = Ok (Some [1; 2; 3; 4; 5])).
    by rewrite H1.
  - change (get_merged_data st1)
      with (get_merged_data
              (foldl (fun s batch => append_data batch s) Sample.ready
                 [[1; 2; 3]; [4; 5]])).
    rewrite H1. cbn [snd]. by rewrite H2.
Defined.

(** ** What building packets leaves alone *)

Section EncoderFrame.

Implicit Types (st : client) (pixels : list pixel).

Lemma encoder_keeps_refl st : encoder_keeps st st.
Proof. repeat split. exists []. by rewrite app_nil_r. Qed.

Lemma encoder_keeps_trans st1 st2 st3 :
  encoder_keeps st1 st2 -> encoder_keeps st2 st3 -> encoder_keeps st1 st3.
Proof.
  unfold encoder_keeps. intros H1 H2.
  repeat match goal with
         | H : _ /\ _ |- _ => destruct H
         | H : exists _, _ |- _ => destruct H as [? ?]
         end.
  repeat split; try congruence.
  match goal with
  | H1 : trace st2 = _ ++ map Logged ?l1, H2 : trace st3 = _ ++ map Logged ?l2
    |- _ => exists (l1 ++ l2); by rewrite H2, H1, map_app, app_assoc
  end.
Qed.

Lemma encoder_keeps_log l st : encoder_keeps st (log l st).
Proof. repeat split. by exists [l]. Qed.

(** A setter of one of the three fields the encoder writes. *)
Lemma encoder_keeps_writes st st' :
  tokens st' = tokens st -> batch_size st' = batch_size st ->
  cool_down_time st' = cool_down_time st ->
  actual_batch_size st' = actual_batch_size st ->
  last_batch_time st' = last_batch_time st ->
  batch_queue st' = batch_queue st -> packet_count st' = packet_count st ->
  last_reset_time st' = last_reset_time st ->
  chunks st' = chunks st -> total_size st' = total_size st ->
  is_drawing_image st' = is_drawing_image st -> ws st' = ws st ->
  ws_connected st' = ws_connected st -> running st' = running st ->
  trace st' = trace st ->
  encoder_keeps st st'.
Proof.
  intros. repeat split; try done. exists []. by rewrite app_nil_r.
Qed.

Lemma omap_logged {B} (f : event -> option B) (lines : list log_line) :
  (forall l, f (Logged l) = None) -> omap f (map Logged lines) = [].
Proof.
  intros Hf. induction lines as [ | l lines IH ]; [ done | ].
  csimpl. by rewrite Hf.
Qed.

(** Printing does not send, call or resolve. *)
Lemma encoder_keeps_effects st st' :
  encoder_keeps st st' ->
  frames_sent st' = frames_sent st /\ calls_made st' = calls_made st
  /\ futures_resolved st' = futures_resolved st.
Proof.
  unfold encoder_keeps. intros H.
  repeat match goal with
         | H : _ /\ _ |- _ => destruct H
         | H : exists _, _ |- _ => destruct H as [lines Htrace]
         end.
  unfold frames_sent, calls_made, futures_resolved. rewrite Htrace, !omap_app.
  rewrite !omap_logged by done. by rewrite !app_nil_r.
Qed.

Lemma encoder_keeps_get_next_token st :
  encoder_keeps st (snd (get_next_token st)).
Proof.
  unfold get_next_token.
  destruct (tokens st) eqn:Hpool; [ apply encoder_keeps_refl | ].
  destruct (getitem (t :: l) (current_token_index st));
    [ by apply encoder_keeps_writes | apply encoder_keeps_refl ].
Qed.

Lemma encoder_keeps_create_single_paint_data p tk st :
  encoder_keeps st (snd (create_single_paint_data p tk st)).
Proof.
  unfold create_single_paint_data.
  cbv beta iota delta [bind read update ret raise or_raise].
  repeat case_match; simplify_eq; cbn [snd];
    try (by apply encoder_keeps_writes);
    (eapply encoder_keeps_trans; [ | apply encoder_keeps_log ];
     by apply encoder_keeps_writes).
Qed.

Lemma encoder_keeps_create_batch_loop pixels : forall acc k st,
  encoder_keeps st (snd (create_batch_loop pixels acc k st)).
Proof.
  induction pixels as [ | pixel pixels IH ]; intros acc k st;
    cbn [create_batch_loop]; [ apply encoder_keeps_refl | ].
  unfold bind at 1.
  pose proof (encoder_keeps_get_next_token st) as Hg.
  destruct (get_next_token st) as [[ token_info | e ] s1]; cbn [snd] in *;
    [ | exact Hg ].
  unfold bind at 1.
  pose proof (encoder_keeps_create_single_paint_data pixel token_info s1) as Hc.
  destruct (create_single_paint_data pixel token_info s1)
    as [[ paint_data | e ] s2]; cbn [snd] in *;
    [ | by eapply encoder_keeps_trans ].
  eapply encoder_keeps_trans; [ by eapply encoder_keeps_trans | ].
  destruct paint_data as [ [ | b d ] | ]; apply IH.
Qed.

Lemma encoder_keeps_create_batch_paint_data pixels st :
  encoder_keeps st (snd (create_batch_paint_data pixels st)).
Proof.
  unfold create_batch_paint_data, bind at 1, read.
  destruct (len pixels >? actual_batch_size st); [ apply encoder_keeps_refl | ].
  unfold bind, ret, raise.
  pose proof (encoder_keeps_create_batch_loop pixels [] 0 st) as Hl.
  destruct (create_batch_loop pixels [] 0 st) as [[ out | e ] s];
    cbn [snd] in *; [ | exact Hl ].
  by destruct (snd out =? 0).
Qed.

End EncoderFrame.

(** X10.  Building a batch writes the token cursor, the paint-id
    counter and the pending map, and prints; it does nothing else.  In
    every outcome of [create_batch_paint_data], failures included, the
    pool, the limits, the cooldown stamp, the batch queue, the
    aggregation buffer, the frame counter and the connection are as
    before, no frame has been sent and no callback called. *)
Theorem create_batch_paint_data_keeps (pixels : list pixel) (st : client) :
  let st' := snd (create_batch_paint_data pixels st) in
  encoder_keeps st st'
  /\ frames_sent st' = frames_sent st /\ calls_made st' = calls_made st
  /\ futures_resolved st' = futures_resolved st.
Proof.
  intros st'.
  pose proof (encoder_keeps_create_batch_paint_data pixels st) as Hk.
  split; [ exact Hk | by apply encoder_keeps_effects ].
Qed.

(** ** Cooldown and dispatch *)

(** X11.  The two readings of the cooldown agree: a batch is cooling
    down exactly when a positive time remains; the remaining time is
    never negative and never more than the whole cooldown once the
    clock has passed the last batch; after waiting that long the
    cooldown is over, and it stays over while no batch is stamped. *)
Theorem cooldown_remaining (now : Z) (st : client) :
  (is_batch_cooling_down now st = true
   <-> 0 < get_remaining_batch_cool_down now st)
  /\ 0 <= get_remaining_batch_cool_down now st
  /\ (last_batch_time st <= now ->
      get_remaining_batch_cool_down now st <= Z.max 0 (cool_down_time st))
  /\ is_batch_cooling_down
       (now + get_remaining_batch_cool_down now st) st = false
  /\ (forall later, now <= later ->
      is_batch_cooling_down now st = false ->
      is_batch_cooling_down later st = false).
Proof.
  unfold is_batch_cooling_down, get_remaining_batch_cool_down.
  repeat split.
  - intros H. apply Z.ltb_lt in H. lia.
  - intros H. apply Z.ltb_lt. lia.
  - lia.
  - lia.
  - apply Z.ltb_ge. lia.
  - intros later Hle H. apply Z.ltb_ge in H. apply Z.ltb_ge. lia.
Qed.

Lemma cooldown_remaining_witness :
  get_remaining_batch_cool_down 5500 (set_last_batch_time 5000 Sample.ready)
  = 645
  /\ is_batch_cooling_down 6145 (set_last_batch_time 5000 Sample.ready) = false
  /\ is_batch_cooling_down 7000 (set_last_batch_time 5000 Sample.ready) = false.
Proof.
  assert (Hle : forall a b, (a <=? b) = true -> a <= b) by (intros; lia).
  destruct (cooldown_remaining 5500 (set_last_batch_time 5000 Sample.ready))
    as (_ & _ & _ & Hover & _).
  destruct (cooldown_remaining 6145 (set_last_batch_time 5000 Sample.ready))
    as (_ & _ & _ & _ & Hstays).
  split; [ reflexivity | ]. split; [ exact Hover | ].
  exact (Hstays 7000 (Hle 6145 7000 eq_refl) Hover).
Defined.

Section Dispatch.

Implicit Types (st : client) (operation : batch_operation).

Lemma futures_resolved_emit_resolved f ok st :
  futures_resolved (emit (Resolved f ok) st) = futures_resolved st ++ [(f, ok)].
Proof. unfold futures_resolved, emit. cbn. by rewrite omap_app. Qed.

Lemma futures_resolved_log l st :
  futures_resolved (log l st) = futures_resolved st.
Proof.
  unfold futures_resolved, log, emit. cbn. by rewrite omap_app, app_nil_r.
Qed.

Lemma futures_resolved_resolve_future future ok st :
  futures_resolved (resolve_future future ok st)
  = futures_resolved st ++ resolution future ok.
Proof.
  destruct future; cbn [resolve_future resolution];
    [ apply futures_resolved_emit_resolved | by rewrite app_nil_r ].
Qed.

Lemma frames_sent_resolve_future future ok st :
  frames_sent (resolve_future future ok st) = frames_sent st.
Proof.
  destruct future; cbn [resolve_future]; [ | done ].
  by apply frames_sent_emit_other.
Qed.

(** A round of the processor either leaves the client alone or takes
    the head of the queue and answers its callback once; it sends
    nothing, and it takes nothing unless the socket is connected. *)
Lemma process_batches_step_cases now later st :
  process_batches_step now later st = st
  \/ exists operation rest ok,
       batch_queue st = operation :: rest
       /\ batch_queue (process_batches_step now later st) = rest
       /\ futures_resolved (process_batches_step now later st)
          = futures_resolved st ++ resolution (op_future operation) ok
       /\ frames_sent (process_batches_step now later st) = frames_sent st
       /\ sock_connected st = true.
Proof.
  unfold process_batches_step.
  destruct (batch_queue st) as [ | operation rest ] eqn:Hq; [ by left | ].
  destruct (is_batch_cooling_down now st); [ by left | ].
  destruct (sock_connected st) eqn:Hsock; [ | by left ].
  cbn [negb andb]. right.
  unfold execute_batch_paint_operation.
  set (st0 := set_batch_queue rest st).
  pose proof (encoder_keeps_create_batch_paint_data (op_pixels operation) st0)
    as Hk.
  destruct (create_batch_paint_data (op_pixels operation) st0)
    as [[ data | e ] s1]; cbn [snd] in Hk;
    destruct (encoder_keeps_effects _ _ Hk) as (Hf & _ & Hr);
    destruct Hk as (_ & _ & _ & _ & _ & Kqueue & _).
  - exists operation, rest, true. split; [ done | ].
    split; [ by destruct (op_future operation) | ].
    split; [ | split; [ | done ] ].
    + rewrite futures_resolved_resolve_future.
      change (futures_resolved (set_last_batch_time later (append_data data s1)))
        with (futures_resolved s1).
      by rewrite Hr.
    + rewrite frames_sent_resolve_future.
      change (frames_sent (set_last_batch_time later (append_data data s1)))
        with (frames_sent s1).
      exact Hf.
  - exists operation, rest, false. split; [ done | ].
    split; [ by destruct (op_future operation) | ].
    split; [ | split; [ | done ] ].
    + by rewrite futures_resolved_resolve_future, futures_resolved_log, Hr.
    + by rewrite frames_sent_resolve_future, frames_sent_log, Hf.
Qed.

Lemma resolve_future_fields future ok st :
  let st' := resolve_future future ok st in
  batch_queue st' = batch_queue st /\ chunks st' = chunks st
  /\ total_size st' = total_size st
  /\ last_batch_time st' = last_batch_time st
  /\ cool_down_time st' = cool_down_time st
  /\ paint_callbacks st' = paint_callbacks st.
Proof. by destruct future. Qed.

End Dispatch.

(** X12.  The batch processor serves the queue in order.  Over any
    number of rounds, at whatever times, the operations it has taken are
    a front part of the queue: each of them had its callback called
    exactly once, in queue order, none was skipped, and the rest of the
    queue is as it was.  The thread itself never sends a frame, and it
    takes nothing once [running] is false or while the socket is not
    connected. *)
Theorem process_batches_run_fifo (rounds : list (Z * Z)) (st : client) :
  let st' := process_batches_run rounds st in
  (exists (taken : nat) (answers : list bool),
     batch_queue st' = drop taken (batch_queue st)
     /\ (taken <= length (batch_queue st))%nat
     /\ length answers = taken
     /\ futures_resolved st'
        = futures_resolved st
          ++ concat (zip_with resolution
                       (op_future <$> take taken (batch_queue st)) answers))
  /\ frames_sent st' = frames_sent st
  /\ (running st = false \/ sock_connected st = false -> st' = st).
Proof.
  intros st'. subst st'. revert st.
  induction rounds as [ | [now later] rounds IH ]; intros st;
    cbn [process_batches_run].
  { split; [ | by split ].
    exists 0%nat, []. rewrite drop_0. cbn. rewrite app_nil_r.
    repeat split; (done || lia). }
  destruct (running st) eqn:Hrunning.
  2:{ split; [ | by split ].
      exists 0%nat, []. rewrite drop_0. cbn. rewrite app_nil_r.
      repeat split; (done || lia). }
  destruct (IH (process_batches_step now later st))
    as ((taken & answers & Hqueue & Hle & Hlen & Hres) & Hframes & Hidle).
  destruct (process_batches_step_cases now later st)
    as [ Hsame | (operation & rest & ok & Hq & Hq1 & Hres1 & Hframes1 & Hsock) ].
  - rewrite Hsame in *.
    split; [ by exists taken, answers | ]. split; [ done | ].
    intros [ Hstopped | Hdown ]; [ congruence | ]. apply Hidle. by right.
  - split; [ | split ].
    + exists (S taken), (ok :: answers). rewrite Hq.
      rewrite Hq1 in Hqueue, Hle, Hres. cbn [drop take length fmap list_fmap].
      split; [ exact Hqueue | ]. split; [ lia | ]. split; [ cbn; lia | ].
      rewrite Hres, Hres1, <- app_assoc. reflexivity.
    + by rewrite Hframes, Hframes1.
    + intros [ Hstopped | Hdown ]; congruence.
Qed.

Lemma process_batches_run_fifo_witness :
  let first := BatchOperation [Sample.red_pixel] (Some 1%nat) in
  let second := BatchOperation [Sample.red_pixel] (Some 2%nat) in
  let st := set_batch_queue [first; second] Sample.ready in
  let st' := process_batches_run [(5000, 5001); (5010, 5011); (7000, 7001)] st in
  batch_queue st' = []
  /\ futures_resolved st' = [(1%nat, true); (2%nat, true)]
  /\ frames_sent st' = [].
Proof.
  intros first second st st'.
  destruct (process_batches_run_fifo
              [(5000, 5001); (5010, 5011); (7000, 7001)] st)
    as (_ & Hframes & _).
  split; [ reflexivity | ]. split; [ reflexivity | exact Hframes ].
Defined.

(** X13.  A round of [process_batches] that finds the gate open takes
    the operation at the head of the queue, and that operation is gone
    from the queue whether or not its batch could be built: a batch that
    fails is reported to its callback and not tried again.  A batch that
    was built is appended to the aggregation buffer (nothing is sent by
    this thread), the cooldown is stamped, the callback hears success,
    and until the cooldown has run no further round dispatches
    anything.  A batch that failed leaves the buffer and the cooldown
    stamp as they were, so the next operation can go at once. *)
Theorem process_batches_step_dispatch
    (now later : Z) (st : client) (operation : batch_operation)
    (rest : list batch_operation) :
  batch_queue st = operation :: rest ->
  is_batch_cooling_down now st = false ->
  sock_connected st = true ->
  let st' := process_batches_step now later st in
  batch_queue st' = rest
  /\ frames_sent st' = frames_sent st
  /\ match fst (create_batch_paint_data (op_pixels operation)
                  (set_batch_queue rest st)) with
     | Ok data =>
         chunks st' = chunks st ++ [data]
         /\ total_size st' = total_size st + len data
         /\ last_batch_time st' = later
         /\ futures_resolved st'
            = futures_resolved st ++ resolution (op_future operation) true
         /\ (forall t t', t < later + cool_down_time st ->
             process_batches_step t t' st' = st')
     | Raise e =>
         chunks st' = chunks st
         /\ total_size st' = total_size st
         /\ last_batch_time st' = last_batch_time st
         /\ futures_resolved st'
            = futures_resolved st ++ resolution (op_future operation) false
     end.
Proof.
  intros Hq Hcool Hsock st'. subst st'.
  unfold process_batches_step. rewrite Hq, Hcool, Hsock. cbn [negb andb].
  unfold execute_batch_paint_operation.
  set (st0 := set_batch_queue rest st).
  pose proof (encoder_keeps_create_batch_paint_data (op_pixels operation) st0)
    as Hk.
  destruct (create_batch_paint_data (op_pixels operation) st0)
    as [[ data | e ] s1]; cbn [fst snd] in *;
    destruct (encoder_keeps_effects _ _ Hk) as (Hf & _ & Hr);
    destruct Hk as (_ & _ & Kcool & _ & Klast & Kqueue & _ & _ & Kchunks
                    & Ktotal & _);
    change (batch_queue st0) with rest in Kqueue;
    change (chunks st0) with (chunks st) in Kchunks;
    change (total_size st0) with (total_size st) in Ktotal;
    change (last_batch_time st0) with (last_batch_time st) in Klast;
    change (cool_down_time st0) with (cool_down_time st) in Kcool;
    change (frames_sent st0) with (frames_sent st) in Hf;
    change (futures_resolved st0) with (futures_resolved st) in Hr.
  - set (s2 := set_last_batch_time later (append_data data s1)).
    destruct (resolve_future_fields (op_future operation) true s2)
      as (R1 & R2 & R3 & R4 & R5 & _).
    cbv zeta in R1, R2, R3, R4, R5.
    split; [ by rewrite R1 | ].
    split.
    { rewrite frames_sent_resolve_future.
      change (frames_sent s2) with (frames_sent s1). exact Hf. }
    split; [ rewrite R2; subst s2; cbn; by rewrite Kchunks | ].
    split; [ rewrite R3; subst s2; cbn; by rewrite Ktotal | ].
    split; [ by rewrite R4 | ].
    split.
    { rewrite futures_resolved_resolve_future.
      change (futures_resolved s2) with (futures_resolved s1).
      by rewrite Hr. }
    intros t t' Ht. unfold process_batches_step.
    destruct (batch_queue (resolve_future (op_future operation) true s2));
      [ done | ].
    unfold is_batch_cooling_down. rewrite R4, R5.
    change (last_batch_time s2) with later.
    change (cool_down_time s2) with (cool_down_time s1). rewrite Kcool.
    destruct (Z.ltb_spec (t - later) (cool_down_time st)); [ done | lia ].
  - set (s2 := log (LogBatchError e) s1).
    destruct (resolve_future_fields (op_future operation) false s2)
      as (R1 & R2 & R3 & R4 & _).
    cbv zeta in R1, R2, R3, R4.
    split; [ by rewrite R1 | ].
    split.
    { rewrite frames_sent_resolve_future. subst s2.
      by rewrite frames_sent_log. }
    split; [ by rewrite R2 | ].
    split; [ by rewrite R3 | ].
    split; [ by rewrite R4 | ].
    rewrite futures_resolved_resolve_future. subst s2.
    by rewrite futures_resolved_log, Hr.
Qed.

Lemma process_batches_step_dispatch_witness :
  let st :=
    set_batch_queue [BatchOperation [Sample.red_pixel] (Some 7%nat)]
      Sample.ready in
  let st' := process_batches_step 5000 5001 st in
  batch_queue st' = []
  /\ chunks st' = [Sample.packet]
  /\ futures_resolved st' = [(7%nat, true)]
  /\ process_batches_step 6000 6001 st' = st'.
Proof.
  intros st st'.
  pose proof (process_batches_step_dispatch 5000 5001 st
                (BatchOperation [Sample.red_pixel] (Some 7%nat)) []
                eq_refl eq_refl eq_refl) as H.
  cbv zeta in H. destruct H as (Hqueue & _ & H).
  assert (E : fst (create_batch_paint_data
                     (op_pixels (BatchOperation [Sample.red_pixel] (Some 7%nat)))
                     (set_batch_queue [] st))
              = Ok Sample.packet) by reflexivity.
  rewrite E in H. destruct H as (Hchunks & _ & _ & Hresolved & Hquiet).
  split; [ exact Hqueue | ]. split; [ exact Hchunks | ].
  split; [ exact Hresolved | ].
  apply Hquiet. reflexivity.
Defined.

(** ** Submission *)

Section Submission.

Implicit Types (st : client) (pixels : list pixel).

(** The coordinate loop passes exactly the batches that lie on the
    board, and otherwise names the first pixel that does not. *)
Lemma check_coordinates_None pixels :
  check_coordinates pixels = None
  <-> Forall (fun p => is_coordinate_valid (Pixel.x p) (Pixel.y p) = true) pixels.
Proof.
  induction pixels as [ | p pixels IH ]; cbn [check_coordinates].
  - split; [ constructor | done ].
  - destruct (is_coordinate_valid (Pixel.x p) (Pixel.y p)) eqn:E.
    + rewrite IH. split; [ by constructor | by inversion 1 ].
    + split; [ discriminate | ]. inversion 1; congruence.
Qed.

Lemma check_coordinates_Some pixels e :
  check_coordinates pixels = Some e ->
  exists before p after,
    pixels = before ++ p :: after
    /\ Forall (fun p => is_coordinate_valid (Pixel.x p) (Pixel.y p) = true) before
    /\ is_coordinate_valid (Pixel.x p) (Pixel.y p) = false
    /\ e = CoordinateOffBoard (Pixel.x p) (Pixel.y p).
Proof.
  induction pixels as [ | p pixels IH ]; cbn [check_coordinates];
    [ discriminate | ].
  destruct (is_coordinate_valid (Pixel.x p) (Pixel.y p)) eqn:E.
  - intros H. destruct (IH H) as (before & q & after & -> & Hb & Hq & ->).
    exists (p :: before), q, after. repeat split; try done. by constructor.
  - intros [= <-]. exists [], p, pixels. repeat split; try done.
Qed.

End Submission.

(** X14.  [paint_batch_simple] in every case.  It raises, with the
    client untouched, exactly when the connection is read-only, or the
    client is not initialised, or the WebSocket is not connected, or a
    pixel lies off the 1000 x 600 board, and then the error names the
    first such pixel.  Otherwise it returns a dict: with success, the
    batch that [create_batch_paint_data] built has been appended to the
    aggregation buffer and the cooldown stamped with the time of the
    call; with failure (the exception of the builder, turned into a
    message), buffer and stamp are as before.  In no case does the
    method itself send a frame. *)
Theorem paint_batch_simple_outcomes
    (readonly initialized : bool) (now : Z) (pixels : list pixel)
    (st : client) :
  let st' := snd (paint_batch_simple readonly initialized now pixels st) in
  let on_board :=
    Forall (fun p => is_coordinate_valid (Pixel.x p) (Pixel.y p) = true) in
  frames_sent st' = frames_sent st
  /\ match fst (paint_batch_simple readonly initialized now pixels st) with
     | inl e =>
         st' = st
         /\ match e with
            | ReadOnlyConnection => readonly = true
            | NotInitialized => readonly = false /\ initialized = false
            | WebSocketNotConnected =>
                readonly = false /\ initialized = true
                /\ ws_connected st = false
            | CoordinateOffBoard x y =>
                readonly = false /\ initialized = true
                /\ ws_connected st = true
                /\ exists before p after,
                     pixels = before ++ p :: after /\ on_board before
                     /\ is_coordinate_valid (Pixel.x p) (Pixel.y p) = false
                     /\ x = Pixel.x p /\ y = Pixel.y p
            end
     | inr outcome =>
         readonly = false /\ initialized = true /\ ws_connected st = true
         /\ on_board pixels
         /\ match outcome with
            | None =>
                exists data,
                  fst (create_batch_paint_data pixels st) = Ok data
                  /\ chunks st' = chunks st ++ [data]
                  /\ total_size st' = total_size st + len data
                  /\ last_batch_time st' = now
            | Some error =>
                fst (create_batch_paint_data pixels st) = Raise error
                /\ chunks st' = chunks st
                /\ total_size st' = total_size st
                /\ last_batch_time st' = last_batch_time st
            end
     end.
Proof.
  intros st' on_board. subst st' on_board. unfold paint_batch_simple.
  destruct readonly; [ done | ].
  destruct initialized; cbn [negb]; [ | done ].
  destruct (ws_connected st) eqn:Hconn; cbn [negb]; [ | done ].
  destruct (check_coordinates pixels) as [ e | ] eqn:Hcheck.
  { cbn [fst snd]. split; [ done | ]. split; [ done | ].
    destruct (check_coordinates_Some pixels e Hcheck)
      as (before & p & after & Hsplit & Hb & Hp & ->).
    repeat split. by exists before, p, after. }
  apply check_coordinates_None in Hcheck.
  pose proof (encoder_keeps_create_batch_paint_data pixels st) as Hk.
  destruct (create_batch_paint_data pixels st) as [[ data | error ] s1];
    cbn [fst snd] in *;
    destruct (encoder_keeps_effects _ _ Hk) as (Hf & _ & _);
    destruct Hk as (_ & _ & _ & _ & Klast & _ & _ & _ & Kchunks & Ktotal & _).
  - split; [ exact Hf | ]. repeat split; try done.
    exists data. split; [ done | ]. cbn. by rewrite Kchunks, Ktotal.
  - split; [ exact Hf | ]. by repeat split.
Qed.

Section CooldownBlind.

Implicit Types (st : client) (pixels : list pixel) (t : Z).

(** The builder does not read the cooldown stamp. *)
Lemma get_next_token_last_batch_time t st :
  get_next_token (set_last_batch_time t st)
  = (fst (get_next_token st), set_last_batch_time t (snd (get_next_token st))).
Proof.
  unfold get_next_token.
  change (tokens (set_last_batch_time t st)) with (tokens st).
  change (current_token_index (set_last_batch_time t st))
    with (current_token_index st).
  destruct (tokens st) eqn:Hpool; [ done | ].
  by destruct (getitem (t0 :: l) (current_token_index st)).
Qed.

Lemma create_single_paint_data_last_batch_time t p tk st :
  create_single_paint_data p tk (set_last_batch_time t st)
  = (fst (create_single_paint_data p tk st),
     set_last_batch_time t (snd (create_single_paint_data p tk st))).
Proof.
  unfold create_single_paint_data.
  cbv beta iota delta [bind read update ret raise or_raise].
  change (paint_id (set_last_batch_time t st)) with (paint_id st).
  repeat case_match; simplify_eq; (reflexivity || congruence).
Qed.

(** Sequencing keeps that independence. *)
Lemma bind_last_batch_time {A B} t (m : M A) (k : A -> M B) st :
  (forall s, m (set_last_batch_time t s)
             = (fst (m s), set_last_batch_time t (snd (m s)))) ->
  (forall a s, k a (set_last_batch_time t s)
               = (fst (k a s), set_last_batch_time t (snd (k a s)))) ->
  bind m k (set_last_batch_time t st)
  = (fst (bind m k st), set_last_batch_time t (snd (bind m k st))).
Proof.
  intros Hm Hk. unfold bind. rewrite Hm.
  destruct (m st) as [[ a | e ] s]; cbn [fst snd]; [ apply Hk | done ].
Qed.

Lemma create_batch_loop_last_batch_time t pixels : forall acc k st,
  create_batch_loop pixels acc k (set_last_batch_time t st)
  = (fst (create_batch_loop pixels acc k st),
     set_last_batch_time t (snd (create_batch_loop pixels acc k st))).
Proof.
  induction pixels as [ | pixel pixels IH ]; intros acc k st;
    cbn [create_batch_loop]; [ done | ].
  apply bind_last_batch_time;
    [ intros s; apply get_next_token_last_batch_time | ].
  intros token_info s. apply bind_last_batch_time;
    [ intros s'; apply create_single_paint_data_last_batch_time | ].
  intros [ [ | b d ] | ] s'; apply IH.
Qed.

Lemma create_batch_paint_data_last_batch_time t pixels st :
  create_batch_paint_data pixels (set_last_batch_time t st)
  = (fst (create_batch_paint_data pixels st),
     set_last_batch_time t (snd (create_batch_paint_data pixels st))).
Proof.
  unfold create_batch_paint_data, bind, read, ret, raise.
  change (actual_batch_size (set_last_batch_time t st))
    with (actual_batch_size st).
  destruct (len pixels >? actual_batch_size st); [ done | ].
  rewrite create_batch_loop_last_batch_time.
  destruct (create_batch_loop pixels [] 0 st) as [[ out | e ] s]; cbn [fst snd];
    [ | done ].
  by destruct (snd out =? 0).
Qed.

End CooldownBlind.

(** X15.  [paint_batch_simple] does not wait for the cooldown: its
    outcome is the same whatever the time of the last batch, and after a
    batch it has accepted, the client is the same too.  So a second
    batch submitted this way while the first one is cooling down is
    built and buffered like the first, whereas a batch queued with
    [paint_batch] is held by [process_batches] until the cooldown is
    over. *)
Theorem paint_batch_simple_ignores_cooldown
    (readonly initialized : bool) (now t : Z) (pixels : list pixel)
    (st : client) :
  let hot := paint_batch_simple readonly initialized now pixels
               (set_last_batch_time t st) in
  let cold := paint_batch_simple readonly initialized now pixels st in
  fst hot = fst cold
  /\ (fst cold = inr None -> snd hot = snd cold).
Proof.
  intros hot cold. subst hot cold. unfold paint_batch_simple.
  change (ws_connected (set_last_batch_time t st)) with (ws_connected st).
  destruct readonly; [ done | ].
  destruct initialized; cbn [negb]; [ | done ].
  destruct (ws_connected st); cbn [negb]; [ | done ].
  destruct (check_coordinates pixels); [ done | ].
  rewrite create_batch_paint_data_last_batch_time.
  destruct (create_batch_paint_data pixels st) as [[ data | error ] s1];
    cbn [fst snd]; done.
Qed.

Lemma paint_batch_simple_ignores_cooldown_witness :
  is_batch_cooling_down 5000 (set_last_batch_time 4999 Sample.ready) = true
  /\ snd (paint_batch_simple false true 5000 [Sample.red_pixel]
            (set_last_batch_time 4999 Sample.ready))
     = snd (paint_batch_simple false true 5000 [Sample.red_pixel] Sample.ready).
Proof.
  split; [ reflexivity | ].
  exact (proj2 (paint_batch_simple_ignores_cooldown false true 5000 4999
                  [Sample.red_pixel] Sample.ready) eq_refl).
Defined.

(** X16.  [paint_batch] does not ask whether the WebSocket is
    connected.  On any client, connected or not, a batch that lies on
    the board is accepted when the connection is not read-only and the
    client is initialised: the operation is put at the end of the
    queue, behind those already there, and the client is otherwise
    exactly as it was; [paint_batch_simple] refuses the same batch when
    the connection flag is down.  While the socket is not connected no
    round of [process_batches] takes the operation.  [close] and
    [cancel_image_draw] empty the queue without resolving any future,
    after which no round finds anything to dispatch, so the awaiting
    caller is never answered. *)
Theorem paint_batch_future_abandoned
    (future : nat) (now : Z) (pixels : list pixel) (st : client) :
  Forall (fun p => is_coordinate_valid (Pixel.x p) (Pixel.y p) = true) pixels ->
  let st1 :=
    set_batch_queue
      (batch_queue st ++ [BatchOperation pixels (Some future)]) st in
  paint_batch false true future pixels st = (None, st1)
  /\ (ws_connected st = false ->
      paint_batch_simple false true now pixels st
      = (inl WebSocketNotConnected, st))
  /\ (sock_connected st = false ->
      forall t t', process_batches_step t t' st1 = st1)
  /\ forall st2, st2 = close st1 \/ st2 = cancel_image_draw st1 ->
       batch_queue st2 = []
       /\ futures_resolved st2 = futures_resolved st
       /\ forall t t', process_batches_step t t' st2 = st2.
Proof.
  intros Hboard st1. apply check_coordinates_None in Hboard.
  split; [ | split; [ | split ] ].
  - unfold paint_batch. cbn [negb]. by rewrite Hboard.
  - intros Hdown. unfold paint_batch_simple. cbn [negb]. by rewrite Hdown.
  - intros Hdown t t'. unfold process_batches_step.
    change (sock_connected st1) with (sock_connected st). rewrite Hdown.
    destruct (batch_queue st1); [ done | by rewrite andb_false_r ].
  - intros st2 Hst2.
    assert (Hq : batch_queue st2 = []).
    { destruct Hst2 as [ -> | -> ]; [ | done ]. unfold close. by destruct (ws _). }
    split; [ exact Hq | ]. split.
    + destruct Hst2 as [ -> | -> ]; [ | done ].
      unfold close. destruct (ws _); [ | done ].
      unfold futures_resolved, emit. cbn. by rewrite omap_app, app_nil_r.
    + intros t t'. unfold process_batches_step. by rewrite Hq.
Qed.

Lemma paint_batch_future_abandoned_witness :
  let st := init 10 1145 0 in
  let st1 :=
    set_batch_queue [BatchOperation [Sample.red_pixel] (Some 7%nat)] st in
  ws_connected st = false
  /\ paint_batch false true 7 [Sample.red_pixel] st = (None, st1)
  /\ fst (paint_batch_simple false true 5000 [Sample.red_pixel] st)
     = inl WebSocketNotConnected
  /\ process_batches_step 5000 5001 st1 = st1
  /\ batch_queue (close st1) = []
  /\ futures_resolved (close st1) = [].
Proof.
  intros st st1.
  assert (Hboard : Forall (fun p => is_coordinate_valid (Pixel.x p) (Pixel.y p)
                                    = true) [Sample.red_pixel])
    by (repeat constructor).
  destruct (paint_batch_future_abandoned 7 5000 [Sample.red_pixel] st Hboard)
    as (Haccepted & Hsimple & Hwaits & Hclose).
  destruct (Hclose (close st1) (or_introl eq_refl)) as (Hempty & Hres & _).
  split; [ reflexivity | ]. split; [ exact Haccepted | ].
  split; [ by rewrite (Hsimple eq_refl) | ].
  split; [ exact (Hwaits eq_refl 5000 5001) | ].
  split; [ exact Hempty | exact Hres ].
Defined.

(** ** The token pool from any cursor *)

(** X17.  From any cursor inside the pool, as many calls of
    [get_next_token] as the pool has tokens return every token once:
    first the tokens from the cursor to the end of the pool, then those
    before the cursor, each in pool order; and the client is then
    exactly as it was, cursor included. *)
Theorem get_next_token_rotation (st : client) (c : nat) :
  current_token_index st = Z.of_nat c ->
  (c < length (tokens st))%nat ->
  get_next_token_n (length (tokens st)) st
  = (Ok (drop c (tokens st) ++ take c (tokens st)), st).
Proof.
  intros Hc Hlt.
  set (n := length (tokens st)).
  replace n with ((n - c) + c)%nat at 1 by lia.
  rewrite get_next_token_n_add.
  destruct (n - c)%nat as [ | m ] eqn:Hm; [ lia | ].
  rewrite (get_next_token_n_lap m st c Hc) by (fold n; lia).
  rewrite take_ge by (rewrite length_drop; fold n; lia).
  replace (Z.of_nat (c + S m) mod len (tokens st)) with 0
    by (unfold len; fold n; replace (c + S m)%nat with n by lia;
        by rewrite Z.mod_same by lia).
  destruct c as [ | c' ].
  - cbn [get_next_token_n ret]. rewrite take_0.
    change (Z.of_nat 0) with 0 in Hc.
    rewrite <- Hc. by rewrite set_current_token_index_same.
  - set (st0 := set_current_token_index 0 st).
    rewrite (get_next_token_n_lap c' st0 0%nat); [ | done | subst st0; cbn; fold n; lia ].
    subst st0. cbn [tokens set_current_token_index]. rewrite drop_0.
    rewrite set_current_token_index_twice.
    replace (Z.of_nat (0 + S c') mod len (tokens st)) with (current_token_index st)
      by (rewrite Hc; unfold len; fold n; rewrite Z.mod_small; lia).
    by rewrite set_current_token_index_same.
Qed.

Lemma get_next_token_rotation_witness :
  let st := set_current_token_index 1 Sample.ready in
  get_next_token_n 2 st = (Ok [Sample.tok_b; Sample.tok_a], st).
Proof.
  intros st.
  assert (Hlt : forall a b : nat, (a <? b)%nat = true -> (a < b)%nat)
    by (intros a b H; by apply Nat.ltb_lt).
  exact (get_next_token_rotation st 1 eq_refl (Hlt 1%nat 2%nat eq_refl)).
Defined.

(** X18.  [refresh_tokens] replaces the pool and recomputes the batch
    limit but leaves the cursor where it was.  When the new pool is no
    longer than the old cursor, [get_next_token] raises [IndexError]
    and changes nothing, so every later call raises as well, and with it
    every batch that passes the size test. *)
Theorem refresh_tokens_stale_cursor
    (results : list (option token_info)) (st st' : client)
    (p : pixel) (pixels : list pixel) :
  refresh_tokens results st = (Fetched, st') ->
  len (tokens st') <= current_token_index st ->
  current_token_index st' = current_token_index st
  /\ tokens st' = omap id results
  /\ get_next_token st' = (Raise IndexError, st')
  /\ (len (p :: pixels) <= actual_batch_size st' ->
      create_batch_paint_data (p :: pixels) st' = (Raise IndexError, st')).
Proof.
  intros Hrefresh Hstale.
  assert (Hfields : current_token_index st' = current_token_index st
                    /\ tokens st' = omap id results /\ tokens st' <> []).
  { revert Hrefresh. unfold refresh_tokens, fetch_tokens_from_access_keys.
    destruct results as [ | r results ]; [ discriminate | ].
    generalize (omap id (r :: results)). intros pool.
    change (tokens (set_tokens pool st)) with pool.
    destruct pool as [ | t pool ]; [ discriminate | ].
    by intros [= <-]. }
  destruct Hfields as (Hcursor & Hpool & Hne).
  assert (Hraise : get_next_token st' = (Raise IndexError, st')).
  { unfold get_next_token.
    destruct (tokens st') as [ | t pool ] eqn:E; [ done | ].
    rewrite getitem_past_end; [ done | lia ]. }
  repeat split; try done.
  intros Hsize. unfold create_batch_paint_data, bind at 1, read.
  destruct (Z.gtb_spec (len (p :: pixels)) (actual_batch_size st'));
    [ lia | ].
  cbn [create_batch_loop]. unfold bind. by rewrite Hraise.
Qed.

Lemma refresh_tokens_stale_cursor_witness :
  let st := set_current_token_index 1 Sample.ready in
  let st' := snd (refresh_tokens [Some Sample.tok_a; None] st) in
  tokens st' = [Sample.tok_a]
  /\ get_next_token st' = (Raise IndexError, st')
  /\ create_batch_paint_data [Sample.red_pixel] st' = (Raise IndexError, st').
Proof.
  intros st st'.
  assert (Hle : forall a b, (a <=? b) = true -> a <= b) by (intros; lia).
  destruct (refresh_tokens_stale_cursor [Some Sample.tok_a; None] st st'
              Sample.red_pixel [] eq_refl (Hle 1 1 eq_refl))
    as (_ & Hpool & Hraise & Hbatch).
  split; [ exact Hpool | ]. split; [ exact Hraise | ].
  exact (Hbatch (Hle 1 1 eq_refl)).
Defined.

(** ** Board geometry *)

(** X19.  [get_image_valid_region] is the part of the image that lies
    on the board: a point is inside the region exactly when it is a
    valid board coordinate inside the image rectangle.  The region is
    the whole image exactly under [is_image_within_bounds] (for an image
    that has pixels), and an image that misses the board gets a width or
    a height that is zero or negative, not clamped. *)
Theorem get_image_valid_region_intersection
    (start_x start_y width height : Z) :
  let reg := get_image_valid_region start_x start_y width height in
  (forall x y,
     (reg_start_x reg <= x < reg_start_x reg + reg_width reg
      /\ reg_start_y reg <= y < reg_start_y reg + reg_height reg)
     <-> (is_coordinate_valid x y = true
          /\ start_x <= x < start_x + width
          /\ start_y <= y < start_y + height))
  /\ (0 < width -> 0 < height ->
      (is_image_within_bounds start_x start_y width height = true
       <-> reg = Region start_x start_y width height))
  /\ (board_width <= start_x \/ start_x + width <= 0 ->
      reg_width reg <= 0)
  /\ (board_height <= start_y \/ start_y + height <= 0 ->
      reg_height reg <= 0).
Proof.
  intros reg. subst reg.
  unfold get_image_valid_region, is_coordinate_valid, is_image_within_bounds,
    board_width, board_height.
  cbn [reg_start_x reg_start_y reg_width reg_height].
  split; [ | split; [ | split ] ].
  - intros x y.
    destruct (Z.leb_spec 0 x), (Z.ltb_spec x 1000),
             (Z.leb_spec 0 y), (Z.ltb_spec y 600); cbn [andb];
      split; intros Hin; try lia; destruct Hin as [Hin _]; discriminate.
  - intros Hw Hh.
    destruct (Z.geb_spec start_x 0), (Z.geb_spec start_y 0),
             (Z.leb_spec (start_x + width) 1000),
             (Z.leb_spec (start_y + height) 600); cbn [andb];
      split; intros Heq; try discriminate; try reflexivity;
      try (injection Heq as E1 E2 E3 E4; lia).
    f_equal; lia.
  - lia.
  - lia.
Qed.

Lemma get_image_valid_region_intersection_witness :
  get_image_valid_region 520 320 300 200 = Region 520 320 300 200
  /\ reg_width (get_image_valid_region 1200 0 10 10) <= 0.
Proof.
  assert (Hlt : forall a b, (a <? b) = true -> a < b) by (intros; lia).
  assert (Hle : forall a b, (a <=? b) = true -> a <= b) by (intros; lia).
  destruct (get_image_valid_region_intersection 520 320 300 200)
    as (_ & Hwhole & _).
  destruct (get_image_valid_region_intersection 1200 0 10 10)
    as (_ & _ & Hmiss & _).
  split.
  - exact (proj1 (Hwhole (Hlt 0 300 eq_refl) (Hlt 0 200 eq_refl)) eq_refl).
  - exact (Hmiss (or_introl (Hle 1000 1200 eq_refl))).
Defined.

(** ** The byte writer *)

(** X20.  [uint_to_bytes] never fails: for any integer, negative ones
    included, it gives exactly [num_bytes] bytes, each in [0, 256),
    which read low byte first are the value modulo 256^num_bytes; a
    value too large for its bytes is cut down silently, where
    [struct.pack] raises.  On the values [struct.pack] accepts the two
    agree. *)
Theorem uint_to_bytes_value (value : Z) (num_bytes : nat) :
  length (uint_to_bytes value num_bytes) = num_bytes
  /\ Forall (fun b => 0 <= b < 256) (uint_to_bytes value num_bytes)
  /\ le_value (uint_to_bytes value num_bytes)
     = value mod 256 ^ Z.of_nat num_bytes
  /\ (forall bs, struct_pack_H value = Some bs -> bs = uint_to_bytes value 2)
  /\ (forall bs, struct_pack_I value = Some bs -> bs = uint_to_bytes value 4).
Proof.
  assert (Hland : forall v, Z.land v 255 = v mod 256)
    by (intros v; apply (Z.land_ones v 8); lia).
  assert (Hshift : forall v, Z.shiftr v 8 = v / 256)
    by (intros v; apply (Z.shiftr_div_pow2 v 8); lia).
  split; [ | split; [ | split; [ | split ] ] ].
  - revert value. induction num_bytes as [ | n IH ]; intros value;
      cbn [uint_to_bytes length]; [ done | by rewrite IH ].
  - revert value. induction num_bytes as [ | n IH ]; intros value;
      cbn [uint_to_bytes]; constructor; [ | apply IH ].
    rewrite Hland. apply Z.mod_pos_bound. lia.
  - revert value. induction num_bytes as [ | n IH ]; intros value;
      cbn [uint_to_bytes le_value].
    + change (256 ^ Z.of_nat 0) with 1. by rewrite Z.mod_1_r.
    + rewrite IH, Hland, Hshift, Nat2Z.inj_succ, Z.pow_succ_r by lia.
      rewrite Z.rem_mul_r; [ reflexivity | lia | ].
      apply Z.pow_pos_nonneg; lia.
  - intros bs. unfold struct_pack_H.
    destruct (Z.leb_spec 0 value), (Z.ltb_spec value 65536); cbn [andb];
      try discriminate.
    intros [= <-]. cbn [uint_to_bytes]. rewrite !Hland, !Hshift.
    do 2 f_equal. rewrite Z.mod_small; [ done | ].
    Z.div_mod_to_equations. lia.
  - intros bs. unfold struct_pack_I.
    destruct (Z.leb_spec 0 value), (Z.ltb_spec value 4294967296); cbn [andb];
      try discriminate.
    intros [= <-]. cbn [uint_to_bytes]. rewrite !Hland, !Hshift.
    rewrite !Z.div_div by lia.
    change (256 * 256) with 65536. change (65536 * 256) with 16777216.
    do 4 f_equal. rewrite Z.mod_small; [ done | ].
    Z.div_mod_to_equations. lia.
Qed.

Lemma uint_to_bytes_value_witness :
  [231; 3] = uint_to_bytes 999 2
  /\ le_value (uint_to_bytes (-1) 2) = 65535.
Proof.
  destruct (uint_to_bytes_value 999 2) as (_ & _ & _ & Hpack & _).
  destruct (uint_to_bytes_value (-1) 2) as (_ & _ & Hvalue & _).
  split; [ exact (Hpack [231; 3] eq_refl) | exact Hvalue ].
Defined.

(** ** The sender and the buffer *)

Section SenderBuffer.

Implicit Types (st : client) (send_interval clock : Z).

(** A round on a buffer that holds bytes, within the frame limit and
    with the socket connected, comes down to one [send] of the merged
    chunks, the buffer being empty by then. *)
Lemma send_packets_step_merged send_interval st :
  buffer_consistent st -> sock_connected st = true ->
  concat (chunks st) <> [] -> len (concat (chunks st)) <= max_frame_size ->
  send_packets_step send_interval st
  = match ws_send (concat (chunks st)) (set_chunks [] (set_total_size 0 st)) with
    | (true, s) => (Ok send_interval, set_packet_count (packet_count s + 1) s)
    | (false, s) => (Ok send_interval, log LogSendFailed s)
    end.
Proof.
  intros Hc Hsock Hne Hlen.
  assert (Hchunks : chunks st <> []) by (intros E; by rewrite E in Hne).
  assert (Hpos : 0 < total_size st).
  { rewrite Hc. unfold len. destruct (concat (chunks st)); [ done | cbn; lia ]. }
  unfold send_packets_step.
  rewrite Hsock, bool_decide_eq_false_2 by done. cbn [negb andb].
  rewrite get_merged_data_consistent by done.
  destruct (concat (chunks st)) as [ | b merged ]; [ done | ].
  destruct (Z.gtb_spec (len (b :: merged)) max_frame_size); [ lia | ].
  reflexivity.
Qed.

Lemma sock_connected_append_data batch st :
  sock_connected (append_data batch st) = sock_connected st.
Proof. reflexivity. Qed.

End SenderBuffer.

(** X21.  The aggregation buffer coalesces: whatever number of batches
    has been appended, one round of the sender with the socket connected
    puts them on the wire as a single frame, the batches one after the
    other in the order they were appended (as long as the whole stays
    within 32768 bytes), counts one frame, and leaves the buffer
    empty. *)
Theorem send_packets_step_coalesces
    (send_interval : Z) (st : client) (w : ws_app) :
  buffer_consistent st ->
  ws st = Some w -> sock w = Some true -> send_raises w = false ->
  concat (chunks st) <> [] -> len (concat (chunks st)) <= max_frame_size ->
  let st' := snd (send_packets_step send_interval st) in
  fst (send_packets_step send_interval st) = Ok send_interval
  /\ frames_sent st' = frames_sent st ++ [concat (chunks st)]
  /\ chunks st' = [] /\ total_size st' = 0
  /\ packet_count st' = packet_count st + 1.
Proof.
  intros Hc Hws Hsock Hsend Hne Hlen st'. subst st'.
  assert (Hstep : send_packets_step send_interval st
                  = (Ok send_interval,
                     set_packet_count (packet_count st + 1)
                       (emit (Sent (concat (chunks st)))
                          (set_chunks [] (set_total_size 0 st))))).
  { rewrite send_packets_step_merged; try done;
      [ | unfold sock_connected; by rewrite Hws, Hsock ].
    unfold ws_send. cbn [ws set_chunks set_total_size].
    by rewrite Hws, Hsend. }
  rewrite Hstep. cbn [fst snd].
  repeat split.
  change (frames_sent (set_packet_count _ ?s)) with (frames_sent s).
  by rewrite frames_sent_emit_sent.
Qed.

Lemma send_packets_step_coalesces_witness :
  let st := append_data [4; 5] (append_data [1; 2; 3] Sample.ready) in
  frames_sent (snd (send_packets_step 20 st)) = [[1; 2; 3; 4; 5]]
  /\ chunks (snd (send_packets_step 20 st)) = [].
Proof.
  intros st.
  assert (Hle : forall a b, (a <=? b) = true -> a <= b) by (intros; lia).
  assert (Hne : concat (chunks st) <> []) by discriminate.
  destruct (send_packets_step_coalesces 20 st (WsApp (Some true) false)
              eq_refl eq_refl eq_refl eq_refl Hne (Hle 5 32768 eq_refl))
    as (_ & Hsent & Hchunks & _).
  split; [ exact Hsent | exact Hchunks ].
Defined.

(** X22.  A [send] that raises costs the data.  In the sender that is
    in force the buffer has been emptied before the call, the exception
    is caught and logged, and nothing is put back: the bytes are gone,
    no frame was written and the frame count is as before.  The first
    definition of the sender, which the second one replaces, appended
    the merged bytes to the buffer again. *)
Theorem send_failure_loses_data
    (send_interval now : Z) (st : client) (w : ws_app) :
  buffer_consistent st ->
  ws st = Some w -> sock w = Some true -> send_raises w = true ->
  ws_connected st = true ->
  concat (chunks st) <> [] -> len (concat (chunks st)) <= max_frame_size ->
  packet_count st < max_frames_per_second ->
  let lost := snd (send_packets_step send_interval st) in
  let kept := snd (send_packets_step_shadowed send_interval now st) in
  fst (send_packets_step send_interval st) = Ok send_interval
  /\ chunks lost = [] /\ total_size lost = 0
  /\ frames_sent lost = frames_sent st
  /\ packet_count lost = packet_count st
  /\ chunks kept = [concat (chunks st)]
  /\ total_size kept = len (concat (chunks st))
  /\ frames_sent kept = frames_sent st.
Proof.
  intros Hc Hws Hsock Hsend Hconn Hne Hlen Hcount lost kept.
  subst lost kept.
  assert (Hchunks : chunks st <> []) by (intros E; by rewrite E in Hne).
  assert (Hpos : 0 < total_size st).
  { rewrite Hc. unfold len. destruct (concat (chunks st)); [ done | cbn; lia ]. }
  assert (Hstep : send_packets_step send_interval st
                  = (Ok send_interval,
                     log LogSendFailed (set_chunks [] (set_total_size 0 st)))).
  { rewrite send_packets_step_merged; try done;
      [ | unfold sock_connected; by rewrite Hws, Hsock ].
    unfold ws_send. cbn [ws set_chunks set_total_size].
    by rewrite Hws, Hsend. }
  rewrite Hstep. cbn [fst snd].
  split; [ done | ]. split; [ done | ]. split; [ done | ].
  split; [ by rewrite frames_sent_log | ]. split; [ done | ].
  unfold send_packets_step_shadowed.
  assert (Hpresent : sock_present st = true)
    by (unfold sock_present; by rewrite Hws, Hsock).
  rewrite Hconn, Hpresent, bool_decide_eq_false_2 by done. cbn [negb andb].
  rewrite get_merged_data_consistent by done.
  destruct (concat (chunks st)) as [ | b merged ] eqn:Hmerged; [ done | ].
  destruct (Z.gtb_spec (len (b :: merged)) max_frame_size); [ lia | ].
  set (st1 := set_chunks [] (set_total_size 0 st)).
  set (st2 := if now - last_reset_time st1 >=? 1000
              then set_last_reset_time now (set_packet_count 0 st1)
              else st1).
  assert (H2 : packet_count st2 < max_frames_per_second
               /\ ws st2 = Some w /\ chunks st2 = [] /\ total_size st2 = 0
               /\ frames_sent st2 = frames_sent st).
  { subst st2. destruct (now - last_reset_time st1 >=? 1000); by repeat split. }
  destruct H2 as (Hrate & Hws2 & Hchunks2 & Htotal2 & Hframes2).
  destruct (Z.geb_spec (packet_count st2) max_frames_per_second); [ lia | ].
  unfold ws_send. rewrite Hws2, Hsend. cbn [snd].
  unfold append_data. cbn [chunks total_size set_chunks set_total_size log emit set_trace].
  rewrite Hchunks2, Htotal2.
  split; [ done | ]. split; [ done | ].
  change (frames_sent (set_total_size _ (set_chunks _ ?s))) with (frames_sent s).
  by rewrite frames_sent_log.
Qed.

Lemma send_failure_loses_data_witness :
  let st :=
    append_data Sample.packet
      {| tokens := [Sample.tok_a]; current_token_index := 0;
         batch_size := 10; cool_down_time := 1145;
         actual_batch_size := 1; last_batch_time := 0; batch_queue := [];
         packet_count := 0; last_reset_time := 0;
         chunks := []; total_size := 0; paint_id := 1; paint_callbacks := ∅;
         is_drawing_image := false; ws := Some (WsApp (Some true) true);
         ws_connected := true; running := true; on_paint_update := None;
         trace := [] |} in
  chunks (snd (send_packets_step 20 st)) = []
  /\ frames_sent (snd (send_packets_step 20 st)) = []
  /\ chunks (snd (send_packets_step_shadowed 20 500 st)) = [Sample.packet].
Proof.
  intros st.
  assert (Hle : forall a b, (a <=? b) = true -> a <= b) by (intros; lia).
  assert (Hlt : forall a b, (a <? b) = true -> a < b) by (intros; lia).
  assert (Hne : concat (chunks st) <> []) by discriminate.
  destruct (send_failure_loses_data 20 500 st (WsApp (Some true) true)
              eq_refl eq_refl eq_refl eq_refl eq_refl Hne
              (Hle 31 32768 eq_refl) (Hlt 0 256 eq_refl))
    as (_ & Hchunks & _ & Hframes & _ & Hkept & _).
  split; [ exact Hchunks | ]. split; [ exact Hframes | exact Hkept ].
Defined.

(** X23.  While the socket is not connected the running sender thread
    sends nothing and loses nothing: batches appended in the meantime
    stay in the buffer, in order, each round sleeping the send interval.
    Once [running] is false the thread runs no round at all.  When the
    socket is connected again, the next round sends everything that was
    held, what was buffered before and the batches in the order they
    came, as one frame (as long as the whole is within 32768 bytes) and
    leaves the buffer empty. *)
Theorem sender_holds_while_disconnected
    (send_interval clock : Z) (batches : list (list Z)) (st : client)
    (w : ws_app) :
  buffer_consistent st -> sock_connected st = false ->
  let held := foldl (fun s batch => append_data batch s) st batches in
  (running st = true ->
   sender_run send_interval batches clock st
   = (clock + send_interval * len batches, held))
  /\ (running st = false ->
      forall batch rest,
        sender_run send_interval (batch :: rest) clock st
        = (clock, append_data batch st))
  /\ frames_sent held = frames_sent st
  /\ (sock w = Some true -> send_raises w = false ->
      concat (chunks st) ++ concat batches <> [] ->
      len (concat (chunks st) ++ concat batches) <= max_frame_size ->
      let sent := snd (send_packets_step send_interval (set_ws (Some w) held)) in
      frames_sent sent
      = frames_sent st ++ [concat (chunks st) ++ concat batches]
      /\ chunks sent = [] /\ total_size sent = 0).
Proof.
  intros Hc Hdown held.
  assert (Hframes : forall bs s,
            frames_sent (foldl (fun s batch => append_data batch s) s bs)
            = frames_sent s).
  { induction bs as [ | b bs IH ]; intros s; cbn [foldl]; [ done | ].
    by rewrite IH. }
  split; [ | split; [ | split ] ].
  - intros Hrunning. subst held. revert clock st Hc Hdown Hrunning.
    induction batches as [ | batch batches IH ];
      intros clock st Hc Hdown Hrunning; cbn [sender_run foldl].
    + change (len (@nil (list Z))) with 0. by rewrite Z.mul_0_r, Z.add_0_r.
    + cbv zeta. change (running (append_data batch st)) with (running st).
      rewrite Hrunning. unfold send_packets_step at 1.
      rewrite sock_connected_append_data, Hdown, andb_false_r.
      rewrite IH; [ | by apply append_data_consistent | done | done ].
      rewrite len_cons. f_equal. lia.
  - intros Hstopped batch rest. cbn [sender_run]. cbv zeta.
    change (running (append_data batch st)) with (running st).
    by rewrite Hstopped.
  - apply Hframes.
  - intros Hsock Hsend Hne Hlen sent. subst sent.
    assert (Hchunks : concat (chunks (set_ws (Some w) held))
                      = concat (chunks st) ++ concat batches).
    { change (chunks (set_ws (Some w) held)) with (chunks held). subst held.
      by rewrite append_data_all_chunks, concat_app. }
    rewrite send_packets_step_merged; cycle 1.
    { change (buffer_consistent held). by apply append_data_all_consistent. }
    { unfold sock_connected. cbn [ws set_ws]. by rewrite Hsock. }
    { by rewrite Hchunks. }
    { by rewrite Hchunks. }
    unfold ws_send. cbn [ws set_ws set_chunks set_total_size].
    rewrite Hsend. cbn [snd].
    repeat split.
    change (frames_sent (set_packet_count _ ?s)) with (frames_sent s).
    rewrite frames_sent_emit_sent, Hchunks.
    change (frames_sent (set_chunks [] (set_total_size 0 (set_ws (Some w) held))))
      with (frames_sent held).
    subst held. by rewrite (Hframes batches st).
Qed.

Lemma sender_holds_while_disconnected_witness :
  let st := set_running true (init 10 1145 0) in
  let held := append_data [2; 3] (append_data [1] st) in
  sender_run 20 [[1]; [2; 3]] 0 st = (40, held)
  /\ sender_run 20 [[1]; [2; 3]] 0 (init 10 1145 0)
     = (0, append_data [1] (init 10 1145 0))
  /\ frames_sent
       (snd (send_packets_step 20
               (set_ws (Some (WsApp (Some true) false)) held)))
     = [[1; 2; 3]].
Proof.
  intros st held.
  assert (Hle : forall a b, (a <=? b) = true -> a <= b) by (intros; lia).
  assert (Hne : concat (chunks st) ++ concat [[1]; [2; 3]] <> [])
    by discriminate.
  destruct (sender_holds_while_disconnected 20 0 [[1]; [2; 3]] st
              (WsApp (Some true) false) eq_refl eq_refl)
    as (Hrun & _ & _ & Hflush).
  destruct (sender_holds_while_disconnected 20 0 [[1]; [2; 3]] (init 10 1145 0)
              (WsApp (Some true) false) eq_refl eq_refl)
    as (_ & Hstopped & _).
  destruct (Hflush eq_refl eq_refl Hne (Hle 3 32768 eq_refl)) as (Hsent & _).
  split; [ exact (Hrun eq_refl) | ].
  split; [ exact (Hstopped eq_refl [1] [[2; 3]]) | exact Hsent ].
Defined.

(** ** The configuration check *)

Section Config.

Implicit Types (keys : list access_key) (cfg : config).

Lemma check_access_keys_None i keys :
  check_access_keys i keys = None
  <-> Exists (fun key => ak_uid key = None) keys.
Proof.
  revert i. induction keys as [ | key keys IH ]; intros i;
    cbn [check_access_keys].
  - split; [ discriminate | by inversion 1 ].
  - destruct (ak_uid key) as [ uid | ] eqn:Huid.
    + destruct (check_access_keys (i + 1) keys) as [ later | ] eqn:E; cbn.
      * split; [ discriminate | ].
        inversion 1 as [ ? ? Hhead | ? ? Htail ]; [ congruence | ].
        apply (IH (i + 1)) in Htail. congruence.
      * split; [ | done ]. intros _. apply Exists_cons_tl. by apply (IH (i + 1)).
    + split; [ | done ]. intros _. by apply Exists_cons_hd.
Qed.

Lemma check_access_keys_clean i keys :
  check_access_keys i keys = Some []
  <-> Forall (fun key => exists n s,
                ak_uid key = Some (UidInt n) /\ ak_access_key key = Some s) keys.
Proof.
  revert i. induction keys as [ | key keys IH ]; intros i;
    cbn [check_access_keys].
  - split; [ constructor | done ].
  - destruct (ak_uid key) as [ [ n | ] | ] eqn:Huid;
      destruct (ak_access_key key) as [ s | ] eqn:Hkey;
      destruct (check_access_keys (i + 1) keys) as [ later | ] eqn:E; cbn;
      (split;
       [ try discriminate
       | inversion 1 as [ | ? ? (n' & s' & Hn & Hs) Htail ]; subst;
         try congruence ]).
    + intros [= ->]. constructor; [ by exists n, s | by apply (IH (i + 1)) ].
    + apply (IH (i + 1)) in Htail. congruence.
    + apply (IH (i + 1)) in Htail. congruence.
Qed.

End Config.

(** X24.  [validate_config] reports no error exactly when there is at
    least one access key, every key has an integer ["uid"] and an
    ["access_key"], the image path is not empty, the start position is
    on the board and the two modes are not both set; the start position
    it accepts is a valid coordinate for [is_coordinate_valid].  But a
    key dict without ["uid"] is not reported: the check after the
    membership test reads [key["uid"]] all the same, and the function
    ends with a [KeyError] exactly when some dict lacks that key. *)
Theorem validate_config_accepts (cfg : config) :
  (validate_config cfg = Some []
   <-> (cfg_access_keys cfg <> []
        /\ Forall (fun key => exists n s,
                     ak_uid key = Some (UidInt n)
                     /\ ak_access_key key = Some s) (cfg_access_keys cfg)
        /\ cfg_path cfg <> EmptyString
        /\ is_coordinate_valid (cfg_start_x cfg) (cfg_start_y cfg) = true
        /\ cfg_readonly cfg && cfg_writeonly cfg = false))
  /\ (validate_config cfg = None
      <-> Exists (fun key => ak_uid key = None) (cfg_access_keys cfg)).
Proof.
  unfold validate_config, is_coordinate_valid, board_width, board_height.
  split.
  - destruct (cfg_access_keys cfg) as [ | key keys ] eqn:Hkeys.
    { cbn. split; [ discriminate | by intros [? _] ]. }
    pose proof (check_access_keys_clean 0 (key :: keys)) as Hclean.
    destruct (check_access_keys 0 (key :: keys)) as [ key_errors | ]; cbn;
      [ | split; [ discriminate | ];
          intros (_ & Hall & _); by apply Hclean in Hall ].
    destruct (decide (cfg_path cfg = EmptyString)) as [ Hpath | Hpath ];
      [ rewrite bool_decide_eq_true_2 by done
      | rewrite bool_decide_eq_false_2 by done ].
    { split; [ intros [= E]; by destruct key_errors | by intros (_ & _ & ? & _) ]. }
    destruct (Z.ltb_spec (cfg_start_x cfg) 0), (Z.geb_spec (cfg_start_x cfg) 1000),
             (Z.ltb_spec (cfg_start_y cfg) 0), (Z.geb_spec (cfg_start_y cfg) 600),
             (Z.leb_spec 0 (cfg_start_x cfg)), (Z.ltb_spec (cfg_start_x cfg) 1000),
             (Z.leb_spec 0 (cfg_start_y cfg)), (Z.ltb_spec (cfg_start_y cfg) 600);
      try lia; cbn [orb andb app];
      destruct (cfg_readonly cfg && cfg_writeonly cfg); cbn [app];
      (split;
       [ intros [= E]; try (by destruct key_errors);
         rewrite app_nil_r in E; subst key_errors;
         repeat split; try done; by apply Hclean
       | intros (_ & Hall & _ & Hxy & Hmode); try discriminate;
         apply Hclean in Hall; by rewrite app_nil_r, <- Hall ]).
  - destruct (cfg_access_keys cfg) as [ | key keys ] eqn:Hkeys.
    { cbn. split; [ discriminate | by inversion 1 ]. }
    rewrite <- (check_access_keys_None 0 (key :: keys)).
    by destruct (check_access_keys 0 (key :: keys)).
Qed.

Lemma validate_config_accepts_witness :
  validate_config
    (Config [AccessKey (Some (UidInt 1048914)) (Some "6KEKa77Q"%string);
             AccessKey (Some (UidInt 1683526)) (Some "UpaiUxt6"%string)]
       "image.png" 520 320 false false) = Some []
  /\ validate_config
       (Config [AccessKey None (Some "6KEKa77Q"%string)]
          "image.png" 520 320 false false) = None.
Proof.
  split.
  - apply (proj1 (validate_config_accepts _)).
    split; [ discriminate | ].
    split; [ repeat constructor; by eexists _, _ | ].
    split; [ discriminate | ]. split; reflexivity.
  - apply (proj2 (validate_config_accepts _)).
    by apply Exists_cons_hd.
Defined.

(** ** The drawing script *)

Section Drawing.

Implicit Types (st : client) (img : image) (pixel_list : list pixel).

Lemma pixel_entry_from_image start_x start_y img y x entries :
  pixel_entry start_x start_y img y x = Some entries ->
  Forall (from_image start_x start_y img) entries.
Proof.
  unfold pixel_entry. cbv zeta.
  destruct (y * img_width img + x <? len (img_data img)); [ | by intros [= <-] ].
  destruct (getitem (img_data img) (y * img_width img + x))
    as [ [[r g] b] | ] eqn:Hget; [ | discriminate ].
  destruct ((0 <=? start_x + x) && (start_x + x <? 1000)
            && ((0 <=? start_y + y) && (start_y + y <? 600))) eqn:Hboard;
    intros [= <-]; [ | constructor ].
  repeat constructor; [ exact Hboard | ].
  by exists x, y.
Qed.

Lemma mapM_concat_Forall {A B} (f : A -> option (list B)) (P : B -> Prop)
    (l : list A) (rows : list (list B)) :
  (forall a bs, f a = Some bs -> Forall P bs) ->
  mapM f l = Some rows -> Forall P (concat rows).
Proof.
  intros Hf Hrows. apply mapM_Some in Hrows.
  induction Hrows as [ | a bs l rows Hbs _ IH ]; cbn [concat]; [ constructor | ].
  apply Forall_app. split; [ by eapply Hf | exact IH ].
Qed.

Lemma Forall_slice {A} (P : A -> Prop) (l : list A) (i j : Z) :
  Forall P l -> Forall P (slice l i j).
Proof. intros H. unfold slice. by apply Forall_take, Forall_drop. Qed.

End Drawing.

(** X25.  Every entry of the [pixel_list] that [draw_simple_batch] and
    [draw_optimized_batch] build is a pixel on the board, has no
    callback, and carries the colour of the image pixel at the place it
    was read from.  So whatever part of the list is cut off as a batch
    passes the coordinate check of [paint_batch_simple]. *)
Theorem build_pixel_list_on_board
    (start_x start_y : Z) (img : image) (pixel_list : list pixel) :
  build_pixel_list start_x start_y img = Some pixel_list ->
  Forall (from_image start_x start_y img) pixel_list
  /\ forall i j, check_coordinates (slice pixel_list i j) = None.
Proof.
  intros Hbuild.
  assert (Hall : Forall (from_image start_x start_y img) pixel_list).
  { revert Hbuild. unfold build_pixel_list.
    destruct (draw_area start_x start_y img) as [draw_width draw_height].
    destruct (mapM _ (range draw_height)) as [ rows | ] eqn:Hrows;
      [ | discriminate ].
    cbn. intros [= <-].
    eapply mapM_concat_Forall; [ | exact Hrows ].
    intros y row Hrow. cbv beta in Hrow.
    destruct (mapM (pixel_entry start_x start_y img y) (range draw_width))
      as [ entries | ] eqn:Hentries; [ | discriminate ].
    cbn in Hrow. injection Hrow as <-.
    eapply mapM_concat_Forall; [ | exact Hentries ].
    intros x bs. apply pixel_entry_from_image. }
  split; [ exact Hall | ].
  intros i j. apply check_coordinates_None, Forall_slice.
  eapply Forall_impl; [ exact Hall | ]. by intros p [Hp _].
Qed.

Lemma build_pixel_list_on_board_witness :
  build_pixel_list 998 599 (Image 3 2 [(1, 2, 3); (4, 5, 6); (7, 8, 9);
                                       (10, 11, 12); (13, 14, 15); (16, 17, 18)])
  = Some [Pixel.Make 998 599 1 2 3 None; Pixel.Make 999 599 4 5 6 None]
  /\ check_coordinates
       [Pixel.Make 998 599 1 2 3 None; Pixel.Make 999 599 4 5 6 None] = None.
Proof.
  split; [ reflexivity | ].
  exact (proj2 (build_pixel_list_on_board 998 599
                  (Image 3 2 [(1, 2, 3); (4, 5, 6); (7, 8, 9);
                              (10, 11, 12); (13, 14, 15); (16, 17, 18)])
                  [Pixel.Make 998 599 1 2 3 None; Pixel.Make 999 599 4 5 6 None]
                  eq_refl) 0 2).
Defined.

Section DrawingLoop.

Implicit Types (st : client) (pixel_list batch : list pixel).

Lemma len_slice {A} (l : list A) (a b : Z) :
  0 <= a <= b -> len (slice l a b) = Z.min b (len l) - Z.min a (len l).
Proof.
  intros H. unfold slice, len. rewrite length_take, length_drop. lia.
Qed.

(** With the connection up, a batch that lies on the board always gets a
    dict back, and the connection flag, the pool and the batch limit are
    as before. *)
Lemma paint_batch_simple_returns now batch st :
  ws_connected st = true -> check_coordinates batch = None ->
  exists outcome st1,
    paint_batch_simple false true now batch st = (inr outcome, st1)
    /\ ws_connected st1 = true /\ tokens st1 = tokens st
    /\ actual_batch_size st1 = actual_batch_size st.
Proof.
  intros Hconn Hcheck. unfold paint_batch_simple.
  rewrite Hconn, Hcheck. cbn [negb].
  pose proof (encoder_keeps_create_batch_paint_data batch st) as Hk.
  destruct (create_batch_paint_data batch st) as [[ data | error ] s1];
    cbn [snd] in Hk;
    destruct Hk as (Ktokens & _ & _ & Kactual & _ & _ & _ & _ & _ & _ & _ & _
                    & Kconn & _).
  - eexists _, _. split; [ reflexivity | ].
    cbn. by rewrite Kconn, Ktokens, Kactual.
  - eexists _, _. split; [ reflexivity | ].
    by rewrite Kconn, Ktokens, Kactual.
Qed.

(** The loop counts every pixel of every batch it submits, whatever the
    answers were. *)
Lemma send_batches_completed wait pixel_list batch_size :
  0 < batch_size ->
  Forall (fun p => is_coordinate_valid (Pixel.x p) (Pixel.y p) = true) pixel_list ->
  forall (m : nat) j clock completed st,
    0 <= j -> ws_connected st = true ->
    exists clock' st',
      send_batches false true wait pixel_list batch_size
        ((fun k => k * batch_size) <$> seqZ j (Z.of_nat m)) clock completed st
      = (clock',
         completed + (Z.min ((j + Z.of_nat m) * batch_size) (len pixel_list)
                      - Z.min (j * batch_size) (len pixel_list)),
         st')
      /\ ws_connected st' = true /\ tokens st' = tokens st.
Proof.
  intros Hbs Hboard. induction m as [ | m IH ]; intros j clock completed st Hj Hconn.
  - exists clock, st. cbn. rewrite Z.add_0_r, Z.sub_diag, Z.add_0_r. done.
  - rewrite seqZ_cons by lia.
    replace (Z.pred (Z.of_nat (S m))) with (Z.of_nat m) by lia.
    rewrite fmap_cons. cbn [send_batches].
    destruct (paint_batch_simple_returns clock
                (slice pixel_list (j * batch_size) (j * batch_size + batch_size))
                st Hconn)
      as (outcome & st1 & -> & Hconn1 & Htokens1 & _).
    { by apply check_coordinates_None, Forall_slice. }
    edestruct (IH (Z.succ j)) as (clock' & st' & -> & Hconn' & Htokens');
      [ lia | exact Hconn1 | ].
    exists clock', st'. split; [ | split; [ done | congruence ] ].
    rewrite len_slice by nia.
    do 2 f_equal. nia.
Qed.

(** Batches larger than the batch limit are all refused, and the client
    is exactly as before. *)
Lemma send_batches_over_limit wait pixel_list batch_size st :
  ws_connected st = true ->
  Forall (fun p => is_coordinate_valid (Pixel.x p) (Pixel.y p) = true) pixel_list ->
  0 < batch_size -> actual_batch_size st < batch_size ->
  forall (m : nat) j clock completed,
    0 <= j -> (j + Z.of_nat m) * batch_size <= len pixel_list ->
    exists clock',
      send_batches false true wait pixel_list batch_size
        ((fun k => k * batch_size) <$> seqZ j (Z.of_nat m)) clock completed st
      = (clock', completed + Z.of_nat m * batch_size, st).
Proof.
  intros Hconn Hboard Hbs Hover.
  induction m as [ | m IH ]; intros j clock completed Hj Hfit.
  - exists clock. cbn. by rewrite Z.add_0_r.
  - rewrite seqZ_cons by lia.
    replace (Z.pred (Z.of_nat (S m))) with (Z.of_nat m) by lia.
    rewrite fmap_cons. cbn [send_batches].
    set (batch := slice pixel_list (j * batch_size) (j * batch_size + batch_size)).
    assert (Hlen : len batch = batch_size).
    { subst batch. rewrite len_slice by nia. nia. }
    assert (Hrefused : paint_batch_simple false true clock batch st
                       = (inr (Some (Exception
                                       (BatchTooLarge (len batch)
                                          (actual_batch_size st)))), st)).
    { unfold paint_batch_simple. rewrite Hconn. cbn [negb].
      replace (check_coordinates batch) with (@None api_error)
        by (symmetry; by apply check_coordinates_None, Forall_slice).
      rewrite create_batch_paint_data_over_limit by lia. reflexivity. }
    rewrite Hrefused.
    edestruct (IH (Z.succ j)) as (clock' & ->); [ lia | nia | ].
    exists clock'. rewrite Hlen. do 2 f_equal. nia.
Qed.

End DrawingLoop.

(** X26.  The drawing loop counts what it submits, not what is
    accepted.  With the connection up and a pixel list on the board,
    the drawing function fails (the division by a batch size of 0) exactly
    when the pool or the pixel list is empty; otherwise it runs to the
    end, no batch raises, and [completed] is the number of pixels of the
    list, whether the batches were built or refused.  The pool is as
    before. *)
Theorem draw_pixel_list_counts
    (wait clock : Z) (pixel_list : list pixel) (st : client) :
  ws_connected st = true ->
  Forall (fun p => is_coordinate_valid (Pixel.x p) (Pixel.y p) = true)
    pixel_list ->
  (draw_pixel_list false true wait pixel_list clock st = None
   <-> tokens st = [] \/ pixel_list = [])
  /\ (tokens st <> [] -> pixel_list <> [] ->
      exists clock' st',
        draw_pixel_list false true wait pixel_list clock st
        = Some (clock', len pixel_list, st')
        /\ ws_connected st' = true /\ tokens st' = tokens st).
Proof.
  intros Hconn Hboard.
  assert (Hlen : forall {A} (l : list A), len l = 0 <-> l = []).
  { intros A l. unfold len. destruct l; cbn; split; (done || lia). }
  pose proof (len_nonneg (tokens st)) as Ht.
  pose proof (len_nonneg pixel_list) as Hp.
  unfold draw_pixel_list. cbv zeta.
  split.
  - destruct (Z.eqb_spec (Z.min (len (tokens st)) (len pixel_list)) 0)
      as [ Hz | Hnz ].
    + split; [ intros _ | done ].
      destruct (Z.min_spec (len (tokens st)) (len pixel_list))
        as [ [_ Hm] | [_ Hm] ]; rewrite Hm in Hz;
        [ left | right ]; by apply Hlen.
    + split; [ discriminate | ].
      intros [ H | H ]; apply Hlen in H; lia.
  - intros Htokens Hpixels.
    assert (Ht' : 0 < len (tokens st))
      by (destruct (Z.eq_dec (len (tokens st)) 0) as [ E | ];
          [ by apply Hlen in E | lia ]).
    assert (Hp' : 0 < len pixel_list)
      by (destruct (Z.eq_dec (len pixel_list) 0) as [ E | ];
          [ by apply Hlen in E | lia ]).
    set (batch_size := Z.min (len (tokens st)) (len pixel_list)).
    assert (Hbs : 0 < batch_size) by (subst batch_size; lia).
    destruct (Z.eqb_spec batch_size 0); [ lia | ].
    unfold range_step.
    set (rounds := (len pixel_list + batch_size - 1) / batch_size).
    assert (Hrounds : 0 <= rounds /\ len pixel_list <= rounds * batch_size).
    { subst rounds. split; [ apply Z.div_pos; lia | ].
      pose proof (Z.mod_pos_bound (len pixel_list + batch_size - 1) batch_size Hbs).
      pose proof (Z.div_mod (len pixel_list + batch_size - 1) batch_size).
      nia. }
    destruct (send_batches_completed wait pixel_list batch_size Hbs Hboard
                (Z.to_nat rounds) 0 clock 0 st) as (clock' & st' & Hrun & Hc & Hk);
      [ lia | done | ].
    rewrite Z2Nat.id in Hrun by lia.
    exists clock', st'. rewrite Hrun. split; [ | done ].
    do 3 f_equal. lia.
Qed.

Lemma draw_pixel_list_counts_witness :
  exists clock' st',
    draw_pixel_list false true 140
      [Sample.red_pixel; Sample.red_pixel; Sample.red_pixel] 0 Sample.ready
    = Some (clock', 3, st')
    /\ ws_connected st' = true /\ tokens st' = tokens Sample.ready.
Proof.
  assert (Hboard : Forall (fun p => is_coordinate_valid (Pixel.x p) (Pixel.y p)
                                    = true)
                     [Sample.red_pixel; Sample.red_pixel; Sample.red_pixel])
    by (repeat constructor).
  assert (Htokens : tokens Sample.ready <> []) by discriminate.
  assert (Hpixels : [Sample.red_pixel; Sample.red_pixel; Sample.red_pixel] <> [])
    by discriminate.
  exact (proj2 (draw_pixel_list_counts 140 0
                  [Sample.red_pixel; Sample.red_pixel; Sample.red_pixel]
                  Sample.ready eq_refl Hboard) Htokens Hpixels).
Defined.

(** X27.  The drawing functions cut their batches by the number of
    tokens, the client limits a batch to [min(tokens, BATCH_SIZE)].
    With more tokens than [BATCH_SIZE] every full batch is therefore
    refused as too large: for a pixel list that is a whole number of
    such batches, the drawing function runs to its end and counts every
    pixel as completed, while the client is exactly as before - no
    packet built, no paint id used, nothing buffered. *)
Theorem draw_pixel_list_over_limit
    (wait clock : Z) (pixel_list : list pixel) (st : client) :
  ws_connected st = true ->
  Forall (fun p => is_coordinate_valid (Pixel.x p) (Pixel.y p) = true)
    pixel_list ->
  pixel_list <> [] ->
  actual_batch_size st < len (tokens st) ->
  (len (tokens st) | len pixel_list) ->
  exists clock',
    draw_pixel_list false true wait pixel_list clock st
    = Some (clock', len pixel_list, st).
Proof.
  intros Hconn Hboard Hpixels Hover [q Hq].
  pose proof (len_nonneg (tokens st)) as Ht.
  assert (Hp : 0 < len pixel_list).
  { unfold len. destruct pixel_list; [ done | cbn; lia ]. }
  assert (Hbs : 0 < len (tokens st)).
  { destruct (Z.eq_dec (len (tokens st)) 0) as [ E | ]; [ | lia ].
    rewrite E in Hq. lia. }
  assert (Hq' : 0 < q) by nia.
  unfold draw_pixel_list. cbv zeta.
  rewrite Z.min_l by nia.
  destruct (Z.eqb_spec (len (tokens st)) 0); [ lia | ].
  unfold range_step.
  replace ((len pixel_list + len (tokens st) - 1) / len (tokens st)) with q.
  2:{ rewrite Hq.
      replace (q * len (tokens st) + len (tokens st) - 1)
        with ((len (tokens st) - 1) + q * len (tokens st)) by lia.
      rewrite Z.div_add by lia. rewrite Z.div_small; lia. }
  destruct (send_batches_over_limit wait pixel_list (len (tokens st)) st
              Hconn Hboard Hbs Hover (Z.to_nat q) 0 clock 0) as (clock' & Hrun);
    [ lia | lia | ].
  rewrite Z2Nat.id in Hrun by lia.
  exists clock'. rewrite Hrun. do 3 f_equal. lia.
Qed.

Lemma draw_pixel_list_over_limit_witness :
  let st :=
    set_ws_connected true
      (snd (refresh_tokens
              [Some Sample.tok_a; Some Sample.tok_b; Some Sample.tok_a]
              (init 2 1145 0))) in
  actual_batch_size st = 2
  /\ exists clock',
       draw_pixel_list false true 140
         [Sample.red_pixel; Sample.red_pixel; Sample.red_pixel] 0 st
       = Some (clock', 3, st).
Proof.
  intros st.
  assert (Hboard : Forall (fun p => is_coordinate_valid (Pixel.x p) (Pixel.y p)
                                    = true)
                     [Sample.red_pixel; Sample.red_pixel; Sample.red_pixel])
    by (repeat constructor).
  assert (Hpixels : [Sample.red_pixel; Sample.red_pixel; Sample.red_pixel] <> [])
    by discriminate.
  assert (Hlt : forall a b, (a <? b) = true -> a < b) by (intros; lia).
  assert (Hdiv : (len (tokens st)
                  | len [Sample.red_pixel; Sample.red_pixel; Sample.red_pixel]))
    by (exists 1; reflexivity).
  split; [ reflexivity | ].
  exact (draw_pixel_list_over_limit 140 0
           [Sample.red_pixel; Sample.red_pixel; Sample.red_pixel] st
           eq_refl Hboard Hpixels (Hlt 2 3 eq_refl) Hdiv).
Defined.

Section WholeImage.

Implicit Types (img : image).

Lemma mapM_Forall2_in {A B} (f : A -> option B) (P : A -> B -> Prop)
    (l : list A) :
  (forall a, a ∈ l -> exists b, f a = Some b /\ P a b) ->
  exists k, mapM f l = Some k /\ Forall2 P l k.
Proof.
  induction l as [ | a l IH ]; intros Hf.
  - exists []. split; [ done | constructor ].
  - destruct (Hf a) as (b & Hb & HP); [ by left | ].
    destruct IH as (k & Hk & HF); [ intros a' Ha'; apply Hf; by right | ].
    exists (b :: k). split; [ | by constructor ].
    cbn. rewrite Hb. cbn. by rewrite Hk.
Qed.

Lemma concat_singletons {A B} (Q : A -> B -> Prop) (l : list A)
    (entries : list (list B)) :
  Forall2 (fun a e => exists b, e = [b] /\ Q a b) l entries ->
  Forall2 Q l (concat entries).
Proof.
  induction 1 as [ | a e l entries (b & -> & Hb) _ IH ]; cbn [concat];
    [ constructor | ].
  by constructor.
Qed.

Lemma concat_uniform {A} (n : nat) (rows : list (list A)) :
  Forall (fun row => length row = n) rows ->
  length (concat rows) = (length rows * n)%nat
  /\ forall y x row, (x < n)%nat -> rows !! y = Some row ->
       concat rows !! (y * n + x)%nat = row !! x.
Proof.
  induction 1 as [ | row0 rows Hrow0 _ [IHlen IH] ]; cbn [concat].
  - split; [ done | ]. intros y x row _ Hy. by rewrite lookup_nil in Hy.
  - split; [ rewrite length_app, IHlen, Hrow0; cbn; lia | ].
    intros [ | y ] x row Hx Hy.
    + injection Hy as ->. cbn. rewrite lookup_app_l by lia. done.
    + cbn in Hy. rewrite lookup_app_r by (rewrite Hrow0; lia).
      rewrite Hrow0. replace (S y * n + x - n)%nat with (y * n + x)%nat by lia.
      by apply IH.
Qed.

(** Inside an image that stands on the board, the inner loop body
    appends exactly one entry. *)
Lemma pixel_entry_inside start_x start_y img y x :
  0 <= img_width img -> len (img_data img) = img_width img * img_height img ->
  0 <= start_x -> start_x + img_width img <= 1000 ->
  0 <= start_y -> start_y + img_height img <= 600 ->
  0 <= y < img_height img -> 0 <= x < img_width img ->
  exists r g b,
    getitem (img_data img) (y * img_width img + x) = Some (r, g, b)
    /\ pixel_entry start_x start_y img y x
       = Some [Pixel.Make (start_x + x) (start_y + y) r g b None].
Proof.
  intros Hw Hdata Hsx Hfx Hsy Hfy Hy Hx.
  assert (Hindex : 0 <= y * img_width img + x < len (img_data img)) by nia.
  destruct (getitem_in_range (img_data img) (y * img_width img + x))
    as [[[r g] b] Hget]; [ lia | ].
  exists r, g, b. split; [ exact Hget | ].
  unfold pixel_entry. cbv zeta. rewrite Hget.
  destruct (Z.ltb_spec (y * img_width img + x) (len (img_data img))); [ | lia ].
  destruct (Z.leb_spec 0 (start_x + x)), (Z.ltb_spec (start_x + x) 1000),
           (Z.leb_spec 0 (start_y + y)), (Z.ltb_spec (start_y + y) 600);
    (done || lia).
Qed.

End WholeImage.

(** X28.  For an image that stands wholly on the board (its data being
    [width * height] pixels), the loops of the drawing functions build
    one entry per image pixel, row by row: the list has [width * height]
    entries, and the entry at place [y * width + x] is the board pixel
    [(start_x + x, start_y + y)] with the colour of the image pixel at
    that place. *)
Theorem build_pixel_list_whole_image (start_x start_y : Z) (img : image) :
  0 <= img_width img -> 0 <= img_height img ->
  len (img_data img) = img_width img * img_height img ->
  0 <= start_x -> start_x + img_width img <= 1000 ->
  0 <= start_y -> start_y + img_height img <= 600 ->
  exists pixel_list,
    build_pixel_list start_x start_y img = Some pixel_list
    /\ len pixel_list = img_width img * img_height img
    /\ forall x y,
         0 <= x < img_width img -> 0 <= y < img_height img ->
         exists r g b,
           getitem (img_data img) (y * img_width img + x) = Some (r, g, b)
           /\ getitem pixel_list (y * img_width img + x)
              = Some (Pixel.Make (start_x + x) (start_y + y) r g b None).
Proof.
  intros Hw Hh Hdata Hsx Hfx Hsy Hfy.
  set (Q := fun (y x : Z) (p : pixel) =>
              exists r g b,
                getitem (img_data img) (y * img_width img + x) = Some (r, g, b)
                /\ p = Pixel.Make (start_x + x) (start_y + y) r g b None).
  unfold build_pixel_list, draw_area.
  destruct (Z.gtb_spec (start_x + img_width img) 1000); [ lia | ].
  destruct (Z.gtb_spec (start_y + img_height img) 600); [ lia | ].
  cbn [orb]. unfold range.
  destruct (mapM_Forall2_in
              (fun y =>
                 row ← mapM (pixel_entry start_x start_y img y)
                         (seqZ 0 (img_width img));
                 Some (concat row))
              (fun y row => Forall2 (Q y) (seqZ 0 (img_width img)) row)
              (seqZ 0 (img_height img)))
    as (rows & Hrows & Hall).
  { intros y Hy. apply elem_of_seqZ in Hy.
    destruct (mapM_Forall2_in (pixel_entry start_x start_y img y)
                (fun x e => exists p, e = [p] /\ Q y x p)
                (seqZ 0 (img_width img)))
      as (entries & Hentries & Hsingle).
    { intros x Hx. apply elem_of_seqZ in Hx.
      destruct (pixel_entry_inside start_x start_y img y x)
        as (r & g & b & Hget & Hentry); try (done || lia).
      eexists. split; [ exact Hentry | ].
      eexists. split; [ reflexivity | ]. by exists r, g, b. }
    exists (concat entries). rewrite Hentries. split; [ done | ].
    by apply concat_singletons. }
  rewrite Hrows. cbn.
  exists (concat rows). split; [ reflexivity | ].
  assert (Huniform : Forall (fun row => length row
                                        = Z.to_nat (img_width img)) rows).
  { apply Forall_forall. intros row Hrow.
    apply list_elem_of_lookup in Hrow as [i Hi].
    destruct (Forall2_lookup_r _ _ _ _ _ Hall Hi) as (y & _ & Hy).
    apply Forall2_length in Hy. by rewrite length_seqZ in Hy. }
  destruct (concat_uniform _ _ Huniform) as [Hlength Hlookup].
  assert (Hcount : length rows = Z.to_nat (img_height img)).
  { apply Forall2_length in Hall. by rewrite length_seqZ in Hall. }
  split.
  { unfold len. rewrite Hlength, Hcount. nia. }
  intros x y Hx Hy.
  destruct (Forall2_lookup_l _ _ _ (Z.to_nat y) y Hall) as (row & Hrow & Hq).
  { rewrite lookup_seqZ_lt by lia. f_equal. lia. }
  destruct (Forall2_lookup_l _ _ _ (Z.to_nat x) x Hq) as (p & Hp & (r & g & b & Hget & ->)).
  { rewrite lookup_seqZ_lt by lia. f_equal. lia. }
  exists r, g, b. split; [ exact Hget | ].
  rewrite getitem_nonneg by nia.
  replace (Z.to_nat (y * img_width img + x))
    with (Z.to_nat y * Z.to_nat (img_width img) + Z.to_nat x)%nat by nia.
  rewrite (Hlookup _ _ row) by (done || lia). exact Hp.
Qed.

Lemma build_pixel_list_whole_image_witness :
  exists pixel_list,
    build_pixel_list 520 320 (Image 2 1 [(1, 2, 3); (4, 5, 6)])
    = Some pixel_list
    /\ len pixel_list = 2.
Proof.
  assert (Hle : forall a b, (a <=? b) = true -> a <= b) by (intros; lia).
  destruct (build_pixel_list_whole_image 520 320
              (Image 2 1 [(1, 2, 3); (4, 5, 6)])
              (Hle 0 2 eq_refl) (Hle 0 1 eq_refl) eq_refl
              (Hle 0 520 eq_refl) (Hle 522 1000 eq_refl)
              (Hle 0 320 eq_refl) (Hle 321 600 eq_refl))
    as (pixel_list & Hbuild & Hlen & _).
  exists pixel_list. split; [ exact Hbuild | exact Hlen ].
Defined.

(** ** From packet to result *)

(** X29.  The paint id ties a result to its packet.  When
    [create_single_paint_data] has built a packet, a result message that
    quotes the last four bytes of that packet is delivered to the
    callback of the pixel the packet was built for: it is called once
    (if there is one) with the status of the code, the entry is removed
    so that the pending map is as before the packet except for that id,
    the cooldown is stamped exactly for the code of success, and
    decoding goes on with the rest of the frame. *)
Theorem paint_round_trip
    (now code : Z) (p : pixel) (tk : token_info) (packet rest : list Z)
    (st st1 : client) :
  create_single_paint_data p tk st = (Ok (Some packet), st1) ->
  exists st2,
    on_websocket_message now
      (Binary ([255] ++ slice packet 27 31 ++ [code] ++ rest)) st1
    = on_websocket_message now (Binary rest) st2
    /\ calls_made st2 = calls_made st ++ delivery (Pixel.callback_of p) code
    /\ paint_callbacks st2 = delete (paint_id st) (paint_callbacks st)
    /\ last_batch_time st2
       = (if code =? 239 then now else last_batch_time st).
Proof.
  intros Hbuild.
  pose proof (create_single_paint_data_cases p tk st) as Hc.
  pose proof (encoder_keeps_create_single_paint_data p tk st) as Hk.
  rewrite Hbuild in Hc, Hk. cbn [fst snd] in Hc, Hk.
  destruct Hc as (_ & _ & _ & _ & _ & _ & _ & _ & _ & Hid & Hcb).
  destruct (encoder_keeps_effects _ _ Hk) as (_ & Hcalls & _).
  destruct Hk as (_ & _ & _ & _ & Klast & _).
  destruct (slice packet 27 31) as [ | i0 [ | i1 [ | i2 [ | i3 [ | ] ] ] ] ];
    try discriminate Hid.
  cbn [struct_unpack_I] in Hid. injection Hid as Hid.
  assert (Hreg : paint_callbacks st1 !! paint_id st
                 = Some (Pixel.callback_of p))
    by (rewrite Hcb; apply lookup_insert_eq).
  destruct (handle_paint_result_registered now (paint_id st) code st1 _ Hreg)
    as (st2 & Hrun & Hdel & Hcalls2 & Hstamp).
  exists st2. split; [ | split; [ | split ] ].
  - change ([255] ++ [i0; i1; i2; i3] ++ [code] ++ rest)
      with ([255; i0; i1; i2; i3; code] ++ rest).
    apply on_websocket_message_first_round.
    by rewrite decode_round_result, Hid, Hrun.
  - by rewrite Hcalls2, Hcalls.
  - by rewrite Hdel, Hcb, delete_insert_eq.
  - by rewrite Hstamp, Klast.
Qed.

Lemma paint_round_trip_witness :
  exists st2,
    on_websocket_message 5000 (Binary [255; 0; 0; 0; 0; 239]) Sample.pending
    = on_websocket_message 5000 (Binary []) st2
    /\ calls_made st2 = [(Sample.on_result, Status true TxtSuccess)]
    /\ last_batch_time st2 = 5000.
Proof.
  destruct (paint_round_trip 5000 239
              (Pixel.Make 10 20 1 2 3 (Some Sample.on_result)) Sample.tok_a
              [254; 10; 0; 20; 0; 1; 2; 3; 82; 1; 16;
               143; 20; 228; 95; 206; 234; 70; 127;
               160; 230; 27; 44; 61; 78; 95; 96; 0; 0; 0; 0]
              [] Sample.ready Sample.pending eq_refl)
    as (st2 & Hrun & Hcalls & _ & Hstamp).
  exists st2. split; [ exact Hrun | ]. split; [ exact Hcalls | exact Hstamp ].
Defined.

(** ** The drawable area *)

(** X30.  For a start position that is not negative, the drawable area
    of the drawing functions is the valid region of the client: the
    width and height they loop over are those of
    [get_image_valid_region], and equal those of the image exactly when
    it lies within the board. *)
Theorem draw_area_region (start_x start_y : Z) (img : image) :
  0 <= start_x -> 0 <= start_y ->
  let reg := get_image_valid_region start_x start_y
               (img_width img) (img_height img) in
  draw_area start_x start_y img = (reg_width reg, reg_height reg)
  /\ (draw_area start_x start_y img = (img_width img, img_height img)
      <-> is_image_within_bounds start_x start_y
            (img_width img) (img_height img) = true).
Proof.
  intros Hx Hy reg. subst reg.
  unfold draw_area, get_image_valid_region, is_image_within_bounds,
    board_width, board_height.
  cbn [reg_width reg_height].
  destruct (Z.gtb_spec (start_x + img_width img) 1000),
           (Z.gtb_spec (start_y + img_height img) 600),
           (Z.geb_spec start_x 0), (Z.geb_spec start_y 0),
           (Z.leb_spec (start_x + img_width img) 1000),
           (Z.leb_spec (start_y + img_height img) 600);
    try lia; cbn [orb andb];
    (split; [ f_equal; lia | ]);
    (split; [ intros Heq; inversion Heq; lia | intros E; (done || discriminate) ]).
Qed.

Lemma draw_area_region_witness :
  draw_area 900 500 (Image 300 200 []) = (100, 100)
  /\ draw_area 520 320 (Image 300 200 []) = (300, 200).
Proof.
  assert (Hle : forall a b, (a <=? b) = true -> a <= b) by (intros; lia).
  split.
  - exact (proj1 (draw_area_region 900 500 (Image 300 200 [])
                    (Hle 0 900 eq_refl) (Hle 0 500 eq_refl))).
  - exact (proj2 (proj2 (draw_area_region 520 320 (Image 300 200 [])
                           (Hle 0 520 eq_refl) (Hle 0 320 eq_refl)))
             eq_refl).
Defined.
